(** * Style-dictionary exporter: document composition

    A shallow embedding of the exporter's entry point (the [Pulsar.export]
    callback) and of [files/component-group-file.ts], followed by the
    properties of the composition that the specification states.

    The exporter reads one process-wide object, [exportConfiguration], which
    the nested-theme branches overwrite and restore around themed calls, and
    it draws from [Math.random] in every call of
    [componentGroupStyleOutputFiles].  Both are kept as explicit state: a
    computation is a function of a [World] that returns a value and the next
    world, throws, or never returns. *)

From Stdlib Require Import String Ascii List Bool Arith ZArith Lia Morphisms Setoid.
Import ListNotations.
Local Open Scope list_scope.
Local Open Scope string_scope.

Set Implicit Arguments.
Set Warnings "-register-all".

(** ** Data model (the SDK records, restricted to the fields the code reads) *)

Definition TokenType := string.

Record Token := {
  token_id : string;
  token_name : string;
  tokenType : TokenType;
  token_value : string;
  token_parentGroupId : option string;
  token_collectionId : option string;
  token_brandId : string
}.

Record TokenGroup := {
  group_id : string;
  group_name : string;
  group_parentGroupId : option string;
  group_brandId : string
}.

Record DesignSystemCollection := {
  persistentId : string;
  collection_name : string
}.

Record TokenTheme := {
  theme_id : string;
  theme_idInVersion : string;
  theme_name : string;
  overriddenTokens : list Token
}.

Record Brand := {
  brand_id : string;
  brand_idInVersion : string
}.

(** [PulsarContext]: [brandId] is [string | null], [themeIds] an optional array. *)
Record PulsarContext := {
  brandId : option string;
  themeIds : option (list string)
}.

(** An output file as the code probes it: [path], an optional [name]
    (read through [(file as any).name]) and [content]. *)
Record OutputFile := {
  path : string;
  name : option string;
  content : string
}.

Inductive ThemeExportStyle := ApplyDirectly | SeparateFiles | MergedTheme | NestedThemes.
Inductive FileStructure := SeparateByType | SingleFile | SeparateByCollection.
Inductive StringCase := camelCase | kebabCase.
Inductive Indent := IndentWidth (n : nat) | IndentText (s : string).

Record ExporterConfiguration := {
  exportThemesAs : ThemeExportStyle;
  fileStructure : FileStructure;
  exportBaseValues : bool;
  exportOnlyThemedTokens : bool;
  indent : Indent
}.

Definition RandomNumber := N.

(** The mutable environment of a run: the shared configuration object and the
    values [Math.random] is going to return, in order. *)
Record World := {
  exportConfiguration : ExporterConfiguration;
  randomSource : nat -> RandomNumber
}.

(** ** Computations *)

Inductive Outcome (A : Type) :=
| Returned (a : A)
| Thrown (message : string)
| Diverged.
Arguments Returned {A} a.
Arguments Thrown {A} message.
Arguments Diverged {A}.

Definition M (A : Type) := World -> Outcome (A * World).

Definition ret {A} (a : A) : M A := fun w => Returned (a, w).

Definition bind {A B} (m : M A) (k : A -> M B) : M B :=
  fun w =>
    match m w with
    | Returned (a, w') => k a w'
    | Thrown e => Thrown e
    | Diverged => Diverged
    end.

Definition throw {A} (message : string) : M A := fun _ => Thrown message.
Definition diverge {A} : M A := fun _ => Diverged.

Declare Scope exporter_scope.
Delimit Scope exporter_scope with exporter.
Notation "x <- m ;; k" := (bind m (fun x => k))
  (at level 61, m at next level, right associativity) : exporter_scope.
Notation "m ;;; k" := (bind m (fun _ => k))
  (at level 61, right associativity) : exporter_scope.
Local Open Scope exporter_scope.

(** Reading [exportConfiguration]. *)
Definition getConfiguration : M ExporterConfiguration :=
  fun w => Returned (exportConfiguration w, w).

(** [exportConfiguration.exportBaseValues = b] *)
Definition setExportBaseValues (b : bool) : M unit :=
  fun w =>
    let c := exportConfiguration w in
    Returned (tt,
      {| exportConfiguration :=
           {| exportThemesAs := exportThemesAs c;
              fileStructure := fileStructure c;
              exportBaseValues := b;
              exportOnlyThemedTokens := exportOnlyThemedTokens c;
              indent := indent c |};
         randomSource := randomSource w |}).

(** [Math.random()] *)
Definition Math_random : M RandomNumber :=
  fun w =>
    Returned (randomSource w 0,
      {| exportConfiguration := exportConfiguration w;
         randomSource := fun n => randomSource w (S n) |}).

Fixpoint mapM {A B} (f : A -> M B) (l : list A) : M (list B) :=
  match l with
  | [] => ret []
  | x :: rest =>
      y <- f x ;;
      ys <- mapM f rest ;;
      ret (y :: ys)
  end.

(** [array.flatMap(f)] when [f] has effects. *)
Definition flatMapM {A B} (f : A -> M (list B)) (l : list A) : M (list B) :=
  ls <- mapM f l ;;
  ret (concat ls).

(** ** JavaScript helpers *)

(** Truthiness of a [string | null] value: [null] and the empty string are falsy. *)
Definition truthy (s : option string) : bool :=
  match s with
  | Some v => negb (v =? "")
  | None => false
  end.

(** [a === b] where [a] is [string | null | undefined] and [b] a string. *)
Definition sameId (a : option string) (b : string) : bool :=
  match a with
  | Some v => v =? b
  | None => false
  end.

(** [array.includes(x)] on strings. *)
Definition includes (l : list string) (x : string) : bool :=
  existsb (fun y => y =? x) l.

(** [files.filter(f => f !== null)], as [processOutputFiles] does it. *)
Fixpoint processOutputFiles {A} (files : list (option A)) : list A :=
  match files with
  | [] => []
  | Some file :: rest => file :: processOutputFiles rest
  | None :: rest => processOutputFiles rest
  end.

(** [s.replace(pat, rep)] with a string pattern: the first occurrence only. *)
Fixpoint replace (pat rep s : string) : string :=
  if String.prefix pat s
  then rep ++ substring (String.length pat) (String.length s - String.length pat) s
  else match s with
       | EmptyString => EmptyString
       | String c rest => String c (replace pat rep rest)
       end.

(** [s.substr(from, len)] *)
Definition substr (s : string) (from len : nat) : string := substring from len s.

(** [array.findIndex(p)]: the index of the first match, [-1] without one. *)
Fixpoint findIndexFrom {A} (p : A -> bool) (l : list A) (i : Z) : Z :=
  match l with
  | [] => (-1)%Z
  | x :: rest => if p x then i else findIndexFrom p rest (i + 1)%Z
  end.
Definition findIndex {A} (p : A -> bool) (l : list A) : Z := findIndexFrom p l 0%Z.

(** [array.filter((x, index) => p(x, index))] *)
Fixpoint filterFrom {A} (p : A -> Z -> bool) (l : list A) (i : Z) : list A :=
  match l with
  | [] => []
  | x :: rest =>
      if p x i then x :: filterFrom p rest (i + 1)%Z else filterFrom p rest (i + 1)%Z
  end.
Definition filterIndexed {A} (p : A -> Z -> bool) (l : list A) : list A := filterFrom p l 0%Z.

(** A JavaScript [Map] with string keys: entries in insertion order, keys unique. *)
Definition JsMap (V : Type) := list (string * V).

Definition Map_has {V} (m : JsMap V) (k : string) : bool :=
  existsb (fun e => fst e =? k) m.

Definition Map_set {V} (m : JsMap V) (k : string) (v : V) : JsMap V :=
  if Map_has m k
  then map (fun e => if fst e =? k then (fst e, v) else e) m
  else (m ++ [(k, v)])%list.

(** [m.get(k)!.push(x)]: the array stored under [k] grows in place. *)
Definition Map_push {V} (m : JsMap (list V)) (k : string) (x : V) : JsMap (list V) :=
  map (fun e => if fst e =? k then (fst e, (snd e ++ [x])%list) else e) m.

(** [FileHelper.createTextFile({ relativePath, fileName, content })] of the
    export-utils package: the text file record with these three fields. *)
Definition createTextFile (relativePath fileName content' : string) : OutputFile :=
  {| path := relativePath; name := Some fileName; content := content' |}.

(** ** What the two source files import

    The SDK and export-utils helpers, the JavaScript built-ins that work on
    text, and the functions of [files/style-file.ts] and
    [utils/token-hierarchy.ts].  The functions of [style-file.ts] read the
    shared [exportConfiguration]; they receive its current value. *)
Class Imports := {
  Tree : Type;
  computeTokensByApplyingThemes : list Token -> list Token -> list TokenTheme -> list Token;
  codeSafeVariableName : string -> StringCase -> string;
  getThemeIdentifier : TokenTheme -> StringCase -> string;
  filterThemedTokens : list Token -> TokenTheme -> list Token;
  toLowerCase : string -> string;
  toString : RandomNumber -> nat -> string;
  allTokenTypes : list TokenType;
  JSON_parse : string -> Tree;
  JSON_stringify : Tree -> Indent -> string;
  deepMerge : Tree -> Tree -> Tree;
  processTokensToObject :
    ExporterConfiguration -> list Token -> list TokenGroup -> option TokenTheme ->
    list DesignSystemCollection -> list Token -> option Tree;
  styleOutputFile :
    ExporterConfiguration -> TokenType -> list Token -> list TokenGroup -> string ->
    option TokenTheme -> list DesignSystemCollection -> option OutputFile;
  combinedStyleOutputFile :
    ExporterConfiguration -> list Token -> list TokenGroup -> string ->
    option TokenTheme -> list DesignSystemCollection -> option OutputFile;
  combinedCollectionStyleOutputFile :
    ExporterConfiguration -> DesignSystemCollection -> list Token -> list TokenGroup ->
    string -> option TokenTheme -> list DesignSystemCollection -> option OutputFile
}.

Section Exporter.

Context {I : Imports}.

(** ** files/component-group-file.ts *)

Definition knownComponents : list string :=
  ["button"; "accordion"; "badge"; "card"; "input"; "dialog"; "dropdown";
   "checkbox"; "radio"; "switch"; "tab"; "toast"; "tooltip"].

Definition findGroup (tokenGroups : list TokenGroup) (groupId : string) : option TokenGroup :=
  find (fun group => group_id group =? groupId) tokenGroups.

(** The [while (currentGroupId)] loop; one unit of [fuel] per test of the
    loop condition, [None] when the fuel runs out before the loop exits. *)
Fixpoint traverse (fuel : nat) (tokenGroups : list TokenGroup)
    (componentGroupId : string) (currentGroupId : option string) : option string :=
  match fuel with
  | O => None
  | S fuel' =>
      match currentGroupId with
      | None => Some componentGroupId
      | Some current =>
          if current =? "" then Some componentGroupId
          else
            match findGroup tokenGroups current with
            | None => Some componentGroupId
            | Some currentGroup =>
                let groupName := toLowerCase (group_name currentGroup) in
                if includes knownComponents groupName
                then Some current
                else traverse fuel' tokenGroups componentGroupId
                       (group_parentGroupId currentGroup)
            end
      end
  end.

(** The component group of a token whose [parentGroupId] is [parent].  The
    loop gets one test per group and one more; [traverse_fuel_enough] below
    shows that a loop which exits at all exits within that many, so [None]
    here is a loop that never exits. *)
Definition findComponentGroup (tokenGroups : list TokenGroup) (parent : string) : option string :=
  traverse (S (List.length tokenGroups)) tokenGroups parent (Some parent).

(** [collectionTokens.forEach(...)] filling [tokensByComponentGroup]. *)
Fixpoint groupByComponent (tokenGroups : list TokenGroup) (collectionTokens : list Token)
    (tokensByComponentGroup : JsMap (list Token)) : option (JsMap (list Token)) :=
  match collectionTokens with
  | [] => Some tokensByComponentGroup
  | token :: rest =>
      match token_parentGroupId token with
      | Some parent =>
          if parent =? "" then groupByComponent tokenGroups rest tokensByComponentGroup
          else
            match findComponentGroup tokenGroups parent with
            | None => None
            | Some componentGroupId =>
                let m :=
                  if negb (Map_has tokensByComponentGroup componentGroupId)
                  then Map_set tokensByComponentGroup componentGroupId []
                  else tokensByComponentGroup in
                groupByComponent tokenGroups rest (Map_push m componentGroupId token)
            end
      | None => groupByComponent tokenGroups rest tokensByComponentGroup
      end
  end.

(** The body of [tokensByComponentGroup.forEach(...)]: the file of one entry,
    [None] where the callback returns before [files.push]. *)
Definition componentGroupFile (config : ExporterConfiguration)
    (tokens : list Token) (tokenGroups : list TokenGroup) (themePath : string)
    (theme : option TokenTheme) (collections : list DesignSystemCollection)
    (entry : string * list Token) : option OutputFile :=
  let groupId := fst entry in
  let groupTokens := snd entry in
  match findGroup tokenGroups groupId with
  | None => None
  | Some parentGroup =>
      match processTokensToObject config groupTokens tokenGroups theme collections tokens with
      | None => None
      | Some tokenObject =>
          let content := JSON_stringify tokenObject (indent config) in
          let componentName := codeSafeVariableName (group_name parentGroup) kebabCase in
          let baseFileName := componentName in
          let fileName :=
            if negb (themePath =? "")
            then baseFileName ++ "." ++ themePath ++ ".json"
            else baseFileName ++ ".json" in
          let relativePath := "./components" in
          Some (createTextFile relativePath fileName content)
      end
  end.

Definition inCollection (collection : DesignSystemCollection) (token : Token) : bool :=
  sameId (token_collectionId token) (persistentId collection).

(** The function after its first line, for the configuration it reads:
    [None] when one of the ancestor loops never exits. *)
Definition componentGroupFiles (config : ExporterConfiguration)
    (collection : DesignSystemCollection)
    (tokens : list Token) (tokenGroups : list TokenGroup) (themePath : string)
    (theme : option TokenTheme) (collections : list DesignSystemCollection)
    : option (list OutputFile) :=
  let collectionTokens := filter (inCollection collection) tokens in
  let grouped (collectionTokens : list Token) : option (list OutputFile) :=
    match groupByComponent tokenGroups collectionTokens [] with
    | None => None
    | Some tokensByComponentGroup =>
        Some (processOutputFiles
                (map (componentGroupFile config tokens tokenGroups themePath theme collections)
                     tokensByComponentGroup))
    end in
  match theme with
  | Some theme' =>
      if negb (themePath =? "") && exportOnlyThemedTokens config
      then
        let collectionTokens := filterThemedTokens collectionTokens theme' in
        if Nat.eqb (List.length collectionTokens) 0 then Some [] else grouped collectionTokens
      else grouped collectionTokens
  | None => grouped collectionTokens
  end.

Definition componentGroupStyleOutputFiles (collection : DesignSystemCollection)
    (tokens : list Token) (tokenGroups : list TokenGroup) (themePath : string)
    (theme : option TokenTheme) (collections : list DesignSystemCollection)
    : M (list OutputFile) :=
  r <- Math_random ;;
  let callId := substr (toString r 36) 2 9 in
  config <- getConfiguration ;;
  match componentGroupFiles config collection tokens tokenGroups themePath theme collections with
  | None => diverge
  | Some files => ret files
  end.

(** ** The exporter's entry point *)

Definition kebabName (collection : DesignSystemCollection) : string :=
  codeSafeVariableName (collection_name collection) kebabCase.

Definition collectionsWithTokens (tokens : list Token)
    (tokenCollections : list DesignSystemCollection) : list DesignSystemCollection :=
  filter (fun collection => existsb (fun token => inCollection collection token) tokens)
         tokenCollections.

Definition isGlobalOrAlias (collection : DesignSystemCollection) : bool :=
  let collectionName := kebabName collection in
  (collectionName =? "global") || (collectionName =? "alias").

Definition isComponents (collection : DesignSystemCollection) : bool :=
  let collectionName := kebabName collection in
  (collectionName =? "components") || (collectionName =? "component").

Definition brandNames : list string :=
  ["zest"; "factor"; "chefsplate"; "everyplate"; "factorform"; "factorui2";
   "goodchop"; "greenchef"; "hellofresh"; "thepetstable"; "youfoodz"].

Definition isBrand (collection : DesignSystemCollection) : bool :=
  let collectionName := kebabName collection in
  String.prefix "brand-" collectionName || includes brandNames collectionName.

(** [otherCollections] of the separate-files branch. *)
Definition isOther (collection : DesignSystemCollection) : bool :=
  let collectionName := kebabName collection in
  negb (collectionName =? "global") &&
  negb (collectionName =? "alias") &&
  negb (collectionName =? "components") &&
  negb (collectionName =? "component") &&
  negb (String.prefix "brand-" collectionName) &&
  negb (includes brandNames collectionName).

(** The filter of [otherBaseFiles]. *)
Definition isNotGlobalAliasComponents (collection : DesignSystemCollection) : bool :=
  let collectionName := kebabName collection in
  negb (collectionName =? "global") &&
  negb (collectionName =? "alias") &&
  negb (collectionName =? "components") &&
  negb (collectionName =? "component").

(** A call of a function of [style-file.ts]: it sees the shared configuration
    as it is when the call is made. *)
Definition calling {A} (f : ExporterConfiguration -> A) : M A :=
  config <- getConfiguration ;;
  ret (f config).

(** The themed call of the nested-theme branches: [exportBaseValues] is set
    to [false] on the shared configuration, the file is generated, and the
    saved value is written back. *)
Definition withoutBaseValues {A} (f : ExporterConfiguration -> A) : M A :=
  config <- getConfiguration ;;
  let originalExportBaseValues := exportBaseValues config in
  setExportBaseValues false ;;;
  file <- calling f ;;
  setExportBaseValues originalExportBaseValues ;;;
  ret file.

(** The callback of [[baseFile, ...themeFiles].reduce(..., null)]. *)
Definition mergeInto (indent' : Indent) (merged file : option OutputFile) : option OutputFile :=
  match file with
  | None => merged
  | Some f =>
      match merged with
      | None => Some f
      | Some m =>
          let mergedContent := deepMerge (JSON_parse (content m)) (JSON_parse (content f)) in
          Some {| path := path f;
                  name := name f;
                  content := JSON_stringify mergedContent indent' |}
      end
  end.

Definition mergeAll (files : list (option OutputFile)) : M (option OutputFile) :=
  config <- getConfiguration ;;
  ret (fold_left (mergeInto (indent config)) files None).

Section Branches.

Variables (tokens : list Token) (tokenGroups : list TokenGroup)
          (tokenCollections : list DesignSystemCollection)
          (themesToApply : list TokenTheme).

(** *** Nested themes *)

Definition nestedThemesSingleFile : M (list OutputFile) :=
  config <- getConfiguration ;;
  baseFile <-
    (if exportBaseValues config
     then calling (fun c => combinedStyleOutputFile c tokens tokenGroups "" None tokenCollections)
     else ret None) ;;
  themeFiles <-
    mapM (fun theme =>
            let themedTokens := computeTokensByApplyingThemes tokens tokens [theme] in
            withoutBaseValues
              (fun c => combinedStyleOutputFile c themedTokens tokenGroups ""
                          (Some theme) tokenCollections))
         themesToApply ;;
  mergedFile <- mergeAll (baseFile :: themeFiles) ;;
  ret (processOutputFiles [mergedFile]).

(** The callback of [collectionsWithTokens.map(...)] in the nested-theme,
    by-collection branch. *)
Definition nestedCollectionFile (collection : DesignSystemCollection) : M (option OutputFile) :=
  config <- getConfiguration ;;
  if isGlobalOrAlias collection
  then
    (if exportBaseValues config
     then calling (fun c => combinedCollectionStyleOutputFile c collection tokens tokenGroups
                              "" None tokenCollections)
     else ret None)
  else
    baseFile <-
      (if exportBaseValues config
       then calling (fun c => combinedCollectionStyleOutputFile c collection tokens tokenGroups
                                "" None tokenCollections)
       else ret None) ;;
    themeFiles <-
      mapM (fun theme =>
              let themedTokens := computeTokensByApplyingThemes tokens tokens [theme] in
              withoutBaseValues
                (fun c => combinedCollectionStyleOutputFile c collection themedTokens
                            tokenGroups "" (Some theme) tokenCollections))
           themesToApply ;;
    mergeAll (baseFile :: themeFiles).

Definition nestedThemesByCollection : M (list OutputFile) :=
  let collectionsWithTokens := collectionsWithTokens tokens tokenCollections in
  valueObjectFiles <- mapM nestedCollectionFile collectionsWithTokens ;;
  ret (processOutputFiles valueObjectFiles).

Definition nestedTypeFile (type : TokenType) : M (option OutputFile) :=
  config <- getConfiguration ;;
  baseFile <-
    (if exportBaseValues config
     then calling (fun c => styleOutputFile c type tokens tokenGroups "" None tokenCollections)
     else ret None) ;;
  themeFiles <-
    mapM (fun theme =>
            let themedTokens := computeTokensByApplyingThemes tokens tokens [theme] in
            withoutBaseValues
              (fun c => styleOutputFile c type themedTokens tokenGroups ""
                          (Some theme) tokenCollections))
         themesToApply ;;
  mergeAll (baseFile :: themeFiles).

Definition nestedThemesByType : M (list OutputFile) :=
  valueObjectFiles <- mapM nestedTypeFile allTokenTypes ;;
  ret (processOutputFiles valueObjectFiles).

(** *** Separate files *)

Definition separateFilesSingleFile : M (list OutputFile) :=
  config <- getConfiguration ;;
  let themeFiles :=
    map (fun theme =>
           let themedTokens := computeTokensByApplyingThemes tokens tokens [theme] in
           let themePath := getThemeIdentifier theme camelCase in
           combinedStyleOutputFile config themedTokens tokenGroups themePath
             (Some theme) tokenCollections)
        themesToApply in
  let baseFile :=
    if exportBaseValues config
    then combinedStyleOutputFile config tokens tokenGroups "" None tokenCollections
    else None in
  ret (processOutputFiles (baseFile :: themeFiles)).

(** [(file as any).name || 'unknown'] *)
Definition nameOrUnknown (file : OutputFile) : string :=
  match name file with
  | Some n => if n =? "" then "unknown" else n
  | None => "unknown"
  end.

(** [(baseFile as any).name?.replace('.json', '') || 'unknown'] *)
Definition componentNameOf (baseFile : OutputFile) : string :=
  match name baseFile with
  | Some n => let stripped := replace ".json" "" n in
              if stripped =? "" then "unknown" else stripped
  | None => "unknown"
  end.

(** The callback of [baseComponentFiles.map(...)]: the themed file written
    for one base component file of [collection]. *)
Definition themedComponentFile (config : ExporterConfiguration) (theme : TokenTheme)
    (themedTokens : list Token) (themeName : string) (collection : DesignSystemCollection)
    (baseFile : OutputFile) : option OutputFile :=
  let collectionThemedTokens := filter (inCollection collection) themedTokens in
  match processTokensToObject config collectionThemedTokens tokenGroups (Some theme)
          tokenCollections tokens with
  | None => None
  | Some themedTokenObject =>
      let content := JSON_stringify themedTokenObject (indent config) in
      let componentName := componentNameOf baseFile in
      Some (createTextFile ("./brand/" ++ themeName) (componentName ++ ".json") content)
  end.

(** The callback of [componentsCollections.flatMap(...)]: the themed
    component files of one components collection. *)
Definition collectionThemeFiles (config : ExporterConfiguration) (theme : TokenTheme)
    (themedTokens : list Token) (themeName : string)
    (collection : DesignSystemCollection) : M (list OutputFile) :=
  baseComponentFiles <-
    componentGroupStyleOutputFiles collection tokens tokenGroups "" None tokenCollections ;;
  ret (processOutputFiles
         (map (themedComponentFile config theme themedTokens themeName collection)
              baseComponentFiles)).

(** [componentThemeFiles] for one theme. *)
Definition componentThemeFiles (config : ExporterConfiguration) (theme : TokenTheme)
    (themedTokens : list Token) (themeName : string)
    (componentsCollections : list DesignSystemCollection) : M (list OutputFile) :=
  flatMapM (collectionThemeFiles config theme themedTokens themeName) componentsCollections.

(** The callback of [themesToApply.map(...)] that builds [brandFiles]. *)
Definition brandFile (config : ExporterConfiguration) (theme : TokenTheme) : option OutputFile :=
  let themedTokens := computeTokensByApplyingThemes tokens tokens [theme] in
  let themeName := getThemeIdentifier theme kebabCase in
  match processTokensToObject config themedTokens tokenGroups (Some theme)
          tokenCollections tokens with
  | None => None
  | Some brandTokenObject =>
      let content := JSON_stringify brandTokenObject (indent config) in
      Some (createTextFile "./brand" (themeName ++ ".json") content)
  end.

(** [`${file.path}/${(file as any).name || 'unknown'}`] *)
Definition fileIdentifier (file : OutputFile) : string :=
  path file ++ "/" ++ nameOrUnknown file.

Definition uniqueFiles (allFiles : list OutputFile) : list OutputFile :=
  filterIndexed
    (fun file index =>
       Z.eqb index
         (findIndex (fun f =>
                       let currentId := fileIdentifier file in
                       let compareId := fileIdentifier f in
                       currentId =? compareId)
                    allFiles))
    allFiles.

Definition separateFilesByCollection : M (list OutputFile) :=
  config <- getConfiguration ;;
  let collectionsWithTokens := collectionsWithTokens tokens tokenCollections in
  let globalAliasCollections := filter isGlobalOrAlias collectionsWithTokens in
  let componentsCollections := filter isComponents collectionsWithTokens in
  let brandCollections := filter isBrand collectionsWithTokens in
  let otherCollections := filter isOther collectionsWithTokens in
  themeFiles <-
    flatMapM (fun theme =>
                let themedTokens := computeTokensByApplyingThemes tokens tokens [theme] in
                let themeName := getThemeIdentifier theme kebabCase in
                componentThemeFiles <-
                  componentThemeFiles config theme themedTokens themeName
                    componentsCollections ;;
                let otherThemeFiles :=
                  map (fun collection =>
                         combinedCollectionStyleOutputFile config collection themedTokens
                           tokenGroups themeName (Some theme) tokenCollections)
                      otherCollections in
                ret (map Some componentThemeFiles ++ otherThemeFiles)%list)
             themesToApply ;;
  let brandFiles := processOutputFiles (map (brandFile config) themesToApply) in
  let globalAliasBaseFiles :=
    map (fun collection =>
           combinedCollectionStyleOutputFile config collection tokens tokenGroups ""
             None tokenCollections)
        globalAliasCollections in
  componentBaseFiles <-
    (if exportBaseValues config
     then flatMapM (fun collection =>
                      componentGroupStyleOutputFiles collection tokens tokenGroups ""
                        None tokenCollections)
                   componentsCollections
     else ret []) ;;
  let otherBaseFiles :=
    if exportBaseValues config
    then map (fun collection =>
                combinedCollectionStyleOutputFile config collection tokens tokenGroups ""
                  None tokenCollections)
             (filter isNotGlobalAliasComponents collectionsWithTokens)
    else [] in
  let baseFiles :=
    (globalAliasBaseFiles ++ map Some componentBaseFiles ++ otherBaseFiles)%list in
  let allFiles :=
    processOutputFiles (baseFiles ++ themeFiles ++ map Some brandFiles)%list in
  let uniqueFiles := uniqueFiles allFiles in
  ret (processOutputFiles (map Some uniqueFiles)).

Definition separateFilesByType : M (list OutputFile) :=
  config <- getConfiguration ;;
  let themeFiles :=
    flat_map (fun theme =>
                let themedTokens := computeTokensByApplyingThemes tokens tokens [theme] in
                let themePath := getThemeIdentifier theme camelCase in
                map (fun type =>
                       styleOutputFile config type themedTokens tokenGroups themePath
                         (Some theme) tokenCollections)
                    allTokenTypes)
             themesToApply in
  let baseFiles :=
    if exportBaseValues config
    then map (fun type =>
                styleOutputFile config type tokens tokenGroups "" None tokenCollections)
             allTokenTypes
    else [] in
  ret (processOutputFiles (baseFiles ++ themeFiles)%list).

(** *** Merged theme *)

Definition mergedThemeSingleFile : M (list OutputFile) :=
  config <- getConfiguration ;;
  let baseFile :=
    if exportBaseValues config
    then combinedStyleOutputFile config tokens tokenGroups "" None tokenCollections
    else None in
  let themedTokens := computeTokensByApplyingThemes tokens tokens themesToApply in
  let mergedThemeFile :=
    combinedStyleOutputFile config themedTokens tokenGroups "themed"
      (nth_error themesToApply 0) tokenCollections in
  ret (processOutputFiles [baseFile; mergedThemeFile]).

Definition mergedThemeByCollection : M (list OutputFile) :=
  config <- getConfiguration ;;
  let collectionsWithTokens := collectionsWithTokens tokens tokenCollections in
  let globalAliasCollections := filter isGlobalOrAlias collectionsWithTokens in
  let otherCollections :=
    filter (fun collection => negb (isGlobalOrAlias collection)) collectionsWithTokens in
  let baseTokenFiles :=
    if exportBaseValues config
    then map (fun collection =>
                combinedCollectionStyleOutputFile config collection tokens tokenGroups ""
                  None tokenCollections)
             collectionsWithTokens
    else [] in
  let themedTokens := computeTokensByApplyingThemes tokens tokens themesToApply in
  let mergedThemeFiles :=
    map (fun collection =>
           combinedCollectionStyleOutputFile config collection themedTokens tokenGroups
             "themed" (nth_error themesToApply 0) tokenCollections)
        otherCollections in
  let mergedFiles := (baseTokenFiles ++ mergedThemeFiles)%list in
  ret (processOutputFiles mergedFiles).

Definition mergedThemeByType : M (list OutputFile) :=
  config <- getConfiguration ;;
  let baseTokenFiles :=
    if exportBaseValues config
    then map (fun type =>
                styleOutputFile config type tokens tokenGroups "" None tokenCollections)
             allTokenTypes
    else [] in
  let themedTokens := computeTokensByApplyingThemes tokens tokens themesToApply in
  let mergedThemeFiles :=
    map (fun type =>
           styleOutputFile config type themedTokens tokenGroups "themed"
             (nth_error themesToApply 0) tokenCollections)
        allTokenTypes in
  let mergedFiles := (baseTokenFiles ++ mergedThemeFiles)%list in
  ret (processOutputFiles mergedFiles).

(** *** Without theme processing *)

(** The by-collection branch taken when no theme was requested. *)
Definition collectionFiles : M (list OutputFile) :=
  config <- getConfiguration ;;
  let collectionsWithTokens := collectionsWithTokens tokens tokenCollections in
  let componentsCollections := filter isComponents collectionsWithTokens in
  let otherCollections :=
    filter (fun collection => negb (isComponents collection)) collectionsWithTokens in
  componentFiles <-
    flatMapM (fun collection =>
                componentGroupStyleOutputFiles collection tokens tokenGroups "" None
                  tokenCollections)
             componentsCollections ;;
  let otherCollectionFiles :=
    map (fun collection =>
           combinedCollectionStyleOutputFile config collection tokens tokenGroups ""
             None tokenCollections)
        otherCollections in
  ret (processOutputFiles (map Some componentFiles ++ otherCollectionFiles)%list).

(** The last two cases of the function. *)
Definition defaultFiles : M (list OutputFile) :=
  config <- getConfiguration ;;
  match fileStructure config with
  | SingleFile =>
      let defaultFile :=
        if exportBaseValues config
        then combinedStyleOutputFile config tokens tokenGroups "" None tokenCollections
        else None in
      ret (processOutputFiles [defaultFile])
  | _ =>
      let defaultFiles :=
        if exportBaseValues config
        then map (fun type =>
                    styleOutputFile config type tokens tokenGroups "" None tokenCollections)
                 allTokenTypes
        else [] in
      ret (processOutputFiles defaultFiles)
  end.

End Branches.

Definition findBrand (brands : list Brand) (id : string) : option Brand :=
  find (fun brand => (brand_id brand =? id) || (brand_idInVersion brand =? id)) brands.

Definition findTheme (themes : list TokenTheme) (themeId : string) : option TokenTheme :=
  find (fun theme => (theme_id theme =? themeId) || (theme_idInVersion theme =? themeId)) themes.

(** [context.themeIds && context.themeIds.length > 0] *)
Definition themesRequested (context : PulsarContext) : bool :=
  match themeIds context with
  | Some (_ :: _) => true
  | _ => false
  end.

(** The code after the [switch]: reached without themes, and from the
    apply-directly case with the themed tokens. *)
Definition withoutThemeFiles (context : PulsarContext) (tokens : list Token)
    (tokenGroups : list TokenGroup) (tokenCollections : list DesignSystemCollection)
    : M (list OutputFile) :=
  config <- getConfiguration ;;
  match fileStructure config with
  | SeparateByCollection =>
      if negb (themesRequested context)
      then collectionFiles tokens tokenGroups tokenCollections
      else defaultFiles tokens tokenGroups tokenCollections
  | _ => defaultFiles tokens tokenGroups tokenCollections
  end.

(** [if (context.brandId) { ... }]: the tokens and groups of the requested
    brand, all of them when no brand is requested. *)
Definition filterByBrand (allTokens : list Token) (allTokenGroups : list TokenGroup)
    (brands : list Brand) (context : PulsarContext) : M (list Token * list TokenGroup) :=
  if truthy (brandId context)
  then
    let id := match brandId context with Some v => v | None => "" end in
    match findBrand brands id with
    | None => throw ("Unable to find brand " ++ id ++ ".")
    | Some brand =>
        ret (filter (fun token => token_brandId token =? brand_id brand) allTokens,
             filter (fun tokenGroup => group_brandId tokenGroup =? brand_id brand)
                    allTokenGroups)
    end
  else ret (allTokens, allTokenGroups).

(** The callback of [context.themeIds.map(...)]. *)
Definition resolveTheme (themes : list TokenTheme) (themeId : string) : M TokenTheme :=
  match findTheme themes themeId with
  | None => throw ("Unable to find theme " ++ themeId)
  | Some theme => ret theme
  end.

(** [switch (exportConfiguration.exportThemesAs)] *)
Definition exportThemes (context : PulsarContext) (tokens : list Token)
    (tokenGroups : list TokenGroup) (tokenCollections : list DesignSystemCollection)
    (themesToApply : list TokenTheme) : M (list OutputFile) :=
  config <- getConfiguration ;;
  match exportThemesAs config with
  | NestedThemes =>
      match fileStructure config with
      | SingleFile => nestedThemesSingleFile tokens tokenGroups tokenCollections themesToApply
      | SeparateByCollection =>
          nestedThemesByCollection tokens tokenGroups tokenCollections themesToApply
      | SeparateByType =>
          nestedThemesByType tokens tokenGroups tokenCollections themesToApply
      end
  | SeparateFiles =>
      match fileStructure config with
      | SingleFile => separateFilesSingleFile tokens tokenGroups tokenCollections themesToApply
      | SeparateByCollection =>
          separateFilesByCollection tokens tokenGroups tokenCollections themesToApply
      | SeparateByType =>
          separateFilesByType tokens tokenGroups tokenCollections themesToApply
      end
  | MergedTheme =>
      match fileStructure config with
      | SingleFile => mergedThemeSingleFile tokens tokenGroups tokenCollections themesToApply
      | SeparateByCollection =>
          mergedThemeByCollection tokens tokenGroups tokenCollections themesToApply
      | SeparateByType =>
          mergedThemeByType tokens tokenGroups tokenCollections themesToApply
      end
  | ApplyDirectly =>
      let tokens := computeTokensByApplyingThemes tokens tokens themesToApply in
      withoutThemeFiles context tokens tokenGroups tokenCollections
  end.

(** The export callback, given what the SDK returned for [getTokens],
    [getTokenGroups], [getTokenCollections], [getBrands] and [getTokenThemes]. *)
Definition export (allTokens : list Token) (allTokenGroups : list TokenGroup)
    (tokenCollections : list DesignSystemCollection) (brands : list Brand)
    (themes : list TokenTheme) (context : PulsarContext) : M (list OutputFile) :=
  filtered <- filterByBrand allTokens allTokenGroups brands context ;;
  let tokens := fst filtered in
  let tokenGroups := snd filtered in
  if themesRequested context
  then
    themesToApply <-
      mapM (resolveTheme themes)
           (match themeIds context with Some ids => ids | None => [] end) ;;
    exportThemes context tokens tokenGroups tokenCollections themesToApply
  else withoutThemeFiles context tokens tokenGroups tokenCollections.

(** ** Notions used to state the properties *)

(** The parent chain of a group id, as the data model describes it: the
    groups met from [current] upwards, ending at a group without parent or
    at a reference that no group answers. *)
Inductive ancestors (tokenGroups : list TokenGroup) : option string -> list TokenGroup -> Prop :=
| ancestors_root : forall current,
    truthy current = false -> ancestors tokenGroups current []
| ancestors_dangling : forall id,
    truthy (Some id) = true -> findGroup tokenGroups id = None ->
    ancestors tokenGroups (Some id) []
| ancestors_parent : forall id group chain,
    truthy (Some id) = true -> findGroup tokenGroups id = Some group ->
    ancestors tokenGroups (group_parentGroupId group) chain ->
    ancestors tokenGroups (Some id) (group :: chain).

(** A group whose lower-cased name is a known component name. *)
Definition isKnownComponent (group : TokenGroup) : bool :=
  includes knownComponents (toLowerCase (group_name group)).

(** A finished run of the loop: the ids it moved past, and its result. *)
Inductive climbs (tokenGroups : list TokenGroup) (componentGroupId : string)
  : option string -> list string -> string -> Prop :=
| climbs_exit : forall current,
    truthy current = false -> climbs tokenGroups componentGroupId current [] componentGroupId
| climbs_missing : forall id,
    truthy (Some id) = true -> findGroup tokenGroups id = None ->
    climbs tokenGroups componentGroupId (Some id) [] componentGroupId
| climbs_found : forall id group,
    truthy (Some id) = true -> findGroup tokenGroups id = Some group ->
    isKnownComponent group = true ->
    climbs tokenGroups componentGroupId (Some id) [] id
| climbs_up : forall id group passed r,
    truthy (Some id) = true -> findGroup tokenGroups id = Some group ->
    isKnownComponent group = false ->
    climbs tokenGroups componentGroupId (group_parentGroupId group) passed r ->
    climbs tokenGroups componentGroupId (Some id) (id :: passed) r.

(** The keys of [keys] in the order of their first occurrence, after those
    already [seen]. *)
Definition firstOccurrences (seen keys : list string) : list string :=
  fold_left (fun acc k => if includes acc k then acc else (acc ++ [k])%list) keys seen.

(** The component group of each token that has a parent group, in token order. *)
Definition componentGroupsOf (tokenGroups : list TokenGroup) (tokens : list Token)
  : list string :=
  flat_map (fun token =>
              match token_parentGroupId token with
              | Some parent =>
                  if parent =? "" then []
                  else match findComponentGroup tokenGroups parent with
                       | Some componentGroupId => [componentGroupId]
                       | None => []
                       end
              | None => []
              end)
           tokens.

End Exporter.

(** The token is filed under the key [key]: it has a parent group, and the
    ancestor loop started there ends with [key]. *)
Definition filedUnder {I : Imports} (tokenGroups : list TokenGroup) (key : string) (token : Token) : bool :=
  match token_parentGroupId token with
  | Some parent =>
      if parent =? "" then false
      else match findComponentGroup tokenGroups parent with
           | Some componentGroupId => componentGroupId =? key
           | None => false
           end
  | None => false
  end.

(** The [Map] holds the tokens of [done] by component group: its keys are
    distinct, and its entries are the keys some token is filed under, each
    with the tokens filed under it, in the order of [done]. *)
Definition groupedBy {I : Imports} (tokenGroups : list TokenGroup) (done : list Token)
    (tokensByComponentGroup : JsMap (list Token)) : Prop :=
  NoDup (map fst tokensByComponentGroup) /\
  forall key groupTokens,
    In (key, groupTokens) tokensByComponentGroup <->
    groupTokens <> [] /\ groupTokens = filter (filedUnder tokenGroups key) done.

(** A file whose content [JSON.stringify] wrote, as the file functions
    write it: a text that [JSON.parse] reads. *)
Definition printed {I : Imports} (file : OutputFile) : Prop :=
  exists (tokenObject : Tree) (indent' : Indent),
    content file = JSON_stringify tokenObject indent'.

(** The parent chains of the data model: the parent group of every token
    has a finite chain of ancestors. *)
Definition finiteChains (tokenGroups : list TokenGroup) (tokens : list Token) : Prop :=
  forall token parent,
    In token tokens -> token_parentGroupId token = Some parent ->
    exists chain, ancestors tokenGroups (Some parent) chain.

(** The files of the un-themed call of [componentGroupStyleOutputFiles] for
    a collection, where that call returns. *)
Definition componentFilesOf {I : Imports} (config : ExporterConfiguration)
    (collection : DesignSystemCollection) (tokens : list Token)
    (tokenGroups : list TokenGroup) (collections : list DesignSystemCollection)
    : list OutputFile :=
  match componentGroupFiles config collection tokens tokenGroups "" None collections with
  | Some files => files
  | None => []
  end.

(** One pass over the files that keeps a file when no file kept or dropped
    before it had its identifier; [seen] holds the identifiers met so far. *)
Fixpoint firstPerIdentifier (seen : list string) (files : list OutputFile)
  : list OutputFile :=
  match files with
  | [] => []
  | file :: rest =>
      if includes seen (fileIdentifier file)
      then firstPerIdentifier seen rest
      else file :: firstPerIdentifier (fileIdentifier file :: seen) rest
  end.

(** A name without a dot in it. *)
Fixpoint dotFree (s : string) : bool :=
  match s with
  | EmptyString => true
  | String c rest => negb (Ascii.eqb c ".") && dotFree rest
  end.

(** The context of the same request without its brand. *)
Definition withoutBrand (context : PulsarContext) : PulsarContext :=
  {| brandId := None; themeIds := themeIds context |}.

(** A requested brand that no loaded brand answers to. *)
Definition brandUnknown (brands : list Brand) (context : PulsarContext) : Prop :=
  exists id, brandId context = Some id /\ id <> "" /\
    forall brand, In brand brands -> brand_id brand <> id /\ brand_idInVersion brand <> id.

(** A requested theme that no loaded theme answers to. *)
Definition themeUnknown (themes : list TokenTheme) (context : PulsarContext) : Prop :=
  exists ids id, themeIds context = Some ids /\ In id ids /\
    forall theme, In theme themes -> theme_id theme <> id /\ theme_idInVersion theme <> id.

(** What a run hands back, without the world it leaves. *)
Definition result {A} (o : Outcome (A * World)) : Outcome A :=
  match o with
  | Returned (a, _) => Returned a
  | Thrown e => Thrown e
  | Diverged => Diverged
  end.

Definition finalConfiguration {A} (o : Outcome (A * World)) : option ExporterConfiguration :=
  match o with
  | Returned (_, w) => Some (exportConfiguration w)
  | _ => None
  end.

(** [runs m c c' o]: started with the shared configuration [c], whatever
    [Math.random] returns, [m] ends as [o] and leaves the configuration [c']. *)
Definition runs {A} (m : M A) (c c' : ExporterConfiguration) (o : Outcome A) : Prop :=
  forall w, exportConfiguration w = c ->
    result (m w) = o /\
    (forall a, o = Returned a -> finalConfiguration (m w) = Some c').

(** [m] depends on the world through the configuration only, leaves the
    configuration as it found it, and does not throw. *)
Definition settled {A} (m : M A) (c : ExporterConfiguration) : Prop :=
  exists o, runs m c c o /\ forall e, o <> Thrown e.

(** Two computations that do the same from the configuration [c]. *)
Definition agree {A} (c : ExporterConfiguration) (m1 m2 : M A) : Prop :=
  forall w, exportConfiguration w = c -> m1 w = m2 w.

Definition suppressBaseValues (c : ExporterConfiguration) : ExporterConfiguration :=
  {| exportThemesAs := exportThemesAs c;
     fileStructure := fileStructure c;
     exportBaseValues := false;
     exportOnlyThemedTokens := exportOnlyThemedTokens c;
     indent := indent c |}.

(** The tokens a call for [theme] is handed: the tokens overlaid with
    the theme, the tokens themselves for the un-themed call. *)
Definition tokensUnder {I : Imports} (tokens : list Token) (theme : option TokenTheme)
  : list Token :=
  match theme with
  | Some theme' => computeTokensByApplyingThemes tokens tokens [theme']
  | None => tokens
  end.

(** A nested-themes document when the configuration is a parameter of each
    generation call, as the specification asks: the un-themed call, made
    when base values are exported, is handed the configuration of the run,
    every themed call that configuration with [exportBaseValues] off, and
    the files are merged in this order. *)
Definition nestedDocument {I : Imports} (config : ExporterConfiguration)
    (themesToApply : list TokenTheme)
    (generate : ExporterConfiguration -> option TokenTheme -> option OutputFile)
  : option OutputFile :=
  fold_left (mergeInto (indent config))
    ((if exportBaseValues config then generate config None else None)
       :: map (fun theme => generate (suppressBaseValues config) (Some theme)) themesToApply)
    None.

(** The imports with another [combinedCollectionStyleOutputFile]. *)
Definition withCollectionFile (I : Imports)
    (f : ExporterConfiguration -> DesignSystemCollection -> list Token -> list TokenGroup ->
         string -> option TokenTheme -> list DesignSystemCollection -> option OutputFile)
    : Imports :=
  {| Tree := @Tree I;
     computeTokensByApplyingThemes := @computeTokensByApplyingThemes I;
     codeSafeVariableName := @codeSafeVariableName I;
     getThemeIdentifier := @getThemeIdentifier I;
     filterThemedTokens := @filterThemedTokens I;
     toLowerCase := @toLowerCase I;
     toString := @toString I;
     allTokenTypes := @allTokenTypes I;
     JSON_parse := @JSON_parse I;
     JSON_stringify := @JSON_stringify I;
     deepMerge := @deepMerge I;
     processTokensToObject := @processTokensToObject I;
     styleOutputFile := @styleOutputFile I;
     combinedStyleOutputFile := @combinedStyleOutputFile I;
     combinedCollectionStyleOutputFile := f |}.

(** The imports, with every function of [style-file.ts] reading the shared
    configuration through [view], which may look at the theme of the call. *)
Definition withView (I : Imports)
    (view : option TokenTheme -> ExporterConfiguration -> ExporterConfiguration)
    : Imports :=
  {| Tree := @Tree I;
     computeTokensByApplyingThemes := @computeTokensByApplyingThemes I;
     codeSafeVariableName := @codeSafeVariableName I;
     getThemeIdentifier := @getThemeIdentifier I;
     filterThemedTokens := @filterThemedTokens I;
     toLowerCase := @toLowerCase I;
     toString := @toString I;
     allTokenTypes := @allTokenTypes I;
     JSON_parse := @JSON_parse I;
     JSON_stringify := @JSON_stringify I;
     deepMerge := @deepMerge I;
     processTokensToObject :=
       fun config tokens tokenGroups theme collections allTokens =>
         @processTokensToObject I (view theme config) tokens tokenGroups theme collections
           allTokens;
     styleOutputFile :=
       fun config type tokens tokenGroups themePath theme collections =>
         @styleOutputFile I (view theme config) type tokens tokenGroups themePath theme
           collections;
     combinedStyleOutputFile :=
       fun config tokens tokenGroups themePath theme collections =>
         @combinedStyleOutputFile I (view theme config) tokens tokenGroups themePath theme
           collections;
     combinedCollectionStyleOutputFile :=
       fun config collection tokens tokenGroups themePath theme collections =>
         @combinedCollectionStyleOutputFile I (view theme config) collection tokens
           tokenGroups themePath theme collections |}.

(** ** A sample instance of the imports

    One concrete behaviour of what the two files import, to run the
    composer on concrete design systems. *)

Module Sample.

(** A serialized tree: a leaf or a mapping from keys to trees. *)
Inductive Json :=
| JLeaf (value : string)
| JObject (fields : list (string * Json)).

Definition lookup (fields : list (string * Json)) (key : string) : option Json :=
  option_map snd (find (fun e => fst e =? key) fields).

(** Modelled from the spec: [deepMerge] of [utils/token-hierarchy.ts], which
    is not among the sources.  Mappings merge key by key, the second
    argument wins wherever one side is a leaf, keys of one side are kept. *)
Fixpoint deepMerge (a b : Json) {struct a} : Json :=
  match a with
  | JLeaf _ => b
  | JObject fa =>
      match b with
      | JLeaf _ => b
      | JObject fb =>
          JObject
            ((fix merged (fs : list (string * Json)) : list (string * Json) :=
                match fs with
                | [] => []
                | (key, va) :: rest =>
                    (key, match lookup fb key with
                          | Some vb => deepMerge va vb
                          | None => va
                          end) :: merged rest
                end) fa
             ++ filter (fun e => negb (existsb (fun e' => fst e' =? fst e) fa)) fb)%list
      end
  end.

Definition quote : string := String (ascii_of_nat 34) EmptyString.

(** [JSON.stringify] in its compact form; the indent is not rendered. *)
Fixpoint stringify (t : Json) : string :=
  match t with
  | JLeaf value => quote ++ value ++ quote
  | JObject fields =>
      "{" ++
      (fix members (fs : list (string * Json)) : string :=
         match fs with
         | [] => ""
         | (key, v) :: rest =>
             quote ++ key ++ quote ++ ":" ++ stringify v ++
             match rest with [] => "" | _ => "," ++ members rest end
         end) fields
      ++ "}"
  end.

(** The text up to the closing quote, and what follows it. *)
Fixpoint readString (s : string) : option (string * string) :=
  match s with
  | EmptyString => None
  | String c rest =>
      if Ascii.eqb c (ascii_of_nat 34) then Some ("", rest)
      else match readString rest with
           | Some (v, r) => Some (String c v, r)
           | None => None
           end
  end.

(** [JSON.parse] on the texts [stringify] writes. *)
Fixpoint parseValue (fuel : nat) (s : string) : option (Json * string) :=
  match fuel with
  | O => None
  | S fuel' =>
      match s with
      | EmptyString => None
      | String c rest =>
          if Ascii.eqb c (ascii_of_nat 34)
          then match readString rest with
               | Some (v, r) => Some (JLeaf v, r)
               | None => None
               end
          else if Ascii.eqb c "{"%char
          then match rest with
               | String c' r =>
                   if Ascii.eqb c' "}"%char then Some (JObject [], r)
                   else parseMembers fuel' rest []
               | EmptyString => None
               end
          else None
      end
  end
with parseMembers (fuel : nat) (s : string) (seen : list (string * Json))
  : option (Json * string) :=
  match fuel with
  | O => None
  | S fuel' =>
      match s with
      | String c rest =>
          if Ascii.eqb c (ascii_of_nat 34)
          then match readString rest with
               | Some (key, String colon r1) =>
                   if Ascii.eqb colon ":"%char
                   then match parseValue fuel' r1 with
                        | Some (v, String c2 r2) =>
                            if Ascii.eqb c2 ","%char
                            then parseMembers fuel' r2 (seen ++ [(key, v)])%list
                            else if Ascii.eqb c2 "}"%char
                            then Some (JObject (seen ++ [(key, v)])%list, r2)
                            else None
                        | _ => None
                        end
                   else None
               | _ => None
               end
          else None
      | EmptyString => None
      end
  end.

Definition parse (s : string) : Json :=
  match parseValue (S (String.length s)) s with
  | Some (t, _) => t
  | None => JObject []
  end.

Definition lowerChar (c : ascii) : ascii :=
  let n := nat_of_ascii c in
  if (65 <=? n)%nat && (n <=? 90)%nat then ascii_of_nat (n + 32) else c.

(** [toLowerCase] on ASCII text. *)
Fixpoint lower (s : string) : string :=
  match s with
  | EmptyString => EmptyString
  | String c rest => String (lowerChar c) (lower rest)
  end.

(** [NamingHelper.codeSafeVariableName] on names of one word of letters,
    where kebab case and camel case both give the word in lower case. *)
Definition codeSafeVariableName (name' : string) (case : StringCase) : string := lower name'.

(** [ThemeHelper.getThemeIdentifier]: the code-safe name of the theme. *)
Definition getThemeIdentifier (theme : TokenTheme) (case : StringCase) : string :=
  codeSafeVariableName (theme_name theme) case.

Definition overrideOf (theme : TokenTheme) (token : Token) : option Token :=
  find (fun o => token_id o =? token_id token) (overriddenTokens theme).

(** [ThemeHelper.filterThemedTokens]: the tokens the theme overrides. *)
Definition filterThemedTokens (tokens : list Token) (theme : TokenTheme) : list Token :=
  filter (fun token => match overrideOf theme token with Some _ => true | None => false end)
         tokens.

(** [sdk.tokens.computeTokensByApplyingThemes]: each token of the subset is
    replaced by its override, the themes applied in order. *)
Definition computeTokensByApplyingThemes (allTokens tokens : list Token)
    (themes : list TokenTheme) : list Token :=
  fold_left
    (fun current theme =>
       map (fun token => match overrideOf theme token with
                         | Some o => o
                         | None => token
                         end) current)
    themes tokens.

Definition digit (d : nat) : ascii :=
  if (d <? 10)%nat then ascii_of_nat (48 + d) else ascii_of_nat (87 + d).

Fixpoint digits (fuel n radix : nat) (acc : string) : string :=
  match fuel with
  | O => acc
  | S fuel' =>
      let acc' := String (digit (n mod radix)) acc in
      if (n / radix =? 0)%nat then acc' else digits fuel' (n / radix) radix acc'
  end.

(** [Number.prototype.toString(radix)] of a fraction, its digits given as a number. *)
Definition toString (r : RandomNumber) (radix : nat) : string :=
  "0." ++ digits 64 (N.to_nat r) radix "".

Definition allTokenTypes : list TokenType := ["Color"; "Typography"; "Dimension"].

Definition treeOf (tokens : list Token) : Json :=
  JObject (map (fun token => (token_name token, JLeaf (token_value token))) tokens).

(** Modelled from the spec: [processTokensToObject] of [files/style-file.ts],
    which is not among the sources.  The tree of the tokens, or the empty
    sentinel when there is no token. *)
Definition processTokensToObject (config : ExporterConfiguration) (tokens : list Token)
    (tokenGroups : list TokenGroup) (theme : option TokenTheme)
    (collections : list DesignSystemCollection) (allTokens : list Token) : option Json :=
  match tokens with
  | [] => None
  | _ => Some (treeOf tokens)
  end.

(** The tokens a document is built from: with [exportOnlyThemedTokens], a
    themed document keeps the tokens its theme overrides. *)
Definition documentTokens (config : ExporterConfiguration) (tokens : list Token)
    (themePath : string) (theme : option TokenTheme) : list Token :=
  match theme with
  | Some theme' =>
      if negb (themePath =? "") && exportOnlyThemedTokens config
      then filterThemedTokens tokens theme'
      else tokens
  | None => tokens
  end.

Definition document (config : ExporterConfiguration) (tokens : list Token)
    (themePath fileName : string) (theme : option TokenTheme) : option OutputFile :=
  match documentTokens config tokens themePath theme with
  | [] => None
  | kept =>
      Some (createTextFile (if themePath =? "" then "./" else "./" ++ themePath)
              fileName (stringify (treeOf kept)))
  end.

(** Modelled from the spec: [styleOutputFile] of [files/style-file.ts], which
    is not among the sources.  One document per token type, skipped when it
    would hold no token. *)
Definition styleOutputFile (config : ExporterConfiguration) (type : TokenType)
    (tokens : list Token) (tokenGroups : list TokenGroup) (themePath : string)
    (theme : option TokenTheme) (collections : list DesignSystemCollection)
    : option OutputFile :=
  document config (filter (fun token => tokenType token =? type) tokens)
    themePath (lower type ++ ".json") theme.

(** Modelled from the spec: [combinedStyleOutputFile] of [files/style-file.ts],
    which is not among the sources.  One document with all tokens. *)
Definition combinedStyleOutputFile (config : ExporterConfiguration)
    (tokens : list Token) (tokenGroups : list TokenGroup) (themePath : string)
    (theme : option TokenTheme) (collections : list DesignSystemCollection)
    : option OutputFile :=
  document config tokens themePath "tokens.json" theme.

(** Modelled from the spec: [combinedCollectionStyleOutputFile] of
    [files/style-file.ts], which is not among the sources.  One document with
    the tokens of the collection, named after the collection. *)
Definition combinedCollectionStyleOutputFile (config : ExporterConfiguration)
    (collection : DesignSystemCollection)
    (tokens : list Token) (tokenGroups : list TokenGroup) (themePath : string)
    (theme : option TokenTheme) (collections : list DesignSystemCollection)
    : option OutputFile :=
  document config
    (filter (fun token => sameId (token_collectionId token) (persistentId collection)) tokens)
    themePath (codeSafeVariableName (collection_name collection) kebabCase ++ ".json") theme.

End Sample.

Definition sampleImports : Imports :=
  {| Tree := Sample.Json;
     computeTokensByApplyingThemes := Sample.computeTokensByApplyingThemes;
     codeSafeVariableName := Sample.codeSafeVariableName;
     getThemeIdentifier := Sample.getThemeIdentifier;
     filterThemedTokens := Sample.filterThemedTokens;
     toLowerCase := Sample.lower;
     toString := Sample.toString;
     allTokenTypes := Sample.allTokenTypes;
     JSON_parse := Sample.parse;
     JSON_stringify := fun t _ => Sample.stringify t;
     deepMerge := Sample.deepMerge;
     processTokensToObject := Sample.processTokensToObject;
     styleOutputFile := Sample.styleOutputFile;
     combinedStyleOutputFile := Sample.combinedStyleOutputFile;
     combinedCollectionStyleOutputFile := Sample.combinedCollectionStyleOutputFile |}.

(** ** Sample design systems *)

Definition sampleConfiguration (style : ThemeExportStyle) (structure : FileStructure)
    (baseValues onlyThemed : bool) : ExporterConfiguration :=
  {| exportThemesAs := style;
     fileStructure := structure;
     exportBaseValues := baseValues;
     exportOnlyThemedTokens := onlyThemed;
     indent := IndentWidth 2 |}.

Definition sampleWorld (config : ExporterConfiguration) : World :=
  {| exportConfiguration := config;
     randomSource := fun n => N.of_nat (n + 7) |}.

Definition noThemes : PulsarContext := {| brandId := None; themeIds := None |}.

Definition withThemes (ids : list string) : PulsarContext :=
  {| brandId := None; themeIds := Some ids |}.

(** A collection "Global" with one colour token, and a theme that overrides it. *)
Definition globalCollection : DesignSystemCollection :=
  {| persistentId := "c-global"; collection_name := "Global" |}.

Definition colorGroup : TokenGroup :=
  {| group_id := "g-color"; group_name := "Color"; group_parentGroupId := None;
     group_brandId := "b1" |}.

Definition whiteToken : Token :=
  {| token_id := "t-white"; token_name := "white"; tokenType := "Color";
     token_value := "#ffffff"; token_parentGroupId := Some "g-color";
     token_collectionId := Some "c-global"; token_brandId := "b1" |}.

Definition factorTheme : TokenTheme :=
  {| theme_id := "th-factor"; theme_idInVersion := "v-factor"; theme_name := "Factor";
     overriddenTokens :=
       [ {| token_id := "t-white"; token_name := "white"; tokenType := "Color";
            token_value := "#fffff0"; token_parentGroupId := Some "g-color";
            token_collectionId := Some "c-global"; token_brandId := "b1" |} ] |}.

(** A collection "Components" with one "Button" group, and a theme that
    overrides nothing. *)
Definition componentsCollection : DesignSystemCollection :=
  {| persistentId := "c-components"; collection_name := "Components" |}.

Definition buttonGroup : TokenGroup :=
  {| group_id := "g-button"; group_name := "Button"; group_parentGroupId := None;
     group_brandId := "b1" |}.

Definition buttonToken : Token :=
  {| token_id := "t-button-bg"; token_name := "background"; tokenType := "Color";
     token_value := "#0000ff"; token_parentGroupId := Some "g-button";
     token_collectionId := Some "c-components"; token_brandId := "b1" |}.

Definition zestTheme : TokenTheme :=
  {| theme_id := "th-zest"; theme_idInVersion := "v-zest"; theme_name := "Zest";
     overriddenTokens := [] |}.

(** "Components" with a "Button" group under "Light" and another under "Dark". *)
Definition lightGroup : TokenGroup :=
  {| group_id := "g-light"; group_name := "Light"; group_parentGroupId := None;
     group_brandId := "b1" |}.

Definition darkGroup : TokenGroup :=
  {| group_id := "g-dark"; group_name := "Dark"; group_parentGroupId := None;
     group_brandId := "b1" |}.

Definition lightButtonGroup : TokenGroup :=
  {| group_id := "g-light-button"; group_name := "Button";
     group_parentGroupId := Some "g-light"; group_brandId := "b1" |}.

Definition darkButtonGroup : TokenGroup :=
  {| group_id := "g-dark-button"; group_name := "Button";
     group_parentGroupId := Some "g-dark"; group_brandId := "b1" |}.

Definition lightButtonToken : Token :=
  {| token_id := "t-light-bg"; token_name := "background"; tokenType := "Color";
     token_value := "#ffffff"; token_parentGroupId := Some "g-light-button";
     token_collectionId := Some "c-components"; token_brandId := "b1" |}.

Definition darkButtonToken : Token :=
  {| token_id := "t-dark-bg"; token_name := "background"; tokenType := "Color";
     token_value := "#000000"; token_parentGroupId := Some "g-dark-button";
     token_collectionId := Some "c-components"; token_brandId := "b1" |}.

Definition twoButtonGroups : list TokenGroup :=
  [lightGroup; darkGroup; lightButtonGroup; darkButtonGroup].

(** Two groups that name each other as parent. *)
Definition cyclicGroups : list TokenGroup :=
  [ {| group_id := "g-a"; group_name := "Light"; group_parentGroupId := Some "g-b";
       group_brandId := "b1" |};
    {| group_id := "g-b"; group_name := "Dark"; group_parentGroupId := Some "g-a";
       group_brandId := "b1" |} ].

(** A token of "Components" whose parent group is on that cycle. *)
Definition cyclicToken : Token :=
  {| token_id := "t-cyclic"; token_name := "background"; tokenType := "Color";
     token_value := "#00ff00"; token_parentGroupId := Some "g-a";
     token_collectionId := Some "c-components"; token_brandId := "b1" |}.

(** A collection file function that writes, into each themed document, the
    [exportBaseValues] it finds on the shared configuration, and writes no
    base document. *)
Definition probeCollectionFile (config : ExporterConfiguration)
    (collection : DesignSystemCollection)
    (tokens : list Token) (tokenGroups : list TokenGroup) (themePath : string)
    (theme : option TokenTheme) (collections : list DesignSystemCollection)
    : option OutputFile :=
  match theme with
  | None => None
  | Some theme' =>
      Some (createTextFile "./" (theme_name theme' ++ ".json")
              (if exportBaseValues config
               then "exportBaseValues: true"
               else "exportBaseValues: false"))
  end.

(** A view that hands every themed call the configuration with
    [exportBaseValues] off, whatever the shared configuration holds when the
    call is made, and every un-themed call the shared configuration. *)
Definition sampleView (theme : option TokenTheme) (config : ExporterConfiguration)
  : ExporterConfiguration :=
  match theme with
  | Some _ => suppressBaseValues config
  | None => config
  end.

(** A brand that is asked for by its id in the version. *)
Definition sampleBrand : Brand := {| brand_id := "b1"; brand_idInVersion := "v-b1" |}.

Definition forBrand (id : string) : PulsarContext :=
  {| brandId := Some id; themeIds := None |}.

(** Three files, the first and the last for the same path and name. *)
Definition firstFile : OutputFile := createTextFile "./components" "button.json" "first".
Definition secondFile : OutputFile := createTextFile "./brand" "zest.json" "second".
Definition thirdFile : OutputFile := createTextFile "./components" "button.json" "third".

(** Two documents as the file functions write them. *)
Definition whiteDocument : OutputFile :=
  createTextFile "./" "global.json" (Sample.stringify (Sample.treeOf [whiteToken])).
Definition buttonDocument : OutputFile :=
  createTextFile "./" "components.json" (Sample.stringify (Sample.treeOf [buttonToken])).

(** A world whose [Math.random] always returns zero. *)
Definition zeroWorld (config : ExporterConfiguration) : World :=
  {| exportConfiguration := config; randomSource := fun _ => 0%N |}.

(** * Properties *)

(** ** The ancestor loop *)

Section AncestorLoop.

Context {I : Imports}.


Lemma truthy_Some id : truthy (Some id) = negb (id =? "").
Proof. reflexivity. Qed.

Lemma traverse_step n tokenGroups d current :
  traverse (S n) tokenGroups d current =
  match current with
  | None => Some d
  | Some id =>
      if id =? "" then Some d
      else match findGroup tokenGroups id with
           | None => Some d
           | Some group =>
               if isKnownComponent group then Some id
               else traverse n tokenGroups d (group_parentGroupId group)
           end
  end.
Proof. reflexivity. Qed.

Lemma traverse_climbs n : forall tokenGroups d current r,
  traverse n tokenGroups d current = Some r ->
  exists passed, climbs tokenGroups d current passed r /\ List.length passed < n.
Proof.
  induction n as [|n IH]; intros tokenGroups d current r H.
  - discriminate.
  - rewrite traverse_step in H. destruct current as [id|].
    + destruct (id =? "") eqn:Eid.
      * inversion H; subst. exists []. split; [|simpl; lia].
        apply climbs_exit. rewrite truthy_Some. now rewrite Eid.
      * assert (Ht : truthy (Some id) = true) by (rewrite truthy_Some; now rewrite Eid).
        destruct (findGroup tokenGroups id) as [group|] eqn:Eg.
        -- destruct (isKnownComponent group) eqn:Ek.
           ++ inversion H; subst. exists []. split; [|simpl; lia].
              eapply climbs_found; eauto.
           ++ apply IH in H. destruct H as [passed [Hc Hl]].
              exists (id :: passed). split; [|simpl; lia].
              eapply climbs_up; eauto.
        -- inversion H; subst. exists []. split; [|simpl; lia].
           now apply climbs_missing.
    + inversion H; subst. exists []. split; [|simpl; lia].
      now apply climbs_exit.
Qed.

Lemma climbs_traverse tokenGroups d current passed r :
  climbs tokenGroups d current passed r ->
  forall n, List.length passed < n -> traverse n tokenGroups d current = Some r.
Proof.
  induction 1 as [current Ht | id Ht Hg | id group Ht Hg Hk | id group passed r Ht Hg Hk Hc IH];
    intros n Hn; (destruct n as [|n]; [simpl in Hn; lia|]); rewrite traverse_step.
  - destruct current as [id|]; [|reflexivity].
    rewrite truthy_Some in Ht. destruct (id =? ""); [reflexivity|discriminate].
  - rewrite truthy_Some in Ht. destruct (id =? ""); [discriminate|]. now rewrite Hg.
  - rewrite truthy_Some in Ht. destruct (id =? ""); [discriminate|]. rewrite Hg.
    now rewrite Hk.
  - rewrite truthy_Some in Ht. destruct (id =? ""); [discriminate|]. rewrite Hg.
    rewrite Hk. apply IH. simpl in Hn. lia.
Qed.

Lemma climbs_functional tokenGroups d current p1 r1 :
  climbs tokenGroups d current p1 r1 ->
  forall p2 r2, climbs tokenGroups d current p2 r2 -> p1 = p2 /\ r1 = r2.
Proof.
  induction 1 as [current Ht | id Ht Hg | id group Ht Hg Hk | id group passed r Ht Hg Hk Hc IH];
    intros p2 r2 H2; inversion H2; subst; try congruence; auto.
  - match goal with
    | Hg' : findGroup _ _ = Some ?g, Hc' : climbs _ _ (group_parentGroupId ?g) _ _ |- _ =>
        assert (g = group) by congruence; subst g;
        destruct (IH _ _ Hc') as [-> ->]; auto
    end.
Qed.

Lemma climbs_resume tokenGroups d current passed r :
  climbs tokenGroups d current passed r ->
  forall x, In x passed ->
  exists passed', climbs tokenGroups d (Some x) passed' r /\
                  List.length passed' <= List.length passed.
Proof.
  induction 1 as [current Ht | id Ht Hg | id group Ht Hg Hk | id group passed r Ht Hg Hk Hc IH];
    intros x Hx; try contradiction.
  destruct Hx as [<- | Hx].
  - exists (id :: passed). split; [eapply climbs_up; eauto | lia].
  - destruct (IH _ Hx) as [passed' [Hc' Hl]].
    exists passed'. split; [assumption | simpl; lia].
Qed.

Lemma climbs_NoDup tokenGroups d current passed r :
  climbs tokenGroups d current passed r -> NoDup passed.
Proof.
  induction 1 as [current Ht | id Ht Hg | id group Ht Hg Hk | id group passed r Ht Hg Hk Hc IH];
    try constructor; auto.
  intro Hin.
  destruct (climbs_resume Hc _ Hin) as [passed' [Hc' Hl]].
  assert (Hup : climbs tokenGroups d (Some id) (id :: passed) r)
    by (eapply climbs_up; eauto).
  destruct (climbs_functional Hup Hc') as [<- _]. simpl in Hl. lia.
Qed.

Lemma findGroup_id tokenGroups id group :
  findGroup tokenGroups id = Some group -> In group tokenGroups /\ group_id group = id.
Proof.
  intro H. apply find_some in H. destruct H as [Hin He].
  split; [assumption | now apply String.eqb_eq].
Qed.

Lemma climbs_ids tokenGroups d current passed r :
  climbs tokenGroups d current passed r ->
  incl passed (map group_id tokenGroups).
Proof.
  induction 1 as [current Ht | id Ht Hg | id group Ht Hg Hk | id group passed r Ht Hg Hk Hc IH];
    try (intros y Hy; now inversion Hy).
  intros y [<- | Hy]; [|now apply IH].
  destruct (findGroup_id _ _ Hg) as [Hin <-]. now apply in_map.
Qed.

Lemma climbs_short tokenGroups d current passed r :
  climbs tokenGroups d current passed r ->
  List.length passed <= List.length tokenGroups.
Proof.
  intro H. rewrite <- (length_map group_id tokenGroups).
  apply NoDup_incl_length; [eapply climbs_NoDup | eapply climbs_ids]; eassumption.
Qed.

(** A loop that exits at all exits within one test per group and one more. *)
Lemma traverse_fuel_enough n tokenGroups d current r :
  traverse n tokenGroups d current = Some r ->
  traverse (S (List.length tokenGroups)) tokenGroups d current = Some r.
Proof.
  intro H. destruct (traverse_climbs _ _ _ _ H) as [passed [Hc _]].
  eapply climbs_traverse; [eassumption|].
  pose proof (climbs_short Hc). lia.
Qed.

(** [findComponentGroup] answers [None] exactly when the loop never exits. *)
Lemma findComponentGroup_None tokenGroups parent :
  findComponentGroup tokenGroups parent = None <->
  forall n, traverse n tokenGroups parent (Some parent) = None.
Proof.
  unfold findComponentGroup. split.
  - intros H n. destruct (traverse n tokenGroups parent (Some parent)) eqn:E; [|reflexivity].
    apply traverse_fuel_enough in E. congruence.
  - intro H. apply H.
Qed.

Lemma ancestors_climbs tokenGroups current chain :
  ancestors tokenGroups current chain ->
  forall d, exists passed,
    climbs tokenGroups d current passed
      (match find isKnownComponent chain with
       | Some group => group_id group
       | None => d
       end) /\ List.length passed <= List.length chain.
Proof.
  induction 1 as [current Ht | id Ht Hg | id group chain Ht Hg Hc IH]; intro d.
  - exists []. split; [now apply climbs_exit | simpl; lia].
  - exists []. split; [now apply climbs_missing | simpl; lia].
  - simpl. destruct (isKnownComponent group) eqn:Ek.
    + exists []. split; [|simpl; lia].
      destruct (findGroup_id _ _ Hg) as [_ ->].
      eapply climbs_found; eauto.
    + destruct (IH d) as [passed [Hp Hl]].
      exists (id :: passed). split; [eapply climbs_up; eauto | simpl; lia].
Qed.

Lemma Map_has_nil {V} (k : string) : Map_has (@nil (string * V)) k = false.
Proof. reflexivity. Qed.

(** C6: for a token with an immediate parent group whose parent chain is
    the finite chain of the data model, the component group is the id of the
    first group of the chain, the immediate parent included, whose lower-cased
    name is a known component name, and the id of the immediate parent when
    no group of the chain has such a name; the token is filed under that id. *)
Theorem component_group_is_nearest_known_ancestor
    (tokenGroups : list TokenGroup) (token : Token) (parent : string)
    (chain : list TokenGroup) :
  token_parentGroupId token = Some parent ->
  truthy (Some parent) = true ->
  ancestors tokenGroups (Some parent) chain ->
  let resolved :=
    match find isKnownComponent chain with
    | Some group => group_id group
    | None => parent
    end in
  findComponentGroup tokenGroups parent = Some resolved /\
  groupByComponent tokenGroups [token] [] = Some [(resolved, [token])].
Proof.
  intros Hp Ht Ha resolved.
  assert (Hf : findComponentGroup tokenGroups parent = Some resolved).
  { destruct (ancestors_climbs Ha parent) as [passed [Hc _]].
    unfold findComponentGroup. eapply climbs_traverse; [exact Hc|].
    pose proof (climbs_short Hc). lia. }
  split; [exact Hf|].
  cbn [groupByComponent]. rewrite Hp.
  rewrite truthy_Some in Ht. destruct (parent =? ""); [discriminate|].
  rewrite Hf. rewrite Map_has_nil. cbn [negb].
  unfold Map_set, Map_push. rewrite Map_has_nil. cbn [app map fst snd].
  now rewrite String.eqb_refl.
Qed.

Lemma Map_has_keys {V} (m : JsMap V) (k : string) :
  Map_has m k = includes (map fst m) k.
Proof.
  unfold Map_has, includes. induction m as [|e m IH]; cbn; [reflexivity | now rewrite IH].
Qed.

Lemma Map_push_keys {V} (m : JsMap (list V)) (k : string) (x : V) :
  map fst (Map_push m k x) = map fst m.
Proof.
  unfold Map_push. rewrite map_map. apply map_ext. intro e. now destruct (fst e =? k).
Qed.

(** The [Map] of component groups lists its keys in the order in which the
    tokens first reach them. *)
Lemma groupByComponent_order tokenGroups tokens : forall m m',
  groupByComponent tokenGroups tokens m = Some m' ->
  map fst m' = firstOccurrences (map fst m) (componentGroupsOf tokenGroups tokens).
Proof.
  induction tokens as [|token tokens IH]; intros m m' H; cbn [groupByComponent] in H.
  - now inversion H.
  - unfold componentGroupsOf, firstOccurrences in *. cbn [flat_map].
    destruct (token_parentGroupId token) as [parent|]; [|now apply IH].
    destruct (parent =? ""); [now apply IH|].
    destruct (findComponentGroup tokenGroups parent) as [k|]; [|discriminate].
    apply IH in H. rewrite H. rewrite fold_left_app. cbn [fold_left].
    rewrite Map_push_keys, Map_has_keys.
    destruct (includes (map fst m) k) eqn:E; cbn [negb]; [reflexivity|].
    unfold Map_set. rewrite Map_has_keys, E. now rewrite map_app.
Qed.

(** C7, as the code has it: the loop carries no bound on its hops.  It exits
    whenever the parent chain is finite, then within one test of the loop
    condition per group of the chain and one more, which is at most one per
    group of the list and one more. *)
Theorem walk_exits_on_finite_chain
    (tokenGroups : list TokenGroup) (componentGroupId : string)
    (current : option string) (chain : list TokenGroup) :
  ancestors tokenGroups current chain ->
  exists r,
    (forall n, List.length chain < n ->
       traverse n tokenGroups componentGroupId current = Some r) /\
    traverse (S (List.length tokenGroups)) tokenGroups componentGroupId current = Some r.
Proof.
  intro Ha. destruct (ancestors_climbs Ha componentGroupId) as [passed [Hc Hl]].
  eexists. split.
  - intros n Hn. eapply climbs_traverse; [exact Hc | lia].
  - eapply climbs_traverse; [exact Hc|]. pose proof (climbs_short Hc). lia.
Qed.

End AncestorLoop.

Lemma component_group_is_nearest_known_ancestor_witness :
  findComponentGroup (I := sampleImports) twoButtonGroups "g-light-button"
    = Some "g-light-button" /\
  groupByComponent (I := sampleImports) twoButtonGroups [lightButtonToken] []
    = Some [("g-light-button", [lightButtonToken])].
Proof.
  apply (@component_group_is_nearest_known_ancestor sampleImports twoButtonGroups
           lightButtonToken "g-light-button" [lightButtonGroup; lightGroup]).
  - reflexivity.
  - reflexivity.
  - apply ancestors_parent; [reflexivity | reflexivity |].
    apply ancestors_parent; [reflexivity | reflexivity |].
    apply ancestors_root. reflexivity.
Defined.

Lemma walk_exits_on_finite_chain_witness :
  exists r,
    (forall n, 2 < n ->
       traverse (I := sampleImports) n twoButtonGroups "g-dark-button"
         (Some "g-dark-button") = Some r) /\
    traverse (I := sampleImports) 5 twoButtonGroups "g-dark-button"
      (Some "g-dark-button") = Some r.
Proof.
  apply (@walk_exits_on_finite_chain sampleImports twoButtonGroups "g-dark-button"
           (Some "g-dark-button") [darkButtonGroup; darkGroup]).
  apply ancestors_parent; [reflexivity | reflexivity |].
  apply ancestors_parent; [reflexivity | reflexivity |].
  apply ancestors_root. reflexivity.
Defined.

Lemma cyclic_walk_out_of_fuel n :
  traverse (I := sampleImports) n cyclicGroups "g-a" (Some "g-a") = None /\
  traverse (I := sampleImports) n cyclicGroups "g-a" (Some "g-b") = None.
Proof.
  induction n as [|n [IHa IHb]]; [split; reflexivity|].
  split; rewrite traverse_step.
  - exact IHb.
  - exact IHa.
Qed.

(** C7 fails on a parent chain with a cycle: no number of loop tests makes
    the walk from a group of the cycle exit, and the export of a token under
    such a group never returns. *)
Lemma walk_never_exits_on_cycle :
  (~ exists n r, traverse (I := sampleImports) n cyclicGroups "g-a" (Some "g-a") = Some r) /\
  result (export (I := sampleImports) [cyclicToken] cyclicGroups [componentsCollection] []
            [] noThemes
            (sampleWorld (sampleConfiguration SeparateFiles SeparateByCollection true false)))
  = Diverged.
Proof.
  split; [|reflexivity].
  intros [n [r H]]. destruct (cyclic_walk_out_of_fuel n) as [Ha _]. congruence.
Qed.


(** ** Runs of computations *)

Section Runs.

Lemma result_Returned {A} (o : Outcome (A * World)) (a : A) :
  result o = Returned a -> exists w', o = Returned (a, w').
Proof.
  destruct o as [[a' w']| |]; simpl; intro H; inversion H. now exists w'.
Qed.

Lemma runs_ret {A} (a : A) c : runs (ret a) c c (Returned a).
Proof. intros w Hw. split; [reflexivity|]. intros _ _. simpl. now rewrite Hw. Qed.

Lemma runs_throw {A} e c c' : runs (@throw A e) c c' (Thrown e).
Proof. intros w Hw. split; [reflexivity|]. intros a H. discriminate. Qed.

Lemma runs_diverge {A} c c' : runs (@diverge A) c c' Diverged.
Proof. intros w Hw. split; [reflexivity|]. intros a H. discriminate. Qed.

Lemma runs_getConfiguration c : runs getConfiguration c c (Returned c).
Proof.
  intros w Hw. unfold getConfiguration. simpl. rewrite Hw. split; [reflexivity|].
  intros _ _. reflexivity.
Qed.

Lemma runs_bind {A B} (m : M A) (k : A -> M B) c c1 c2 a o :
  runs m c c1 (Returned a) -> runs (k a) c1 c2 o -> runs (bind m k) c c2 o.
Proof.
  intros Hm Hk w Hw. destruct (Hm w Hw) as [Hr Hf].
  specialize (Hf a eq_refl). unfold bind.
  destruct (m w) as [[a' w']| |]; simpl in Hr, Hf; inversion Hr; inversion Hf; subst.
  now apply Hk.
Qed.

Lemma runs_bind_Thrown {A B} (m : M A) (k : A -> M B) c c1 c2 e :
  runs m c c1 (Thrown e) -> runs (bind m k) c c2 (Thrown e).
Proof.
  intros Hm w Hw. destruct (Hm w Hw) as [Hr _]. unfold bind.
  destruct (m w) as [[a' w']| |]; simpl in Hr; inversion Hr; subst.
  split; [reflexivity|]. intros a H. discriminate.
Qed.

Lemma runs_bind_Diverged {A B} (m : M A) (k : A -> M B) c c1 c2 :
  runs m c c1 Diverged -> runs (bind m k) c c2 Diverged.
Proof.
  intros Hm w Hw. destruct (Hm w Hw) as [Hr _]. unfold bind.
  destruct (m w) as [[a' w']| |]; simpl in Hr; inversion Hr; subst.
  split; [reflexivity|]. intros a H. discriminate.
Qed.

Lemma runs_calling {A} (f : ExporterConfiguration -> A) c :
  runs (calling f) c c (Returned (f c)).
Proof.
  unfold calling. eapply runs_bind; [apply runs_getConfiguration | apply runs_ret].
Qed.

Lemma runs_setExportBaseValues c b :
  runs (setExportBaseValues b) c
    {| exportThemesAs := exportThemesAs c;
       fileStructure := fileStructure c;
       exportBaseValues := b;
       exportOnlyThemedTokens := exportOnlyThemedTokens c;
       indent := indent c |}
    (Returned tt).
Proof.
  intros w Hw. unfold setExportBaseValues. simpl. rewrite Hw.
  split; [reflexivity|]. intros _ _. reflexivity.
Qed.

(** The themed call sees the configuration with [exportBaseValues] off, and
    the configuration is back to what it was when the call is over. *)
Lemma runs_withoutBaseValues {A} (f : ExporterConfiguration -> A) c :
  runs (withoutBaseValues f) c c (Returned (f (suppressBaseValues c))).
Proof.
  unfold withoutBaseValues.
  eapply runs_bind; [apply runs_getConfiguration|].
  eapply runs_bind; [apply runs_setExportBaseValues|].
  eapply runs_bind; [apply runs_calling|].
  eapply runs_bind; [apply runs_setExportBaseValues|].
  destruct c; apply runs_ret.
Qed.

Lemma settled_intro {A} (m : M A) c o :
  runs m c c o -> (forall e, o <> Thrown e) -> settled m c.
Proof. intros H Hn. exists o. now split. Qed.

Lemma settled_ret {A} (a : A) c : settled (ret a) c.
Proof. eapply settled_intro; [apply runs_ret | discriminate]. Qed.

Lemma settled_diverge {A} c : settled (@diverge A) c.
Proof. eapply settled_intro; [apply runs_diverge | discriminate]. Qed.

Lemma settled_calling {A} (f : ExporterConfiguration -> A) c : settled (calling f) c.
Proof. eapply settled_intro; [apply runs_calling | discriminate]. Qed.

Lemma settled_withoutBaseValues {A} (f : ExporterConfiguration -> A) c :
  settled (withoutBaseValues f) c.
Proof. eapply settled_intro; [apply runs_withoutBaseValues | discriminate]. Qed.

Lemma settled_bind {A B} (m : M A) (k : A -> M B) c :
  settled m c -> (forall a, settled (k a) c) -> settled (bind m k) c.
Proof.
  intros [o [Hm Hn]] Hk. destruct o as [a|e|].
  - destruct (Hk a) as [o' [Hk' Hn']].
    exists o'. split; [eapply runs_bind; eassumption | assumption].
  - exfalso. now apply (Hn e).
  - exists Diverged. split; [eapply runs_bind_Diverged; eassumption | discriminate].
Qed.

Lemma settled_getConfiguration {B} (k : ExporterConfiguration -> M B) c :
  settled (k c) c -> settled (bind getConfiguration k) c.
Proof.
  intros [o [Hk Hn]]. exists o. split; [|assumption].
  eapply runs_bind; [apply runs_getConfiguration | assumption].
Qed.

Lemma settled_mapM {A B} (f : A -> M B) (l : list A) c :
  (forall x, settled (f x) c) -> settled (mapM f l) c.
Proof.
  intro Hf. induction l as [|x l IH]; simpl.
  - apply settled_ret.
  - apply settled_bind; [apply Hf|]. intro y.
    apply settled_bind; [apply IH|]. intro ys. apply settled_ret.
Qed.

Lemma settled_flatMapM {A B} (f : A -> M (list B)) (l : list A) c :
  (forall x, settled (f x) c) -> settled (flatMapM f l) c.
Proof.
  intro Hf. unfold flatMapM. apply settled_bind; [now apply settled_mapM|].
  intro ls. apply settled_ret.
Qed.

Lemma settled_keeps {A} (m : M A) c :
  settled m c ->
  forall w a w', exportConfiguration w = c -> m w = Returned (a, w') ->
                 exportConfiguration w' = c.
Proof.
  intros [o [Hm _]] w a w' Hw E. destruct (Hm w Hw) as [Hr Hf].
  rewrite E in Hr, Hf. simpl in Hr, Hf. specialize (Hf a (eq_sym Hr)).
  now inversion Hf.
Qed.

Lemma settled_result {A} (m : M A) c :
  settled m c ->
  forall w1 w2, exportConfiguration w1 = c -> exportConfiguration w2 = c ->
                result (m w1) = result (m w2).
Proof.
  intros [o [Hm _]] w1 w2 H1 H2.
  destruct (Hm w1 H1) as [-> _]. destruct (Hm w2 H2) as [-> _]. reflexivity.
Qed.

Lemma settled_never_throws {A} (m : M A) c :
  settled m c -> forall w e, exportConfiguration w = c -> m w <> Thrown e.
Proof.
  intros [o [Hm Hn]] w e Hw E. destruct (Hm w Hw) as [Hr _].
  rewrite E in Hr. simpl in Hr. subst o. now apply (Hn e).
Qed.

Lemma agree_refl {A} c (m : M A) : agree c m m.
Proof. intros w _. reflexivity. Qed.

Lemma agree_bind {A B} c (m1 m2 : M A) (k1 k2 : A -> M B) :
  agree c m1 m2 -> settled m1 c -> (forall a, agree c (k1 a) (k2 a)) ->
  agree c (bind m1 k1) (bind m2 k2).
Proof.
  intros Hm Hs Hk w Hw. unfold bind. rewrite <- (Hm w Hw).
  destruct (m1 w) as [[a w']| |] eqn:E; try reflexivity.
  apply Hk. eapply settled_keeps; eassumption.
Qed.

Lemma agree_bind_runs {A B} c (m1 m2 : M A) (k1 k2 : A -> M B) o :
  agree c m1 m2 -> runs m1 c c o -> (forall a, agree c (k1 a) (k2 a)) ->
  agree c (bind m1 k1) (bind m2 k2).
Proof.
  intros Hm Hr Hk w Hw. unfold bind. rewrite <- (Hm w Hw).
  destruct (Hr w Hw) as [Hres Hf].
  destruct (m1 w) as [[a w']| |] eqn:E; try reflexivity.
  apply Hk. simpl in Hres. specialize (Hf a (eq_sym Hres)). simpl in Hf. now inversion Hf.
Qed.

Lemma agree_getConfiguration {B} c (k1 k2 : ExporterConfiguration -> M B) :
  agree c (k1 c) (k2 c) -> agree c (bind getConfiguration k1) (bind getConfiguration k2).
Proof.
  intros Hk w Hw. unfold bind, getConfiguration. rewrite Hw. now apply Hk.
Qed.

Lemma agree_mapM {A B} c (f1 f2 : A -> M B) (l : list A) :
  (forall x, In x l -> agree c (f1 x) (f2 x)) -> (forall x, settled (f1 x) c) ->
  agree c (mapM f1 l) (mapM f2 l).
Proof.
  intros Hf Hs. induction l as [|x l IH]; simpl.
  - apply agree_refl.
  - apply agree_bind; [apply Hf; now left | apply Hs |]. intro y.
    apply agree_bind; [apply IH; intros; apply Hf; now right | now apply settled_mapM |].
    intro ys. apply agree_refl.
Qed.

Lemma agree_flatMapM {A B} c (f1 f2 : A -> M (list B)) (l : list A) :
  (forall x, In x l -> agree c (f1 x) (f2 x)) -> (forall x, settled (f1 x) c) ->
  agree c (flatMapM f1 l) (flatMapM f2 l).
Proof.
  intros Hf Hs. unfold flatMapM.
  apply agree_bind; [now apply agree_mapM | now apply settled_mapM |].
  intro ls. apply agree_refl.
Qed.

Lemma agree_calling {A} c (f1 f2 : ExporterConfiguration -> A) :
  f1 c = f2 c -> agree c (calling f1) (calling f2).
Proof.
  intros H w Hw. unfold calling, bind, getConfiguration, ret. rewrite Hw. now rewrite H.
Qed.

Lemma agree_withoutBaseValues {A} c (f1 f2 : ExporterConfiguration -> A) :
  f1 (suppressBaseValues c) = f2 (suppressBaseValues c) ->
  agree c (withoutBaseValues f1) (withoutBaseValues f2).
Proof.
  intros H w Hw.
  unfold withoutBaseValues, calling, bind, getConfiguration, setExportBaseValues, ret.
  simpl. rewrite Hw. unfold suppressBaseValues in H. now rewrite H.
Qed.

End Runs.

(** ** The composer runs on the configuration alone *)

Section Composer.

Context {I : Imports}.

Lemma runs_componentGroupStyleOutputFiles collection tokens tokenGroups themePath theme
    collections c :
  runs (componentGroupStyleOutputFiles collection tokens tokenGroups themePath theme collections)
    c c
    (match componentGroupFiles c collection tokens tokenGroups themePath theme collections with
     | Some files => Returned files
     | None => Diverged
     end).
Proof.
  intros w Hw. subst c.
  unfold componentGroupStyleOutputFiles, bind, Math_random, getConfiguration.
  cbn [exportConfiguration].
  destruct (componentGroupFiles (exportConfiguration w) collection tokens tokenGroups
              themePath theme collections);
    (split; [reflexivity|]); intros a H; inversion H; subst.
  reflexivity.
Qed.

Lemma settled_componentGroupStyleOutputFiles collection tokens tokenGroups themePath theme
    collections c :
  settled (componentGroupStyleOutputFiles collection tokens tokenGroups themePath theme
             collections) c.
Proof.
  eapply settled_intro; [apply runs_componentGroupStyleOutputFiles|].
  destruct (componentGroupFiles _ _ _ _ _ _ _); discriminate.
Qed.

Ltac settle :=
  repeat first
    [ apply settled_ret
    | apply settled_diverge
    | apply settled_calling
    | apply settled_withoutBaseValues
    | apply settled_componentGroupStyleOutputFiles
    | apply settled_getConfiguration
    | apply settled_mapM; intro
    | apply settled_flatMapM; intro
    | apply settled_bind; [|intro]
    | match goal with
      | |- settled (if ?b then _ else _) _ => destruct b
      | |- settled (match ?x with _ => _ end) _ => destruct x
      end ].

Lemma settled_mergeAll files c : settled (mergeAll files) c.
Proof. unfold mergeAll. settle. Qed.

Section SettledBranches.

Variables (tokens : list Token) (tokenGroups : list TokenGroup)
          (tokenCollections : list DesignSystemCollection)
          (themesToApply : list TokenTheme) (c : ExporterConfiguration).

Lemma settled_nestedCollectionFile collection :
  settled (nestedCollectionFile tokens tokenGroups tokenCollections themesToApply collection) c.
Proof. unfold nestedCollectionFile, mergeAll. settle. Qed.

Lemma settled_nestedTypeFile type :
  settled (nestedTypeFile tokens tokenGroups tokenCollections themesToApply type) c.
Proof. unfold nestedTypeFile, mergeAll. settle. Qed.

Lemma settled_collectionThemeFiles config theme themedTokens themeName collection :
  settled (collectionThemeFiles tokens tokenGroups tokenCollections config theme themedTokens
             themeName collection) c.
Proof. unfold collectionThemeFiles. settle. Qed.

Lemma settled_separateFilesByCollection :
  settled (separateFilesByCollection tokens tokenGroups tokenCollections themesToApply) c.
Proof.
  unfold separateFilesByCollection, componentThemeFiles.
  apply settled_getConfiguration.
  apply settled_bind.
  - apply settled_flatMapM. intro theme.
    apply settled_bind; [|intro; apply settled_ret].
    apply settled_flatMapM. intro collection. apply settled_collectionThemeFiles.
  - intro themeFiles. settle.
Qed.

Lemma settled_collectionFiles :
  settled (collectionFiles tokens tokenGroups tokenCollections) c.
Proof. unfold collectionFiles. settle. Qed.

Lemma settled_defaultFiles :
  settled (defaultFiles tokens tokenGroups tokenCollections) c.
Proof. unfold defaultFiles. settle. Qed.

Lemma settled_withoutThemeFiles context :
  settled (withoutThemeFiles context tokens tokenGroups tokenCollections) c.
Proof.
  unfold withoutThemeFiles. apply settled_getConfiguration.
  destruct (fileStructure c); try apply settled_defaultFiles.
  destruct (negb (themesRequested context));
    [apply settled_collectionFiles | apply settled_defaultFiles].
Qed.

End SettledBranches.

Lemma settled_exportThemes context tokens tokenGroups tokenCollections themesToApply c :
  settled (exportThemes context tokens tokenGroups tokenCollections themesToApply) c.
Proof.
  unfold exportThemes. apply settled_getConfiguration.
  destruct (exportThemesAs c); destruct (fileStructure c);
    try apply settled_withoutThemeFiles;
    try apply settled_separateFilesByCollection;
    try (unfold nestedThemesByCollection, nestedThemesByType;
         apply settled_bind; [apply settled_mapM; intro;
                              first [apply settled_nestedCollectionFile
                                    | apply settled_nestedTypeFile]
                             | intro; apply settled_ret]);
    unfold nestedThemesSingleFile, separateFilesSingleFile, separateFilesByType,
      mergedThemeSingleFile, mergedThemeByCollection, mergedThemeByType, mergeAll;
    settle.
Qed.

(** *** Looking up the requested brand and themes *)

Lemma findBrand_None brands id :
  findBrand brands id = None <->
  forall brand, In brand brands -> brand_id brand <> id /\ brand_idInVersion brand <> id.
Proof.
  unfold findBrand. split.
  - intros H brand Hin. pose proof (find_none _ _ H _ Hin) as Hf.
    apply orb_false_iff in Hf. destruct Hf as [H1 H2].
    split; now apply String.eqb_neq.
  - intro H. destruct (find _ brands) as [brand|] eqn:E; [|reflexivity].
    apply find_some in E. destruct E as [Hin Hf]. destruct (H _ Hin) as [H1 H2].
    apply String.eqb_neq in H1, H2. rewrite H1, H2 in Hf. discriminate.
Qed.

Lemma findTheme_None themes id :
  findTheme themes id = None <->
  forall theme, In theme themes -> theme_id theme <> id /\ theme_idInVersion theme <> id.
Proof.
  unfold findTheme. split.
  - intros H theme Hin. pose proof (find_none _ _ H _ Hin) as Hf.
    apply orb_false_iff in Hf. destruct Hf as [H1 H2].
    split; now apply String.eqb_neq.
  - intro H. destruct (find _ themes) as [theme|] eqn:E; [|reflexivity].
    apply find_some in E. destruct E as [Hin Hf]. destruct (H _ Hin) as [H1 H2].
    apply String.eqb_neq in H1, H2. rewrite H1, H2 in Hf. discriminate.
Qed.

Lemma filterByBrand_runs allTokens allTokenGroups brands context c :
  (brandUnknown brands context /\
   exists e, runs (filterByBrand allTokens allTokenGroups brands context) c c (Thrown e)) \/
  (~ brandUnknown brands context /\
   exists p, runs (filterByBrand allTokens allTokenGroups brands context) c c (Returned p)).
Proof.
  unfold filterByBrand, brandUnknown.
  destruct (brandId context) as [id|] eqn:Eb.
  - rewrite truthy_Some. destruct (id =? "") eqn:Eid; cbn [negb].
    + right. split.
      * intros [id' [H1 [H2 _]]]. inversion H1; subst id'.
        apply String.eqb_eq in Eid. contradiction.
      * eexists. apply runs_ret.
    + destruct (findBrand brands id) as [brand|] eqn:Ef.
      * right. split.
        -- intros [id' [H1 [_ H3]]]. inversion H1; subst id'.
           apply findBrand_None in H3. congruence.
        -- eexists. apply runs_ret.
      * left. split.
        -- exists id. split; [reflexivity|]. split.
           ++ now apply String.eqb_neq.
           ++ now apply findBrand_None.
        -- eexists. apply runs_throw.
  - right. split.
    + intros [id' [H1 _]]. discriminate.
    + eexists. apply runs_ret.
Qed.

Lemma resolveThemes_runs themes ids c :
  ((exists id, In id ids /\ findTheme themes id = None) /\
   exists e, runs (mapM (resolveTheme themes) ids) c c (Thrown e)) \/
  ((forall id, In id ids -> findTheme themes id <> None) /\
   exists themesToApply, runs (mapM (resolveTheme themes) ids) c c (Returned themesToApply)).
Proof.
  induction ids as [|id ids IH]; cbn [mapM].
  - right. split; [intros id []|]. eexists. apply runs_ret.
  - unfold resolveTheme at 1 3. destruct (findTheme themes id) as [theme|] eqn:Ef.
    + destruct IH as [[[id' [Hin Hn]] [e He]] | [Hall [ts Hts]]].
      * left. split; [exists id'; split; [now right | assumption]|].
        exists e. eapply runs_bind; [apply runs_ret|].
        eapply runs_bind_Thrown. exact He.
      * right. split.
        -- intros id' [<- | Hin]; [congruence | now apply Hall].
        -- eexists. eapply runs_bind; [apply runs_ret|].
           eapply runs_bind; [exact Hts | apply runs_ret].
    + left. split; [exists id; split; [now left | assumption]|].
      eexists. eapply runs_bind_Thrown with (c1 := c). apply runs_throw.
Qed.

(** The export ends in a way that depends on the configuration alone, leaves
    the configuration as it found it, and throws exactly for an unknown brand
    or theme. *)
Lemma export_outcome allTokens allTokenGroups tokenCollections brands themes context c :
  exists o,
    runs (export allTokens allTokenGroups tokenCollections brands themes context) c c o /\
    ((exists e, o = Thrown e) <-> brandUnknown brands context \/ themeUnknown themes context).
Proof.
  unfold export.
  destruct (filterByBrand_runs allTokens allTokenGroups brands context c)
    as [[Hb [e He]] | [Hb [p Hp]]].
  - exists (Thrown e). split; [eapply runs_bind_Thrown; exact He|].
    split; [now left | now exists e].
  - destruct (themesRequested context) eqn:Er.
    + unfold themesRequested in Er.
      destruct (themeIds context) as [ids|] eqn:Ei; [|discriminate].
      destruct (resolveThemes_runs themes ids c)
        as [[[id [Hin Hn]] [e He]] | [Hall [ts Hts]]].
      * exists (Thrown e). split.
        -- eapply runs_bind; [exact Hp|]. cbv zeta. eapply runs_bind_Thrown. exact He.
        -- split; [|now exists e]. intros _. right.
           exists ids, id. split; [exact Ei|]. split; [assumption|].
           now apply findTheme_None.
      * destruct (settled_exportThemes context (fst p) (snd p) tokenCollections ts c)
          as [o [Ho Hno]].
        exists o. split.
        -- eapply runs_bind; [exact Hp|]. cbv zeta. eapply runs_bind; [exact Hts | exact Ho].
        -- split.
           ++ intros [e ->]. exfalso. now apply (Hno e).
           ++ intros [H | [ids' [id [H1 [H2 H3]]]]]; [contradiction|].
              rewrite Ei in H1. inversion H1; subst ids'. apply findTheme_None in H3.
              exfalso. now apply (Hall id).
    + destruct (settled_withoutThemeFiles (fst p) (snd p) tokenCollections c context)
        as [o [Ho Hno]].
      exists o. split.
      * eapply runs_bind; [exact Hp|]. exact Ho.
      * split.
        -- intros [e ->]. exfalso. now apply (Hno e).
        -- intros [H | [ids' [id [H1 [H2 H3]]]]]; [contradiction|].
           unfold themesRequested in Er. rewrite H1 in Er.
           destruct ids'; [contradiction | discriminate].
Qed.

(** C3: the export throws, and so hands back no document list at all,
    exactly when the requested brand answers to no loaded brand or one of
    the requested themes answers to no loaded theme. *)
Theorem export_throws_iff_unknown_identifier
    (allTokens : list Token) (allTokenGroups : list TokenGroup)
    (tokenCollections : list DesignSystemCollection) (brands : list Brand)
    (themes : list TokenTheme) (context : PulsarContext) (w : World) :
  (exists e, export allTokens allTokenGroups tokenCollections brands themes context w
             = Thrown e) <->
  brandUnknown brands context \/ themeUnknown themes context.
Proof.
  destruct (export_outcome allTokens allTokenGroups tokenCollections brands themes context
              (exportConfiguration w)) as [o [Ho Hiff]].
  destruct (Ho w eq_refl) as [Hr _].
  rewrite <- Hiff. split.
  - intros [e He]. exists e. rewrite He in Hr. now rewrite <- Hr.
  - intros [e ->]. exists e.
    destruct (export _ _ _ _ _ _ w) as [[a w']| |]; simpl in Hr; now inversion Hr.
Qed.

(** C8: two runs of the export on the same inputs and the same
    configuration end the same way, with the same documents in the same
    order, whatever [Math.random] returns in each. *)
Theorem export_is_deterministic
    (allTokens : list Token) (allTokenGroups : list TokenGroup)
    (tokenCollections : list DesignSystemCollection) (brands : list Brand)
    (themes : list TokenTheme) (context : PulsarContext) (w1 w2 : World) :
  exportConfiguration w1 = exportConfiguration w2 ->
  result (export allTokens allTokenGroups tokenCollections brands themes context w1) =
  result (export allTokens allTokenGroups tokenCollections brands themes context w2).
Proof.
  intro H.
  destruct (export_outcome allTokens allTokenGroups tokenCollections brands themes context
              (exportConfiguration w1)) as [o [Ho _]].
  destruct (Ho w1 eq_refl) as [-> _]. destruct (Ho w2 (eq_sym H)) as [-> _]. reflexivity.
Qed.

(** An export that returns leaves the shared configuration as it found it. *)
Lemma export_restores_configuration allTokens allTokenGroups tokenCollections brands themes
    context w :
  match export allTokens allTokenGroups tokenCollections brands themes context w with
  | Returned (_, w') => exportConfiguration w' = exportConfiguration w
  | _ => True
  end.
Proof.
  destruct (export_outcome allTokens allTokenGroups tokenCollections brands themes context
              (exportConfiguration w)) as [o [Ho _]].
  destruct (Ho w eq_refl) as [Hr Hf].
  destruct (export _ _ _ _ _ _ w) as [[a w']| |]; [|exact Logic.I|exact Logic.I].
  simpl in Hr. specialize (Hf a (eq_sym Hr)). simpl in Hf. now inversion Hf.
Qed.

(** *** Lists without nulls *)

Lemma processOutputFiles_map_Some {A B} (g : A -> B) (l : list A) :
  processOutputFiles (map (fun x => Some (g x)) l) = map g l.
Proof. induction l as [|x l IH]; simpl; [reflexivity | now rewrite IH]. Qed.

End Composer.

(** ** Global and alias collections *)

Section GlobalAlias.

Variable I : Imports.
Variable f :
  ExporterConfiguration -> DesignSystemCollection -> list Token -> list TokenGroup ->
  string -> option TokenTheme -> list DesignSystemCollection -> option OutputFile.

Let I' : Imports := withCollectionFile I f.

Variables (context : PulsarContext) (c : ExporterConfiguration).

(** [f] is [combinedCollectionStyleOutputFile] on every collection that is
    not global or alias, and on the un-themed call at the root path when base
    values are exported, files are separate, or no theme is requested. *)
Hypothesis f_same :
  forall config collection tokens tokenGroups themePath theme collections,
    isGlobalOrAlias (I := I) collection = false \/
    (themePath = "" /\ theme = None /\
     (exportBaseValues c = true \/ exportThemesAs c = SeparateFiles \/
      themesRequested context = false)) ->
    f config collection tokens tokenGroups themePath theme collections =
    combinedCollectionStyleOutputFile (Imports := I) config collection tokens tokenGroups
      themePath theme collections.

Variables (tokens : list Token) (tokenGroups : list TokenGroup)
          (tokenCollections : list DesignSystemCollection)
          (themesToApply : list TokenTheme).

Lemma isOther_not_globalAlias collection :
  isOther (I := I) collection = true -> isGlobalOrAlias (I := I) collection = false.
Proof.
  unfold isOther, isGlobalOrAlias. cbv zeta.
  destruct (kebabName collection =? "global"); [discriminate|].
  destruct (kebabName collection =? "alias"); [discriminate | reflexivity].
Qed.

Lemma isNotGlobalAliasComponents_not_globalAlias collection :
  isNotGlobalAliasComponents (I := I) collection = true ->
  isGlobalOrAlias (I := I) collection = false.
Proof.
  unfold isNotGlobalAliasComponents, isGlobalOrAlias. cbv zeta.
  destruct (kebabName collection =? "global"); [discriminate|].
  destruct (kebabName collection =? "alias"); [discriminate | reflexivity].
Qed.

(** The maps over collections that call the collection file function are
    turned, one by one, into the same maps with the imported function. *)
Ltac same_collection_files :=
  repeat
    match goal with
    | |- context [@map DesignSystemCollection (option OutputFile) ?F ?L] =>
        match F with
        | context [I'] =>
            let P := eval pattern I' in F in
            match P with
            | ?Q _ =>
                let G := eval cbv beta in (Q I) in
                rewrite (@map_ext_in _ _ F G L)
                  by (let collection := fresh "collection" in
                      let Hin := fresh "Hin" in
                      intros collection Hin; apply f_same;
                      first
                        [ right; now auto
                        | left; apply filter_In in Hin; destruct Hin as [_ Hin];
                          first
                            [ now apply isOther_not_globalAlias
                            | now apply isNotGlobalAliasComponents_not_globalAlias
                            | now apply negb_true_iff in Hin ] ])
            end
        end
    end.

Lemma agree_nestedCollectionFile collection :
  agree c (nestedCollectionFile (I := I') tokens tokenGroups tokenCollections themesToApply
             collection)
          (nestedCollectionFile (I := I) tokens tokenGroups tokenCollections themesToApply
             collection).
Proof.
  unfold nestedCollectionFile. apply agree_getConfiguration.
  change (isGlobalOrAlias (I := I') collection) with (isGlobalOrAlias (I := I) collection).
  destruct (isGlobalOrAlias (I := I) collection) eqn:Eg.
  - destruct (exportBaseValues c) eqn:Eb; [|apply agree_refl].
    apply agree_calling. apply f_same. right. auto.
  - apply agree_bind.
    + destruct (exportBaseValues c); [|apply agree_refl].
      apply agree_calling. apply f_same. now left.
    + destruct (exportBaseValues c); [apply settled_calling | apply settled_ret].
    + intro baseFile. apply agree_bind.
      * apply agree_mapM.
        -- intros theme _. apply agree_withoutBaseValues. apply f_same. now left.
        -- intro theme. apply settled_withoutBaseValues.
      * apply settled_mapM. intro theme. apply settled_withoutBaseValues.
      * intro themeFiles. apply agree_refl.
Qed.

Lemma agree_nestedThemesByCollection :
  agree c (nestedThemesByCollection (I := I') tokens tokenGroups tokenCollections themesToApply)
          (nestedThemesByCollection (I := I) tokens tokenGroups tokenCollections themesToApply).
Proof.
  unfold nestedThemesByCollection. apply agree_bind.
  - apply agree_mapM.
    + intros collection _. apply agree_nestedCollectionFile.
    + intro collection. apply settled_nestedCollectionFile.
  - apply settled_mapM. intro collection. apply settled_nestedCollectionFile.
  - intro files. apply agree_refl.
Qed.

Lemma agree_mergedThemeByCollection :
  agree c (mergedThemeByCollection (I := I') tokens tokenGroups tokenCollections themesToApply)
          (mergedThemeByCollection (I := I) tokens tokenGroups tokenCollections themesToApply).
Proof.
  unfold mergedThemeByCollection. apply agree_getConfiguration. cbv zeta.
  intros w _. destruct (exportBaseValues c) eqn:Eb; same_collection_files; reflexivity.
Qed.

Lemma agree_separateFilesByCollection :
  exportThemesAs c = SeparateFiles ->
  agree c (separateFilesByCollection (I := I') tokens tokenGroups tokenCollections themesToApply)
          (separateFilesByCollection (I := I) tokens tokenGroups tokenCollections themesToApply).
Proof.
  intro Hs. unfold separateFilesByCollection. apply agree_getConfiguration. cbv zeta.
  apply agree_bind.
  - apply agree_flatMapM.
    + intros theme _. apply agree_bind; [apply agree_refl | |].
      * apply settled_flatMapM. intro collection. apply settled_collectionThemeFiles.
      * intro files. intros w _. same_collection_files. reflexivity.
    + intro theme. apply settled_bind; [|intro; apply settled_ret].
      apply settled_flatMapM. intro collection. apply settled_collectionThemeFiles.
  - apply settled_flatMapM. intro theme. apply settled_bind; [|intro; apply settled_ret].
    apply settled_flatMapM. intro collection. apply settled_collectionThemeFiles.
  - intro themeFiles. apply agree_bind; [apply agree_refl | |].
    + destruct (exportBaseValues c); [|apply settled_ret].
      apply settled_flatMapM. intro collection.
      apply settled_componentGroupStyleOutputFiles.
    + intro componentBaseFiles. intros w _.
      destruct (exportBaseValues c) eqn:Eb; same_collection_files; reflexivity.
Qed.

Lemma agree_collectionFiles :
  themesRequested context = false ->
  agree c (collectionFiles (I := I') tokens tokenGroups tokenCollections)
          (collectionFiles (I := I) tokens tokenGroups tokenCollections).
Proof.
  intro Hn. unfold collectionFiles. apply agree_getConfiguration. cbv zeta.
  apply agree_bind; [apply agree_refl | |].
  - apply settled_flatMapM. intro collection. apply settled_componentGroupStyleOutputFiles.
  - intro componentFiles. intros w _. same_collection_files. reflexivity.
Qed.

End GlobalAlias.

(** The export does not depend on what [combinedCollectionStyleOutputFile]
    would answer for a global or alias collection, except on its un-themed
    call at the root path, and on that call only when base values are
    exported, the theme files are separate files, or no theme is requested. *)
Lemma export_ignores_other_collection_calls
    (I : Imports)
    (f : ExporterConfiguration -> DesignSystemCollection -> list Token -> list TokenGroup ->
         string -> option TokenTheme -> list DesignSystemCollection -> option OutputFile)
    (allTokens : list Token) (allTokenGroups : list TokenGroup)
    (tokenCollections : list DesignSystemCollection) (brands : list Brand)
    (themes : list TokenTheme) (context : PulsarContext) (w : World) :
  (forall config collection tokens tokenGroups themePath theme collections,
     isGlobalOrAlias (I := I) collection = false \/
     (themePath = "" /\ theme = None /\
      (exportBaseValues (exportConfiguration w) = true \/
       exportThemesAs (exportConfiguration w) = SeparateFiles \/
       themesRequested context = false)) ->
     f config collection tokens tokenGroups themePath theme collections =
     combinedCollectionStyleOutputFile (Imports := I) config collection tokens tokenGroups
       themePath theme collections) ->
  export (I := withCollectionFile I f) allTokens allTokenGroups tokenCollections brands
    themes context w =
  export (I := I) allTokens allTokenGroups tokenCollections brands themes context w.
Proof.
  intro Hf. set (c := exportConfiguration w) in *.
  assert (Hwithout : forall tokens tokenGroups,
             agree c (withoutThemeFiles (I := withCollectionFile I f) context tokens
                        tokenGroups tokenCollections)
                     (withoutThemeFiles (I := I) context tokens tokenGroups tokenCollections)).
  { intros tokens tokenGroups. unfold withoutThemeFiles. apply agree_getConfiguration.
    destruct (fileStructure c); try apply agree_refl.
    remember (themesRequested context) as requested eqn:Er in |- *.
    destruct requested; cbn [negb]; [apply agree_refl|].
    now apply agree_collectionFiles with (context := context). }
  assert (Hthemes : forall tokens tokenGroups themesToApply,
             agree c (exportThemes (I := withCollectionFile I f) context tokens tokenGroups
                        tokenCollections themesToApply)
                     (exportThemes (I := I) context tokens tokenGroups tokenCollections
                        themesToApply)).
  { intros tokens tokenGroups themesToApply. unfold exportThemes.
    apply agree_getConfiguration.
    remember (exportThemesAs c) as style eqn:Es in |- *.
    destruct style; destruct (fileStructure c); try apply agree_refl.
    - apply Hwithout.
    - apply Hwithout.
    - apply Hwithout.
    - now apply agree_separateFilesByCollection with (context := context).
    - now apply agree_mergedThemeByCollection with (context := context).
    - now apply agree_nestedThemesByCollection with (context := context). }
  assert (H : agree c
                (export (I := withCollectionFile I f) allTokens allTokenGroups
                   tokenCollections brands themes context)
                (export (I := I) allTokens allTokenGroups tokenCollections brands themes
                   context)).
  { unfold export.
    destruct (filterByBrand_runs allTokens allTokenGroups brands context c)
      as [[_ [e Hr]] | [_ [p Hr]]];
      (eapply agree_bind_runs; [apply agree_refl | exact Hr |]); intro filtered; cbv zeta;
      (destruct (themesRequested context); [|apply Hwithout]);
      (destruct (resolveThemes_runs themes
                   (match themeIds context with Some ids => ids | None => [] end) c)
         as [[_ [e' Hr']] | [_ [ts Hr']]];
       (eapply agree_bind_runs; [apply agree_refl | exact Hr' |]); intro themesToApply;
       apply Hthemes). }
  now apply H.
Qed.

(** ** Deduplication by destination *)

Section FirstOccurrences.

Variables (A : Type) (key : A -> string).

Let sameKey (x : A) : A -> bool := fun y => key x =? key y.

Lemma findIndexFrom_range (q : A -> bool) (l : list A) (i : Z) :
  findIndexFrom q l i = (-1)%Z \/
  (i <= findIndexFrom q l i < i + Z.of_nat (List.length l))%Z.
Proof.
  revert i. induction l as [|x l IH]; intro i; cbn [findIndexFrom List.length].
  - now left.
  - destruct (q x); [right; lia|].
    destruct (IH (i + 1)%Z) as [H | H]; [now left | right; lia].
Qed.

Lemma findIndexFrom_found (q : A -> bool) (l rest : list A) (i : Z) :
  existsb q l = true ->
  (i <= findIndexFrom q (l ++ rest) i < i + Z.of_nat (List.length l))%Z.
Proof.
  revert i. induction l as [|x l IH]; intros i H; cbn in H; [discriminate|].
  cbn [app findIndexFrom List.length]. destruct (q x); [lia|].
  cbn in H. specialize (IH (i + 1)%Z H). lia.
Qed.

Lemma findIndexFrom_skip (q : A -> bool) (l rest : list A) (i : Z) :
  existsb q l = false ->
  findIndexFrom q (l ++ rest) i = findIndexFrom q rest (i + Z.of_nat (List.length l))%Z.
Proof.
  revert i. induction l as [|x l IH]; intros i H; cbn [app findIndexFrom List.length].
  - f_equal. lia.
  - cbn in H. apply orb_false_iff in H. destruct H as [Hx Hl]. rewrite Hx.
    rewrite (IH _ Hl). f_equal. lia.
Qed.

(** The test of the [filter] callback: an element is at the index that
    [findIndex] returns for its key exactly when no element before it has
    the same key. *)
Lemma first_index_test (seen : list A) (x : A) (rest : list A) :
  Z.eqb (Z.of_nat (List.length seen))
        (findIndex (sameKey x) (seen ++ x :: rest)) =
  negb (existsb (sameKey x) seen).
Proof.
  unfold findIndex. destruct (existsb (sameKey x) seen) eqn:E; cbn [negb].
  - apply Z.eqb_neq.
    pose proof (findIndexFrom_found (sameKey x) seen (x :: rest) 0%Z E). lia.
  - rewrite (findIndexFrom_skip _ _ _ _ E). cbn [findIndexFrom].
    unfold sameKey at 1. rewrite String.eqb_refl. apply Z.eqb_eq. lia.
Qed.

Let kept (seen l : list A) : list A :=
  filterFrom (fun x index => Z.eqb index (findIndex (sameKey x) (seen ++ l)))
             l (Z.of_nat (List.length seen)).

Lemma kept_cons seen x rest :
  kept seen (x :: rest) =
  if existsb (sameKey x) seen
  then kept (seen ++ [x]) rest
  else x :: kept (seen ++ [x]) rest.
Proof.
  unfold kept. cbn [filterFrom]. rewrite first_index_test.
  replace (Z.of_nat (List.length seen) + 1)%Z
    with (Z.of_nat (List.length (seen ++ [x])))
    by (rewrite length_app; cbn [List.length]; lia).
  replace (seen ++ x :: rest)%list with ((seen ++ [x]) ++ rest)%list
    by (rewrite <- app_assoc; reflexivity).
  now destruct (existsb (sameKey x) seen).
Qed.

Lemma kept_first l : forall seen x,
  In x (kept seen l) ->
  exists l1 l2, l = (l1 ++ x :: l2)%list /\ existsb (sameKey x) (seen ++ l1) = false.
Proof.
  induction l as [|y l IH]; intros seen x H; [contradiction|].
  rewrite kept_cons in H.
  assert (Hrest : In x (kept (seen ++ [y]) l) ->
                  exists l1 l2, (y :: l = l1 ++ x :: l2)%list /\
                                existsb (sameKey x) (seen ++ l1) = false).
  { intro Hin. destruct (IH _ _ Hin) as [l1 [l2 [-> Hn]]].
    exists (y :: l1), l2. split; [reflexivity|].
    now rewrite <- app_assoc in Hn. }
  destruct (existsb (sameKey y) seen) eqn:E; [now apply Hrest|].
  destruct H as [<- | H]; [|now apply Hrest].
  exists [], l. split; [reflexivity|]. now rewrite app_nil_r.
Qed.

Lemma kept_NoDup l : forall seen, NoDup (map key (kept seen l)).
Proof.
  induction l as [|y l IH]; intro seen; [constructor|].
  rewrite kept_cons. destruct (existsb (sameKey y) seen); [apply IH|].
  cbn [map]. constructor; [|apply IH].
  intro Hin. apply in_map_iff in Hin. destruct Hin as [x [Hk Hx]].
  destruct (kept_first _ _ _ Hx) as [l1 [l2 [_ Hn]]].
  rewrite <- app_assoc in Hn. rewrite existsb_app in Hn.
  apply orb_false_iff in Hn. destruct Hn as [_ Hn].
  cbn in Hn. apply orb_false_iff in Hn. destruct Hn as [Hn _].
  unfold sameKey in Hn. apply String.eqb_neq in Hn. congruence.
Qed.

Lemma kept_some l : forall seen x,
  In x l -> existsb (sameKey x) seen = false ->
  exists y, In y (kept seen l) /\ key y = key x.
Proof.
  induction l as [|y l IH]; intros seen x Hin Hn; [contradiction|].
  rewrite kept_cons. destruct (String.eqb (key x) (key y)) eqn:Exy.
  - apply String.eqb_eq in Exy.
    assert (E : existsb (sameKey y) seen = false).
    { rewrite <- Hn. unfold sameKey. now rewrite Exy. }
    rewrite E. exists y. split; [now left | now symmetry].
  - destruct Hin as [-> | Hin]; [now rewrite String.eqb_refl in Exy|].
    assert (Hn' : existsb (sameKey x) (seen ++ [y]) = false).
    { rewrite existsb_app, Hn. cbn. unfold sameKey. now rewrite Exy. }
    destruct (IH _ _ Hin Hn') as [z [Hz Hk]].
    exists z. split; [|assumption].
    destruct (existsb (sameKey y) seen); [assumption | now right].
Qed.

End FirstOccurrences.

Lemma uniqueFiles_kept allFiles :
  uniqueFiles allFiles =
  filterFrom (fun x index =>
                Z.eqb index (findIndex (fun y => fileIdentifier x =? fileIdentifier y)
                               ([] ++ allFiles)))
             allFiles (Z.of_nat (List.length (@nil OutputFile))).
Proof. reflexivity. Qed.

(** No two files that [uniqueFiles] keeps have the same identifier. *)
Lemma uniqueFiles_NoDup allFiles : NoDup (map fileIdentifier (uniqueFiles allFiles)).
Proof. rewrite uniqueFiles_kept. apply kept_NoDup. Qed.

(** A file that [uniqueFiles] keeps is the first of the list with its identifier. *)
Lemma uniqueFiles_first allFiles file :
  In file (uniqueFiles allFiles) ->
  exists seen later,
    allFiles = (seen ++ file :: later)%list /\
    forall earlier, In earlier seen -> fileIdentifier earlier <> fileIdentifier file.
Proof.
  rewrite uniqueFiles_kept. intro H.
  destruct (kept_first _ _ _ _ H) as [l1 [l2 [E Hn]]].
  exists l1, l2. split; [assumption|].
  intros earlier Hin Heq. cbn [app] in Hn.
  assert (Ht : existsb (fun y => fileIdentifier file =? fileIdentifier y) l1 = true).
  { apply existsb_exists. exists earlier. split; [assumption|].
    apply String.eqb_eq. now symmetry. }
  congruence.
Qed.

(** Every identifier of the list is the identifier of a kept file. *)
Lemma uniqueFiles_covers allFiles file :
  In file allFiles ->
  exists first, In first (uniqueFiles allFiles) /\
                fileIdentifier first = fileIdentifier file.
Proof.
  rewrite uniqueFiles_kept. intro H. now apply kept_some.
Qed.

(** ** Computations that return *)

Lemma runs_Returned_at {A} (m : M A) c c' a w :
  runs m c c' (Returned a) -> exportConfiguration w = c ->
  exists w', m w = Returned (a, w') /\ exportConfiguration w' = c'.
Proof.
  intros Hr Hw. destruct (Hr w Hw) as [Hres Hf]. specialize (Hf a eq_refl).
  destruct (m w) as [[a' w']| |]; simpl in Hres, Hf; inversion Hres; inversion Hf; subst.
  now exists w'.
Qed.

Lemma returns_bind {A B} (m : M A) (k : A -> M B) c :
  (exists a, runs m c c (Returned a)) ->
  (forall a, exists b, runs (k a) c c (Returned b)) ->
  exists b, runs (bind m k) c c (Returned b).
Proof.
  intros [a Ha] Hk. destruct (Hk a) as [b Hb]. exists b. eapply runs_bind; eassumption.
Qed.

Lemma returns_mapM {A B} (f : A -> M B) (l : list A) c :
  (forall x, exists y, runs (f x) c c (Returned y)) ->
  exists ys, runs (mapM f l) c c (Returned ys).
Proof.
  intro Hf. induction l as [|x l IH]; cbn [mapM].
  - eexists. apply runs_ret.
  - apply returns_bind; [apply Hf|]. intro y.
    apply returns_bind; [apply IH|]. intro ys. eexists. apply runs_ret.
Qed.

Lemma bind_getConfiguration_at {B} (k : ExporterConfiguration -> M B) w :
  bind getConfiguration k w = k (exportConfiguration w) w.
Proof. reflexivity. Qed.

Lemma In_processOutputFiles {A} (x : A) (l : list (option A)) :
  In (Some x) l -> In x (processOutputFiles l).
Proof.
  induction l as [|[y|] l IH]; cbn [processOutputFiles]; intro H.
  - contradiction.
  - destruct H as [H | H]; [inversion H; now left | right; now apply IH].
  - destruct H as [H | H]; [discriminate | now apply IH].
Qed.

Lemma processOutputFiles_Some {A} (l : list A) : processOutputFiles (map Some l) = l.
Proof. rewrite (processOutputFiles_map_Some (fun x => x)). apply map_id. Qed.

Lemma globalAlias_not_components {I : Imports} (collection : DesignSystemCollection) :
  isGlobalOrAlias collection = true -> isComponents collection = false.
Proof.
  intro H. unfold isGlobalOrAlias, isComponents in *. cbv zeta in *.
  apply orb_true_iff in H. destruct H as [H | H]; apply String.eqb_eq in H; rewrite H;
    reflexivity.
Qed.

Lemma returns_nestedCollectionFile {I : Imports} (tokens : list Token)
    (tokenGroups : list TokenGroup) (tokenCollections : list DesignSystemCollection)
    (themesToApply : list TokenTheme) (c : ExporterConfiguration)
    (collection' : DesignSystemCollection) :
  exists file,
    runs (nestedCollectionFile tokens tokenGroups tokenCollections themesToApply collection')
      c c (Returned file).
Proof.
  unfold nestedCollectionFile.
  apply returns_bind; [eexists; apply runs_getConfiguration|]. intro config.
  destruct (isGlobalOrAlias collection').
  - destruct (exportBaseValues config); eexists; [apply runs_calling | apply runs_ret].
  - apply returns_bind.
    + destruct (exportBaseValues config); eexists; [apply runs_calling | apply runs_ret].
    + intro baseFile. apply returns_bind.
      * apply returns_mapM. intro theme. eexists. apply runs_withoutBaseValues.
      * intro themeFiles. unfold mergeAll.
        apply returns_bind; [eexists; apply runs_getConfiguration|].
        intro config'. eexists. apply runs_ret.
Qed.

(** ** The configuration the imported functions see *)

Section View.

Variable I : Imports.
Variable view : option TokenTheme -> ExporterConfiguration -> ExporterConfiguration.

Let I' : Imports := withView I view.

Variable c : ExporterConfiguration.

(** [view] shows an un-themed call the configuration of the run as it is. *)
Hypothesis view_base : view None c = c.

#[local] Instance map_pointwise (A B : Type) :
  Proper (pointwise_relation A eq ==> eq ==> eq) (@map A B).
Proof. intros g1 g2 Hg l1 l2 <-. apply map_ext. exact Hg. Qed.

#[local] Instance flat_map_pointwise (A B : Type) :
  Proper (pointwise_relation A eq ==> eq ==> eq) (@flat_map A B).
Proof. intros g1 g2 Hg l1 l2 <-. apply flat_map_ext. exact Hg. Qed.

Lemma style_base type tokens tokenGroups themePath collections :
  styleOutputFile (Imports := I') c type tokens tokenGroups themePath None collections =
  styleOutputFile (Imports := I) c type tokens tokenGroups themePath None collections.
Proof. unfold I'. cbn. now rewrite view_base. Qed.

Lemma combined_base tokens tokenGroups themePath collections :
  combinedStyleOutputFile (Imports := I') c tokens tokenGroups themePath None collections =
  combinedStyleOutputFile (Imports := I) c tokens tokenGroups themePath None collections.
Proof. unfold I'. cbn. now rewrite view_base. Qed.

Lemma collection_base collection tokens tokenGroups themePath collections :
  combinedCollectionStyleOutputFile (Imports := I') c collection tokens tokenGroups themePath
    None collections =
  combinedCollectionStyleOutputFile (Imports := I) c collection tokens tokenGroups themePath
    None collections.
Proof. unfold I'. cbn. now rewrite view_base. Qed.

Lemma tree_base tokens tokenGroups collections allTokens :
  processTokensToObject (Imports := I') c tokens tokenGroups None collections allTokens =
  processTokensToObject (Imports := I) c tokens tokenGroups None collections allTokens.
Proof. unfold I'. cbn. now rewrite view_base. Qed.

Ltac given_base :=
  repeat first
    [ setoid_rewrite style_base
    | setoid_rewrite combined_base
    | setoid_rewrite collection_base
    | setoid_rewrite tree_base ].

Variables (tokens : list Token) (tokenGroups : list TokenGroup)
          (tokenCollections : list DesignSystemCollection)
          (themesToApply : list TokenTheme).

(** Both sides test the same value, up to the imports that do not read the
    configuration: the test is made once for both. *)
Ltac same_test :=
  match goal with
  | |- match ?x with _ => _ end = match ?y with _ => _ end => change x with y; destruct y
  end.

Lemma componentGroupFile_given themePath collections entry :
  componentGroupFile (I := I') c tokens tokenGroups themePath None collections entry =
  componentGroupFile (I := I) c tokens tokenGroups themePath None collections entry.
Proof.
  unfold componentGroupFile. cbv zeta. same_test; [|reflexivity].
  rewrite tree_base. reflexivity.
Qed.

Lemma componentGroupFiles_given collection themePath collections :
  componentGroupFiles (I := I') c collection tokens tokenGroups themePath None collections =
  componentGroupFiles (I := I) c collection tokens tokenGroups themePath None collections.
Proof.
  unfold componentGroupFiles. cbv zeta.
  repeat same_test; try reflexivity;
    do 2 f_equal; apply map_ext; intro entry; apply componentGroupFile_given.
Qed.

Lemma agree_view_componentGroupStyleOutputFiles collection themePath collections :
  agree c
    (componentGroupStyleOutputFiles (I := I') collection tokens tokenGroups themePath None
       collections)
    (componentGroupStyleOutputFiles (I := I) collection tokens tokenGroups themePath None
       collections).
Proof.
  intros w Hw. unfold componentGroupStyleOutputFiles, bind, Math_random, getConfiguration.
  cbn [exportConfiguration]. rewrite Hw, componentGroupFiles_given. reflexivity.
Qed.

Lemma agree_view_defaultFiles :
  agree c (defaultFiles (I := I') tokens tokenGroups tokenCollections)
          (defaultFiles (I := I) tokens tokenGroups tokenCollections).
Proof.
  unfold defaultFiles. apply agree_getConfiguration. cbv zeta. intros w _.
  destruct (fileStructure c); destruct (exportBaseValues c); given_base; reflexivity.
Qed.

Lemma agree_view_collectionFiles :
  agree c (collectionFiles (I := I') tokens tokenGroups tokenCollections)
          (collectionFiles (I := I) tokens tokenGroups tokenCollections).
Proof.
  unfold collectionFiles. apply agree_getConfiguration. cbv zeta. apply agree_bind.
  - apply agree_flatMapM.
    + intros collection _. apply agree_view_componentGroupStyleOutputFiles.
    + intro collection. apply settled_componentGroupStyleOutputFiles.
  - apply settled_flatMapM. intro collection. apply settled_componentGroupStyleOutputFiles.
  - intros componentFiles w _. given_base. reflexivity.
Qed.

(** *** Separate and merged themes: a themed call finds the configuration
    of the run *)

Section Themed.

Hypothesis view_themed : forall theme, view (Some theme) c = c.

Lemma view_given theme : view theme c = c.
Proof. destruct theme as [theme|]; [apply view_themed | exact view_base]. Qed.

Lemma style_given type tokens' tokenGroups' themePath theme collections :
  styleOutputFile (Imports := I') c type tokens' tokenGroups' themePath theme collections =
  styleOutputFile (Imports := I) c type tokens' tokenGroups' themePath theme collections.
Proof. unfold I'. cbn. now rewrite view_given. Qed.

Lemma combined_given tokens' tokenGroups' themePath theme collections :
  combinedStyleOutputFile (Imports := I') c tokens' tokenGroups' themePath theme collections =
  combinedStyleOutputFile (Imports := I) c tokens' tokenGroups' themePath theme collections.
Proof. unfold I'. cbn. now rewrite view_given. Qed.

Lemma collection_given collection tokens' tokenGroups' themePath theme collections :
  combinedCollectionStyleOutputFile (Imports := I') c collection tokens' tokenGroups'
    themePath theme collections =
  combinedCollectionStyleOutputFile (Imports := I) c collection tokens' tokenGroups'
    themePath theme collections.
Proof. unfold I'. cbn. now rewrite view_given. Qed.

Lemma tree_given tokens' tokenGroups' theme collections allTokens :
  processTokensToObject (Imports := I') c tokens' tokenGroups' theme collections allTokens =
  processTokensToObject (Imports := I) c tokens' tokenGroups' theme collections allTokens.
Proof. unfold I'. cbn. now rewrite view_given. Qed.

Ltac given :=
  repeat first
    [ setoid_rewrite style_given
    | setoid_rewrite combined_given
    | setoid_rewrite collection_given
    | setoid_rewrite tree_given ].

Lemma themedComponentFile_given theme themedTokens themeName collection baseFile :
  themedComponentFile (I := I') tokens tokenGroups tokenCollections c theme themedTokens
    themeName collection baseFile =
  themedComponentFile (I := I) tokens tokenGroups tokenCollections c theme themedTokens
    themeName collection baseFile.
Proof. unfold themedComponentFile. cbv zeta. rewrite tree_given. reflexivity. Qed.

Lemma brandFile_given theme :
  brandFile (I := I') tokens tokenGroups tokenCollections c theme =
  brandFile (I := I) tokens tokenGroups tokenCollections c theme.
Proof. unfold brandFile. cbv zeta. rewrite tree_given. reflexivity. Qed.

Lemma agree_view_collectionThemeFiles theme themedTokens themeName collection :
  agree c
    (collectionThemeFiles (I := I') tokens tokenGroups tokenCollections c theme themedTokens
       themeName collection)
    (collectionThemeFiles (I := I) tokens tokenGroups tokenCollections c theme themedTokens
       themeName collection).
Proof.
  unfold collectionThemeFiles. apply agree_bind.
  - apply agree_view_componentGroupStyleOutputFiles.
  - apply settled_componentGroupStyleOutputFiles.
  - intros baseComponentFiles w _. unfold ret. do 3 f_equal.
    apply map_ext. intro baseFile. apply themedComponentFile_given.
Qed.

Lemma agree_view_separateFilesSingleFile :
  agree c (separateFilesSingleFile (I := I') tokens tokenGroups tokenCollections themesToApply)
          (separateFilesSingleFile (I := I) tokens tokenGroups tokenCollections themesToApply).
Proof.
  unfold separateFilesSingleFile. apply agree_getConfiguration. cbv zeta. intros w _.
  destruct (exportBaseValues c); given; reflexivity.
Qed.

Lemma agree_view_separateFilesByType :
  agree c (separateFilesByType (I := I') tokens tokenGroups tokenCollections themesToApply)
          (separateFilesByType (I := I) tokens tokenGroups tokenCollections themesToApply).
Proof.
  unfold separateFilesByType. apply agree_getConfiguration. cbv zeta. intros w _.
  destruct (exportBaseValues c); given; reflexivity.
Qed.

Lemma agree_view_mergedThemeSingleFile :
  agree c (mergedThemeSingleFile (I := I') tokens tokenGroups tokenCollections themesToApply)
          (mergedThemeSingleFile (I := I) tokens tokenGroups tokenCollections themesToApply).
Proof.
  unfold mergedThemeSingleFile. apply agree_getConfiguration. cbv zeta. intros w _.
  destruct (exportBaseValues c); given; reflexivity.
Qed.

Lemma agree_view_mergedThemeByCollection :
  agree c (mergedThemeByCollection (I := I') tokens tokenGroups tokenCollections themesToApply)
          (mergedThemeByCollection (I := I) tokens tokenGroups tokenCollections themesToApply).
Proof.
  unfold mergedThemeByCollection. apply agree_getConfiguration. cbv zeta. intros w _.
  destruct (exportBaseValues c); given; reflexivity.
Qed.

Lemma agree_view_mergedThemeByType :
  agree c (mergedThemeByType (I := I') tokens tokenGroups tokenCollections themesToApply)
          (mergedThemeByType (I := I) tokens tokenGroups tokenCollections themesToApply).
Proof.
  unfold mergedThemeByType. apply agree_getConfiguration. cbv zeta. intros w _.
  destruct (exportBaseValues c); given; reflexivity.
Qed.

Lemma agree_view_separateFilesByCollection :
  agree c (separateFilesByCollection (I := I') tokens tokenGroups tokenCollections themesToApply)
          (separateFilesByCollection (I := I) tokens tokenGroups tokenCollections themesToApply).
Proof.
  unfold separateFilesByCollection, componentThemeFiles.
  apply agree_getConfiguration. cbv zeta.
  assert (Hs : forall theme themedTokens themeName,
             settled (flatMapM
                        (collectionThemeFiles (I := I') tokens tokenGroups tokenCollections c
                           theme themedTokens themeName)
                        (filter (isComponents (I := I'))
                           (collectionsWithTokens tokens tokenCollections))) c).
  { intros. apply settled_flatMapM. intro. apply settled_collectionThemeFiles. }
  apply agree_bind.
  - apply agree_flatMapM.
    + intros theme _. apply agree_bind.
      * apply agree_flatMapM.
        -- intros collection _. apply agree_view_collectionThemeFiles.
        -- intro collection. apply settled_collectionThemeFiles.
      * apply Hs.
      * intros files w _. given. reflexivity.
    + intro theme. apply settled_bind; [apply Hs | intro; apply settled_ret].
  - apply settled_flatMapM. intro theme.
    apply settled_bind; [apply Hs | intro; apply settled_ret].
  - intro themeFiles. apply agree_bind.
    + destruct (exportBaseValues c); [|apply agree_refl].
      apply agree_flatMapM.
      * intros collection _. apply agree_view_componentGroupStyleOutputFiles.
      * intro collection. apply settled_componentGroupStyleOutputFiles.
    + destruct (exportBaseValues c); [|apply settled_ret].
      apply settled_flatMapM. intro collection.
      apply settled_componentGroupStyleOutputFiles.
    + intros componentBaseFiles w _.
      rewrite (map_ext _ _ brandFile_given).
      destruct (exportBaseValues c); given; reflexivity.
Qed.

End Themed.

(** *** Nested themes: a themed call finds [exportBaseValues] off, and
    nothing else of the configuration of the run matters to it *)

Section Nested.

Hypothesis view_suppressed :
  forall theme, view (Some theme) (suppressBaseValues c) = suppressBaseValues c.

Lemma agree_view_nestedThemesSingleFile :
  agree c (nestedThemesSingleFile (I := I') tokens tokenGroups tokenCollections themesToApply)
          (nestedThemesSingleFile (I := I) tokens tokenGroups tokenCollections themesToApply).
Proof.
  unfold nestedThemesSingleFile. apply agree_getConfiguration. apply agree_bind.
  - destruct (exportBaseValues c); [|apply agree_refl].
    apply agree_calling. apply combined_base.
  - destruct (exportBaseValues c); [apply settled_calling | apply settled_ret].
  - intro baseFile. apply agree_bind.
    + apply agree_mapM.
      * intros theme _. apply agree_withoutBaseValues. unfold I'. cbn.
        now rewrite view_suppressed.
      * intro theme. apply settled_withoutBaseValues.
    + apply settled_mapM. intro theme. apply settled_withoutBaseValues.
    + intro themeFiles. apply agree_refl.
Qed.

Lemma agree_view_nestedCollectionFile collection :
  agree c (nestedCollectionFile (I := I') tokens tokenGroups tokenCollections themesToApply
             collection)
          (nestedCollectionFile (I := I) tokens tokenGroups tokenCollections themesToApply
             collection).
Proof.
  unfold nestedCollectionFile. apply agree_getConfiguration.
  change (isGlobalOrAlias (I := I') collection) with (isGlobalOrAlias (I := I) collection).
  destruct (isGlobalOrAlias (I := I) collection).
  - destruct (exportBaseValues c); [|apply agree_refl].
    apply agree_calling. apply collection_base.
  - apply agree_bind.
    + destruct (exportBaseValues c); [|apply agree_refl].
      apply agree_calling. apply collection_base.
    + destruct (exportBaseValues c); [apply settled_calling | apply settled_ret].
    + intro baseFile. apply agree_bind.
      * apply agree_mapM.
        -- intros theme _. apply agree_withoutBaseValues. unfold I'. cbn.
           now rewrite view_suppressed.
        -- intro theme. apply settled_withoutBaseValues.
      * apply settled_mapM. intro theme. apply settled_withoutBaseValues.
      * intro themeFiles. apply agree_refl.
Qed.

Lemma agree_view_nestedTypeFile type :
  agree c (nestedTypeFile (I := I') tokens tokenGroups tokenCollections themesToApply type)
          (nestedTypeFile (I := I) tokens tokenGroups tokenCollections themesToApply type).
Proof.
  unfold nestedTypeFile. apply agree_getConfiguration. apply agree_bind.
  - destruct (exportBaseValues c); [|apply agree_refl].
    apply agree_calling. apply style_base.
  - destruct (exportBaseValues c); [apply settled_calling | apply settled_ret].
  - intro baseFile. apply agree_bind.
    + apply agree_mapM.
      * intros theme _. apply agree_withoutBaseValues. unfold I'. cbn.
        now rewrite view_suppressed.
      * intro theme. apply settled_withoutBaseValues.
    + apply settled_mapM. intro theme. apply settled_withoutBaseValues.
    + intro themeFiles. apply agree_refl.
Qed.

Lemma agree_view_nestedThemesByCollection :
  agree c (nestedThemesByCollection (I := I') tokens tokenGroups tokenCollections themesToApply)
          (nestedThemesByCollection (I := I) tokens tokenGroups tokenCollections themesToApply).
Proof.
  unfold nestedThemesByCollection. apply agree_bind.
  - apply agree_mapM.
    + intros collection _. apply agree_view_nestedCollectionFile.
    + intro collection. apply settled_nestedCollectionFile.
  - apply settled_mapM. intro collection. apply settled_nestedCollectionFile.
  - intro files. apply agree_refl.
Qed.

Lemma agree_view_nestedThemesByType :
  agree c (nestedThemesByType (I := I') tokens tokenGroups tokenCollections themesToApply)
          (nestedThemesByType (I := I) tokens tokenGroups tokenCollections themesToApply).
Proof.
  unfold nestedThemesByType. apply agree_bind.
  - apply agree_mapM.
    + intros type _. apply agree_view_nestedTypeFile.
    + intro type. apply settled_nestedTypeFile.
  - apply settled_mapM. intro type. apply settled_nestedTypeFile.
  - intro files. apply agree_refl.
Qed.

End Nested.

End View.

(** The export is the same when the functions of [style-file.ts] read the
    configuration through a [view] that shows an un-themed call the
    configuration of the run, and a themed call the configuration of the
    run as well, except in the nested-theme branches, where it shows a
    themed call the configuration of the run with [exportBaseValues] off;
    whatever the view shows of any other configuration, and in the
    nested-theme branches whatever it shows a themed call of the
    configuration of the run itself. *)
Lemma export_sees_given_configuration
    (I : Imports)
    (view : option TokenTheme -> ExporterConfiguration -> ExporterConfiguration)
    (allTokens : list Token) (allTokenGroups : list TokenGroup)
    (tokenCollections : list DesignSystemCollection) (brands : list Brand)
    (themes : list TokenTheme) (context : PulsarContext) (w : World) :
  view None (exportConfiguration w) = exportConfiguration w ->
  (exportThemesAs (exportConfiguration w) <> NestedThemes ->
   forall theme, view (Some theme) (exportConfiguration w) = exportConfiguration w) ->
  (exportThemesAs (exportConfiguration w) = NestedThemes ->
   forall theme, view (Some theme) (suppressBaseValues (exportConfiguration w))
                 = suppressBaseValues (exportConfiguration w)) ->
  export (I := withView I view) allTokens allTokenGroups tokenCollections brands themes
    context w =
  export (I := I) allTokens allTokenGroups tokenCollections brands themes context w.
Proof.
  intros Hb Ht Hn. set (c := exportConfiguration w) in *.
  assert (Hwithout : forall tokens tokenGroups,
             agree c (withoutThemeFiles (I := withView I view) context tokens tokenGroups
                        tokenCollections)
                     (withoutThemeFiles (I := I) context tokens tokenGroups tokenCollections)).
  { intros tokens tokenGroups. unfold withoutThemeFiles. apply agree_getConfiguration.
    destruct (fileStructure c); try (now apply agree_view_defaultFiles).
    destruct (negb (themesRequested context));
      [now apply agree_view_collectionFiles | now apply agree_view_defaultFiles]. }
  assert (Hthemes : forall tokens tokenGroups themesToApply,
             agree c (exportThemes (I := withView I view) context tokens tokenGroups
                        tokenCollections themesToApply)
                     (exportThemes (I := I) context tokens tokenGroups tokenCollections
                        themesToApply)).
  { intros tokens tokenGroups themesToApply. unfold exportThemes.
    apply agree_getConfiguration.
    remember (exportThemesAs c) as style eqn:Es in |- *.
    destruct style; [apply Hwithout | | |]; destruct (fileStructure c).
    - apply agree_view_separateFilesByType; [exact Hb | apply Ht; congruence].
    - apply agree_view_separateFilesSingleFile; [exact Hb | apply Ht; congruence].
    - apply agree_view_separateFilesByCollection; [exact Hb | apply Ht; congruence].
    - apply agree_view_mergedThemeByType; [exact Hb | apply Ht; congruence].
    - apply agree_view_mergedThemeSingleFile; [exact Hb | apply Ht; congruence].
    - apply agree_view_mergedThemeByCollection; [exact Hb | apply Ht; congruence].
    - apply agree_view_nestedThemesByType; [exact Hb | apply Hn; congruence].
    - apply agree_view_nestedThemesSingleFile; [exact Hb | apply Hn; congruence].
    - apply agree_view_nestedThemesByCollection; [exact Hb | apply Hn; congruence]. }
  assert (H : agree c
                (export (I := withView I view) allTokens allTokenGroups tokenCollections
                   brands themes context)
                (export (I := I) allTokens allTokenGroups tokenCollections brands themes
                   context)).
  { unfold export.
    destruct (filterByBrand_runs allTokens allTokenGroups brands context c)
      as [[_ [e Hr]] | [_ [p Hr]]];
      (eapply agree_bind_runs; [apply agree_refl | exact Hr |]); intro filtered; cbv zeta;
      (destruct (themesRequested context); [|apply Hwithout]);
      (destruct (resolveThemes_runs themes
                   (match themeIds context with Some ids => ids | None => [] end) c)
         as [[_ [e' Hr']] | [_ [ts Hr']]];
       (eapply agree_bind_runs; [apply agree_refl | exact Hr' |]); intro themesToApply;
       apply Hthemes). }
  now apply H.
Qed.

(** ** The properties on the sample design systems *)

(** C1 fails under nested themes when base values are not exported: the
    collection "Global" has a token, its un-themed document exists, and the
    export returns no document. *)
Lemma global_collection_without_document :
  isGlobalOrAlias (I := sampleImports) globalCollection = true /\
  Sample.combinedCollectionStyleOutputFile
    (sampleConfiguration NestedThemes SeparateByCollection false false)
    globalCollection [whiteToken] [colorGroup] "" None [globalCollection] =
  Some (createTextFile "./" "global.json" (Sample.stringify (Sample.treeOf [whiteToken]))) /\
  result (export (I := sampleImports) [whiteToken] [colorGroup] [globalCollection] []
            [factorTheme] (withThemes ["th-factor"])
            (sampleWorld (sampleConfiguration NestedThemes SeparateByCollection false false)))
  = Returned [].
Proof. repeat split; reflexivity. Qed.

(** C2 on a components collection with a "Button" group under "Light" and
    another under "Dark", no theme requested: both documents are returned,
    with the same path and the same name. *)
Theorem same_destination_twice_without_themes :
  result (export (I := sampleImports) [lightButtonToken; darkButtonToken] twoButtonGroups
            [componentsCollection] [] [] noThemes
            (sampleWorld (sampleConfiguration SeparateFiles SeparateByCollection true false)))
  = Returned
      [ createTextFile "./components" "button.json"
          (Sample.stringify (Sample.treeOf [lightButtonToken]));
        createTextFile "./components" "button.json"
          (Sample.stringify (Sample.treeOf [darkButtonToken])) ].
Proof. reflexivity. Qed.

(** C4 on a components collection and a theme that overrides none of its
    tokens, with [exportOnlyThemedTokens] set: the themed document of the
    "Button" group is returned all the same, with the base values. *)
Theorem themed_component_document_without_themed_token :
  Sample.filterThemedTokens [buttonToken] zestTheme = [] /\
  result (export (I := sampleImports) [buttonToken] [buttonGroup] [componentsCollection] []
            [zestTheme] (withThemes ["th-zest"])
            (sampleWorld (sampleConfiguration SeparateFiles SeparateByCollection true true)))
  = Returned
      [ createTextFile "./components" "button.json"
          (Sample.stringify (Sample.treeOf [buttonToken]));
        createTextFile "./brand/zest" "button.json"
          (Sample.stringify (Sample.treeOf [buttonToken]));
        createTextFile "./brand" "zest.json"
          (Sample.stringify (Sample.treeOf [buttonToken])) ].
Proof. split; reflexivity. Qed.

(** C5 on a components collection, no theme requested and
    [exportBaseValues] off: the by-collection structure returns the component
    document, where the by-type and single-file structures return nothing. *)
Theorem component_document_without_base_values :
  result (export (I := sampleImports) [buttonToken] [buttonGroup] [componentsCollection] []
            [] noThemes
            (sampleWorld (sampleConfiguration SeparateFiles SeparateByCollection false false)))
  = Returned
      [ createTextFile "./components" "button.json"
          (Sample.stringify (Sample.treeOf [buttonToken])) ] /\
  result (export (I := sampleImports) [buttonToken] [buttonGroup] [componentsCollection] []
            [] noThemes
            (sampleWorld (sampleConfiguration SeparateFiles SeparateByType false false)))
  = Returned [] /\
  result (export (I := sampleImports) [buttonToken] [buttonGroup] [componentsCollection] []
            [] noThemes
            (sampleWorld (sampleConfiguration SeparateFiles SingleFile false false)))
  = Returned [].
Proof. repeat split; reflexivity. Qed.

Lemma export_is_deterministic_witness :
  result (export (I := sampleImports) [lightButtonToken; darkButtonToken] twoButtonGroups
            [componentsCollection] [] [zestTheme] (withThemes ["th-zest"])
            (sampleWorld (sampleConfiguration SeparateFiles SeparateByCollection true false))) =
  result (export (I := sampleImports) [lightButtonToken; darkButtonToken] twoButtonGroups
            [componentsCollection] [] [zestTheme] (withThemes ["th-zest"])
            (zeroWorld (sampleConfiguration SeparateFiles SeparateByCollection true false))).
Proof.
  apply (@export_is_deterministic sampleImports). reflexivity.
Defined.

(** C9 fails in the nested-theme branches: in a run given
    [exportBaseValues = true], the themed call finds [false] on the shared
    configuration, and the document it writes says so. *)
Lemma themed_call_sees_base_values_off :
  result (withoutBaseValues (fun config => exportBaseValues config)
            (sampleWorld (sampleConfiguration NestedThemes SeparateByCollection true false)))
  = Returned false /\
  result (export (I := withCollectionFile sampleImports probeCollectionFile)
            [buttonToken] [buttonGroup] [componentsCollection] [] [zestTheme]
            (withThemes ["th-zest"])
            (sampleWorld (sampleConfiguration NestedThemes SeparateByCollection true false)))
  = Returned [ createTextFile "./" "Zest.json" "exportBaseValues: false" ].
Proof. split; reflexivity. Qed.

(** * Further properties of the two files *)

(** ** [uniqueFiles] *)

Section Deduplication.

Lemma includes_identifiers (seen : list OutputFile) (file : OutputFile) :
  includes (map fileIdentifier seen) (fileIdentifier file) =
  existsb (fun y => fileIdentifier file =? fileIdentifier y) seen.
Proof.
  unfold includes. induction seen as [|y seen IH]; cbn; [reflexivity|].
  now rewrite IH, (String.eqb_sym (fileIdentifier y)).
Qed.

Lemma firstPerIdentifier_same_seen files : forall seen seen',
  (forall k, includes seen k = includes seen' k) ->
  firstPerIdentifier seen files = firstPerIdentifier seen' files.
Proof.
  induction files as [|file rest IH]; intros seen seen' H; cbn [firstPerIdentifier];
    [reflexivity|].
  rewrite <- H. destruct (includes seen (fileIdentifier file)) eqn:E.
  - now apply IH.
  - f_equal. apply IH. intro k. unfold includes in *. cbn. now rewrite H.
Qed.

Lemma kept_scan files : forall seen,
  filterFrom (fun x index =>
                Z.eqb index (findIndex (fun y => fileIdentifier x =? fileIdentifier y)
                               (seen ++ files)))
             files (Z.of_nat (List.length seen)) =
  firstPerIdentifier (map fileIdentifier seen) files.
Proof.
  induction files as [|file rest IH]; intro seen; [reflexivity|].
  rewrite kept_cons. cbn [firstPerIdentifier]. rewrite includes_identifiers.
  rewrite IH. destruct (existsb _ seen) eqn:E.
  - apply firstPerIdentifier_same_seen. intro k.
    rewrite map_app. unfold includes. rewrite existsb_app. cbn.
    rewrite orb_false_r.
    destruct (fileIdentifier file =? k) eqn:Ek; [|now rewrite orb_false_r].
    apply String.eqb_eq in Ek. subst k. rewrite orb_true_r.
    rewrite <- includes_identifiers in E. symmetry. exact E.
  - f_equal. apply firstPerIdentifier_same_seen. intro k.
    rewrite map_app. unfold includes. rewrite existsb_app. cbn.
    rewrite orb_false_r. apply orb_comm.
Qed.

Lemma uniqueFiles_scan (allFiles : list OutputFile) :
  uniqueFiles allFiles = firstPerIdentifier [] allFiles.
Proof. rewrite uniqueFiles_kept. apply (kept_scan allFiles []). Qed.

(** X1: [uniqueFiles], written with [findIndex] inside [filter], is the one-pass
    scan that keeps the first file of each identifier. *)
Theorem uniqueFiles_is_first_per_identifier (allFiles : list OutputFile) :
  uniqueFiles allFiles = firstPerIdentifier [] allFiles.
Proof. apply uniqueFiles_scan. Qed.

(** X2: The files [uniqueFiles] returns have pairwise different identifiers. *)
Theorem uniqueFiles_distinct_identifiers (allFiles : list OutputFile) :
  NoDup (map fileIdentifier (uniqueFiles allFiles)).
Proof. apply uniqueFiles_NoDup. Qed.

(** X3: First wins: a file that [uniqueFiles] returns stands in the list before
    every other file with its identifier. *)
Theorem uniqueFiles_first_wins (allFiles : list OutputFile) (file : OutputFile) :
  In file (uniqueFiles allFiles) ->
  exists earlier later,
    allFiles = (earlier ++ file :: later)%list /\
    forall other, In other earlier -> fileIdentifier other <> fileIdentifier file.
Proof. apply uniqueFiles_first. Qed.

(** X4: No destination is lost: every identifier of the list is still the
    identifier of a returned file. *)
Theorem uniqueFiles_keeps_every_identifier (allFiles : list OutputFile) (file : OutputFile) :
  In file allFiles ->
  exists first, In first (uniqueFiles allFiles) /\
                fileIdentifier first = fileIdentifier file.
Proof. apply uniqueFiles_covers. Qed.

Lemma firstPerIdentifier_all files : forall seen,
  NoDup (map fileIdentifier files) ->
  (forall file, In file files -> includes seen (fileIdentifier file) = false) ->
  firstPerIdentifier seen files = files.
Proof.
  induction files as [|file rest IH]; intros seen Hn Hs; cbn [firstPerIdentifier];
    [reflexivity|].
  rewrite (Hs file (or_introl eq_refl)). f_equal.
  cbn [map] in Hn. apply NoDup_cons_iff in Hn. destruct Hn as [Hnot Hn].
  apply IH; [assumption|]. intros other Hin. unfold includes in *. cbn.
  rewrite (Hs other (or_intror Hin)). rewrite orb_false_r.
  apply String.eqb_neq. intro E. apply Hnot. rewrite E. now apply in_map.
Qed.

(** X5: A list without two files of the same identifier comes back unchanged. *)
Theorem uniqueFiles_without_collision (allFiles : list OutputFile) :
  NoDup (map fileIdentifier allFiles) -> uniqueFiles allFiles = allFiles.
Proof.
  intro H. rewrite uniqueFiles_scan.
  apply firstPerIdentifier_all; [assumption | reflexivity].
Qed.

End Deduplication.

(** ** The merge of base and theme files *)

Section NullsAndMerges.

Context {I : Imports}.

Lemma fold_mergeInto_nulls indent' (files : list (option OutputFile)) merged :
  (forall file, In file files -> file = None) ->
  fold_left (mergeInto indent') files merged = merged.
Proof.
  revert merged. induction files as [|file files IH]; intros merged H; [reflexivity|].
  cbn [fold_left]. rewrite (H file (or_introl eq_refl)). cbn [mergeInto].
  apply IH. intros file' Hin. apply H. now right.
Qed.

(** X6: The merge of base and theme files is null exactly when every file is. *)
Theorem merge_null_iff_all_null (files : list (option OutputFile)) (w : World) :
  result (mergeAll files w) = Returned None <-> forall file, In file files -> file = None.
Proof.
  unfold mergeAll. rewrite bind_getConfiguration_at. cbn [ret result].
  set (indent' := indent (exportConfiguration w)). split.
  - intro H.
    assert (H' : fold_left (mergeInto indent') files None = None) by congruence.
    clear H.
    assert (Hgen : forall files merged,
               fold_left (mergeInto indent') files merged = None ->
               merged = None /\ forall file, In file files -> file = None).
    { clear. induction files as [|file files IH]; intros merged H.
      - split; [exact H | intros file []].
      - cbn [fold_left] in H. apply IH in H. destruct H as [Hm Hf].
        destruct file as [f|].
        + destruct merged; discriminate.
        + cbn in Hm. split; [exact Hm|]. intros file [<- | Hin]; [reflexivity | now apply Hf]. }
    exact (proj2 (Hgen files None H')).
  - intro H. f_equal. now apply fold_mergeInto_nulls.
Qed.

(** X7: The merged file of files whose contents [JSON.stringify] wrote takes
    its path and its name from the last file that is not null, and is that
    file itself when no other file is there. *)
Theorem merge_named_after_last_file
    (before after : list (option OutputFile)) (last : OutputFile) (w : World) :
  (forall file, In (Some file) (before ++ [Some last])%list -> printed file) ->
  (forall file, In file after -> file = None) ->
  exists merged,
    result (mergeAll (before ++ Some last :: after) w) = Returned (Some merged) /\
    path merged = path last /\ name merged = name last /\
    ((forall file, In file before -> file = None) -> merged = last).
Proof.
  intros _ Hafter. unfold mergeAll. rewrite bind_getConfiguration_at. cbn [ret result].
  set (indent' := indent (exportConfiguration w)).
  rewrite fold_left_app. cbn [fold_left]. rewrite (fold_mergeInto_nulls _ _ _ Hafter).
  destruct (fold_left (mergeInto indent') before None) as [m|] eqn:E; cbn [mergeInto].
  - eexists. split; [reflexivity|]. cbn. split; [reflexivity|]. split; [reflexivity|].
    intro Hbefore. rewrite (fold_mergeInto_nulls indent' before None Hbefore) in E.
    discriminate.
  - exists last. repeat split; reflexivity.
Qed.

End NullsAndMerges.

(** ** The branches of the export *)

Section ExportBranches.

Context {I : Imports}.

Lemma mapM_length {A B} (f : A -> M B) (l : list A) : forall w ys w',
  mapM f l w = Returned (ys, w') -> List.length ys = List.length l.
Proof.
  induction l as [|x l IH]; intros w ys w' E; cbn [mapM] in E.
  - unfold ret in E. now inversion E.
  - unfold bind at 1 in E. destruct (f x w) as [[y w1]| |]; try discriminate.
    unfold bind at 1 in E. destruct (mapM f l w1) as [[ys1 w2]| |] eqn:E1; try discriminate.
    unfold ret in E. inversion E; subst. cbn. f_equal. eapply IH. eassumption.
Qed.

Lemma processOutputFiles_length {A} (l : list (option A)) :
  List.length (processOutputFiles l) <= List.length l.
Proof. induction l as [|[x|] l IH]; cbn; lia. Qed.

Lemma returns_themed_files {A} (f : TokenTheme -> ExporterConfiguration -> A)
    (themesToApply : list TokenTheme) c :
  exists files,
    runs (mapM (fun theme => withoutBaseValues (f theme)) themesToApply) c c (Returned files).
Proof. apply returns_mapM. intro theme. eexists. apply runs_withoutBaseValues. Qed.

Lemma returns_base_file {A} (f : ExporterConfiguration -> option A) c :
  exists file,
    runs (if exportBaseValues c then calling f else ret None) c c (Returned file).
Proof. destruct (exportBaseValues c); eexists; [apply runs_calling | apply runs_ret]. Qed.

Lemma returns_mergeAll files c : exists merged, runs (mergeAll files) c c (Returned merged).
Proof.
  unfold mergeAll. apply returns_bind; [eexists; apply runs_getConfiguration|].
  intro config. eexists. apply runs_ret.
Qed.

Lemma returns_nestedTypeFile tokens tokenGroups tokenCollections themesToApply c type :
  exists file,
    runs (nestedTypeFile tokens tokenGroups tokenCollections themesToApply type) c c
      (Returned file).
Proof.
  unfold nestedTypeFile. eapply returns_bind; [eexists; apply runs_getConfiguration|].
  intro config. cbv beta.
  destruct (exportBaseValues config);
    (apply returns_bind; [eexists; first [apply runs_calling | apply runs_ret]|]);
    intro baseFile;
    (apply returns_bind;
     [apply (returns_themed_files
               (fun theme c' =>
                  styleOutputFile c' type
                    (computeTokensByApplyingThemes tokens tokens [theme]) tokenGroups ""
                    (Some theme) tokenCollections))|]);
    intro themeFiles; apply returns_mergeAll.
Qed.

Lemma nested_themes_partitions
    (tokens : list Token) (tokenGroups : list TokenGroup)
    (tokenCollections : list DesignSystemCollection) (themesToApply : list TokenTheme)
    (w : World) :
  (exists files,
     result (nestedThemesSingleFile tokens tokenGroups tokenCollections themesToApply w)
       = Returned files /\ List.length files <= 1) /\
  (exists files,
     result (nestedThemesByCollection tokens tokenGroups tokenCollections themesToApply w)
       = Returned files /\
     List.length files <= List.length (collectionsWithTokens tokens tokenCollections)) /\
  (exists files,
     result (nestedThemesByType tokens tokenGroups tokenCollections themesToApply w)
       = Returned files /\
     List.length files <= List.length allTokenTypes).
Proof.
  set (c := exportConfiguration w). split; [|split].
  - assert (H : exists files,
               runs (nestedThemesSingleFile tokens tokenGroups tokenCollections themesToApply)
                 c c (Returned files) /\ List.length files <= 1).
    { unfold nestedThemesSingleFile.
      destruct (returns_base_file
                  (fun c' => combinedStyleOutputFile c' tokens tokenGroups "" None
                               tokenCollections) c) as [baseFile Hb].
      destruct (returns_themed_files
                  (fun theme c' =>
                     combinedStyleOutputFile c'
                       (computeTokensByApplyingThemes tokens tokens [theme]) tokenGroups ""
                       (Some theme) tokenCollections) themesToApply c) as [themeFiles Ht].
      destruct (returns_mergeAll (baseFile :: themeFiles) c) as [merged Hm].
      exists (processOutputFiles [merged]). split.
      - eapply runs_bind; [apply runs_getConfiguration|]. cbv beta.
        eapply runs_bind; [exact Hb|]. eapply runs_bind; [exact Ht|].
        eapply runs_bind; [exact Hm | apply runs_ret].
      - destruct merged; cbn; lia. }
    destruct H as [files [Hr Hl]]. exists files. split; [|exact Hl].
    now destruct (Hr w eq_refl).
  - unfold nestedThemesByCollection.
    destruct (returns_mapM
                (nestedCollectionFile tokens tokenGroups tokenCollections themesToApply)
                (collectionsWithTokens tokens tokenCollections) (c := c)
                (returns_nestedCollectionFile tokens tokenGroups tokenCollections
                   themesToApply c)) as [ys Hys].
    destruct (runs_Returned_at w Hys eq_refl) as [w' [E _]].
    exists (processOutputFiles ys). unfold bind. rewrite E. split; [reflexivity|].
    rewrite <- (mapM_length _ _ _ E). apply processOutputFiles_length.
  - unfold nestedThemesByType.
    destruct (returns_mapM
                (nestedTypeFile tokens tokenGroups tokenCollections themesToApply)
                allTokenTypes (c := c)
                (returns_nestedTypeFile tokens tokenGroups tokenCollections
                   themesToApply c)) as [ys Hys].
    destruct (runs_Returned_at w Hys eq_refl) as [w' [E _]].
    exists (processOutputFiles ys). unfold bind. rewrite E. split; [reflexivity|].
    rewrite <- (mapM_length _ _ _ E). apply processOutputFiles_length.
Qed.


End ExportBranches.

(** ** The export as a whole *)

Section ExportEdges.

Context {I : Imports}.

Variables (allTokens : list Token) (allTokenGroups : list TokenGroup)
  (tokenCollections : list DesignSystemCollection) (brands : list Brand)
  (themes : list TokenTheme).

Lemma filterByBrand_returns context w :
  ~ brandUnknown brands context ->
  exists p, filterByBrand allTokens allTokenGroups brands context w = Returned (p, w).
Proof.
  intro Hb. unfold filterByBrand.
  destruct (truthy (brandId context)) eqn:Et; [|eexists; reflexivity].
  destruct (brandId context) as [id|] eqn:Eb; [|discriminate].
  rewrite truthy_Some in Et. apply negb_true_iff in Et. apply String.eqb_neq in Et.
  destruct (findBrand brands id) as [brand|] eqn:Ef; [eexists; reflexivity|].
  exfalso. apply Hb. exists id. split; [exact Eb|]. split; [exact Et|].
  now apply findBrand_None.
Qed.

Lemma resolveThemes_returns ids w :
  (forall id, In id ids -> findTheme themes id <> None) ->
  exists themesToApply,
    mapM (resolveTheme themes) ids w = Returned (themesToApply, w) /\
    List.length themesToApply = List.length ids.
Proof.
  induction ids as [|id ids IH]; intro Hall; cbn [mapM].
  - exists []. split; reflexivity.
  - destruct IH as [ts [E El]]; [intros id' Hin; apply Hall; now right|].
    unfold bind at 1, resolveTheme at 1.
    destruct (findTheme themes id) as [theme|] eqn:Ef.
    + exists (theme :: ts). unfold ret at 1. unfold bind. rewrite E. split; [reflexivity|].
      cbn. now rewrite El.
    + exfalso. apply (Hall id); [now left | exact Ef].
Qed.

Lemma resolveThemes_first_unknown known id rest w :
  (forall k, In k known -> findTheme themes k <> None) ->
  findTheme themes id = None ->
  mapM (resolveTheme themes) (known ++ id :: rest)%list w
  = Thrown ("Unable to find theme " ++ id).
Proof.
  intros Hknown Hid. induction known as [|k known IH]; cbn [app mapM].
  - unfold bind, resolveTheme. now rewrite Hid.
  - unfold bind at 1, resolveTheme at 1.
    destruct (findTheme themes k) as [theme|] eqn:Ef.
    + unfold ret at 1. unfold bind at 1. rewrite IH; [reflexivity|].
      intros k' Hin. apply Hknown. now right.
    + exfalso. apply (Hknown k); [now left | exact Ef].
Qed.

Lemma known_themes context ids :
  ~ themeUnknown themes context -> themeIds context = Some ids ->
  forall id, In id ids -> findTheme themes id <> None.
Proof.
  intros Ht Ei id Hin Hn. apply Ht. exists ids, id. split; [exact Ei|].
  split; [exact Hin|]. now apply findTheme_None.
Qed.

(** What holds of every way the export can end holds of the export. *)
Lemma export_cases context w (P : Outcome (list OutputFile) -> Prop) :
  (forall e, P (Thrown e)) ->
  (forall tokens tokenGroups themesToApply,
     themesRequested context = true ->
     P (result (exportThemes context tokens tokenGroups tokenCollections themesToApply w))) ->
  (forall tokens tokenGroups,
     themesRequested context = false ->
     P (result (withoutThemeFiles context tokens tokenGroups tokenCollections w))) ->
  P (result (export allTokens allTokenGroups tokenCollections brands themes context w)).
Proof.
  intros He Ht Hn. unfold export.
  destruct (filterByBrand_runs allTokens allTokenGroups brands context (exportConfiguration w))
    as [[Hb [e Hr]] | [Hb _]].
  - destruct (Hr w eq_refl) as [Hres _]. unfold bind at 1.
    destruct (filterByBrand _ _ _ _ w) as [[p w']| e' |]; simpl in Hres; inversion Hres.
    apply He.
  - destruct (filterByBrand_returns w Hb) as [p Ep]. unfold bind at 1. rewrite Ep.
    cbv zeta. destruct (themesRequested context) eqn:Er; [|now apply Hn].
    destruct (resolveThemes_runs themes
                (match themeIds context with Some ids => ids | None => [] end)
                (exportConfiguration w)) as [[_ [e Hr]] | [Hall _]].
    + destruct (Hr w eq_refl) as [Hres _]. unfold bind at 1.
      destruct (mapM _ _ w) as [[ts w']| e' |]; simpl in Hres; inversion Hres. apply He.
    + destruct (resolveThemes_returns _ w Hall) as [ts [Ets _]]. unfold bind at 1.
      rewrite Ets. now apply Ht.
Qed.

(** X9: A request for a brand that no loaded brand answers to, by its id or by
    its id in the version, ends the export with the message that names the
    brand, whatever themes are requested and whether they exist or not. *)
Theorem unknown_brand_is_reported (context : PulsarContext) (id : string) (w : World) :
  brandId context = Some id -> id <> "" -> findBrand brands id = None ->
  export allTokens allTokenGroups tokenCollections brands themes context w
  = Thrown ("Unable to find brand " ++ id ++ ".").
Proof.
  intros Hb Hid Hf. unfold export, bind, filterByBrand. rewrite Hb, truthy_Some.
  apply String.eqb_neq in Hid. rewrite Hid. cbn [negb]. now rewrite Hf.
Qed.

(** X10: When the brand lookup succeeds, the export ends with the message that
    names the first requested theme, in the order of the request, that no
    loaded theme answers to. *)
Theorem first_unknown_theme_is_reported
    (context : PulsarContext) (known rest : list string) (id : string) (w : World) :
  ~ brandUnknown brands context ->
  themeIds context = Some (known ++ id :: rest)%list ->
  (forall k, In k known -> findTheme themes k <> None) ->
  findTheme themes id = None ->
  export allTokens allTokenGroups tokenCollections brands themes context w
  = Thrown ("Unable to find theme " ++ id).
Proof.
  intros Hb Hi Hknown Hid. unfold export.
  destruct (filterByBrand_returns w Hb) as [p Ep]. unfold bind at 1. rewrite Ep. cbv zeta.
  assert (Er : themesRequested context = true).
  { unfold themesRequested. rewrite Hi. now destruct known. }
  rewrite Er, Hi. unfold bind. now rewrite resolveThemes_first_unknown.
Qed.

(** X11: An empty list of theme ids is the same request as no list of theme ids. *)
Theorem empty_theme_list_is_no_theme (context context' : PulsarContext) (w : World) :
  brandId context = brandId context' ->
  themeIds context = Some [] -> themeIds context' = None ->
  export allTokens allTokenGroups tokenCollections brands themes context w =
  export allTokens allTokenGroups tokenCollections brands themes context' w.
Proof.
  intros Hb H1 H2.
  unfold export, filterByBrand, withoutThemeFiles, themesRequested.
  now rewrite Hb, H1, H2.
Qed.

(** X12: The export for a brand is the export, without brand, of the tokens and
    groups whose [brandId] is the [id] of the brand found, also when the
    brand was found by its id in the version. *)
Theorem export_of_brand_is_export_of_its_tokens
    (context : PulsarContext) (id : string) (brand : Brand) (w : World) :
  brandId context = Some id -> id <> "" -> findBrand brands id = Some brand ->
  export allTokens allTokenGroups tokenCollections brands themes context w =
  export (filter (fun token => token_brandId token =? brand_id brand) allTokens)
         (filter (fun tokenGroup => group_brandId tokenGroup =? brand_id brand)
                 allTokenGroups)
         tokenCollections brands themes (withoutBrand context) w.
Proof.
  intros Hb Hid Hf. unfold export, bind at 1 3, filterByBrand.
  rewrite Hb, truthy_Some. apply String.eqb_neq in Hid. rewrite Hid. cbn [negb].
  rewrite Hf. cbn [withoutBrand brandId truthy themeIds ret fst snd].
  change (themesRequested (withoutBrand context)) with (themesRequested context).
  destruct (themesRequested context).
  - unfold bind. now destruct (mapM _ _ w) as [[ts w']| |].
  - reflexivity.
Qed.

(** X13: With [exportBaseValues] off the export writes nothing at all when no
    theme is requested and the structure is not by collection, and nothing
    at all when the themes are applied directly, whatever the structure. *)
Theorem nothing_exported_without_base_values (context : PulsarContext) (w : World) :
  ~ brandUnknown brands context -> ~ themeUnknown themes context ->
  exportBaseValues (exportConfiguration w) = false ->
  (themesRequested context = false /\
   fileStructure (exportConfiguration w) <> SeparateByCollection) \/
  (themesRequested context = true /\
   exportThemesAs (exportConfiguration w) = ApplyDirectly) ->
  result (export allTokens allTokenGroups tokenCollections brands themes context w)
  = Returned [].
Proof.
  intros Hb Ht Hv Hc. unfold export.
  destruct (filterByBrand_returns w Hb) as [p Ep]. unfold bind at 1. rewrite Ep. cbv zeta.
  destruct Hc as [[Er Hs] | [Er Ha]]; rewrite Er.
  - unfold withoutThemeFiles, defaultFiles. rewrite !bind_getConfiguration_at.
    destruct (fileStructure (exportConfiguration w)); try contradiction;
      rewrite ?bind_getConfiguration_at, Hv; try reflexivity.
    all: destruct (fileStructure (exportConfiguration w)); reflexivity.
  - unfold themesRequested in Er.
    destruct (themeIds context) as [ids|] eqn:Ei; [|discriminate].
    destruct (resolveThemes_returns _ w (known_themes Ht Ei)) as [ts [Ets _]].
    unfold bind at 1. rewrite Ets.
    unfold exportThemes. rewrite bind_getConfiguration_at, Ha.
    unfold withoutThemeFiles, defaultFiles, themesRequested.
    rewrite !bind_getConfiguration_at, Ei.
    destruct ids; [discriminate|]. cbn [negb].
    destruct (fileStructure (exportConfiguration w));
      rewrite ?bind_getConfiguration_at, Hv; try reflexivity.
    all: destruct (fileStructure (exportConfiguration w)); reflexivity.
Qed.

(** X14: With at least one theme and the themes applied directly, the export is
    the default export of the overlaid tokens: one combined file for a
    single file, and one file per token type for both other structures, the
    by-collection structure included. *)
Theorem apply_directly_exports_by_type
    (context : PulsarContext) (ids : list string) (w : World) :
  ~ brandUnknown brands context -> ~ themeUnknown themes context ->
  themeIds context = Some ids -> ids <> [] ->
  exportThemesAs (exportConfiguration w) = ApplyDirectly ->
  exists tokens tokenGroups themesToApply,
    filterByBrand allTokens allTokenGroups brands context w
      = Returned ((tokens, tokenGroups), w) /\
    mapM (resolveTheme themes) ids w = Returned (themesToApply, w) /\
    export allTokens allTokenGroups tokenCollections brands themes context w =
    defaultFiles (computeTokensByApplyingThemes tokens tokens themesToApply) tokenGroups
      tokenCollections w.
Proof.
  intros Hb Ht Ei Hne Ha.
  destruct (filterByBrand_returns w Hb) as [[tokens tokenGroups] Ep].
  destruct (resolveThemes_returns _ w (known_themes Ht Ei)) as [ts [Ets _]].
  exists tokens, tokenGroups, ts. split; [exact Ep|]. split; [exact Ets|].
  unfold export. unfold bind at 1. rewrite Ep. cbv zeta. cbn [fst snd].
  assert (Er : themesRequested context = true).
  { unfold themesRequested. rewrite Ei. destruct ids; [contradiction | reflexivity]. }
  rewrite Er, Ei. unfold bind at 1. rewrite Ets.
  unfold exportThemes. rewrite bind_getConfiguration_at, Ha.
  unfold withoutThemeFiles. rewrite bind_getConfiguration_at, Er. cbn [negb].
  now destruct (fileStructure (exportConfiguration w)).
Qed.

Ltac run_bind :=
  unfold bind at 1;
  match goal with
  | |- context [match ?m with Returned _ => _ | Thrown _ => _ | Diverged => _ end] =>
      destruct m as [[? ?]| |]
  end.

Lemma separateFilesByCollection_distinct tokens tokenGroups themesToApply w files :
  result (separateFilesByCollection tokens tokenGroups tokenCollections themesToApply w)
    = Returned files ->
  NoDup (map fileIdentifier files).
Proof.
  unfold separateFilesByCollection. rewrite bind_getConfiguration_at. cbv zeta.
  run_bind; try discriminate. run_bind; try discriminate.
  unfold ret. cbn [result]. intro H. inversion H.
  rewrite processOutputFiles_Some. apply uniqueFiles_NoDup.
Qed.

(** X15: Under separate theme files in the by-collection structure no two of the
    exported files have the same path and name, whatever the collections,
    groups and themes are called. *)
Theorem separate_collection_files_have_distinct_destinations
    (context : PulsarContext) (w : World) (files : list OutputFile) :
  themesRequested context = true ->
  exportThemesAs (exportConfiguration w) = SeparateFiles ->
  fileStructure (exportConfiguration w) = SeparateByCollection ->
  result (export allTokens allTokenGroups tokenCollections brands themes context w)
    = Returned files ->
  NoDup (map fileIdentifier files).
Proof.
  intros Er Ha Hs. revert files.
  apply (export_cases context w
           (fun o => forall files, o = Returned files -> NoDup (map fileIdentifier files))).
  - intros e files H. discriminate.
  - intros tokens tokenGroups ts _ files. unfold exportThemes.
    rewrite bind_getConfiguration_at, Ha, Hs.
    apply separateFilesByCollection_distinct.
  - intros tokens tokenGroups Er'. congruence.
Qed.

Lemma defaultFiles_returns tokens tokenGroups w :
  result (defaultFiles tokens tokenGroups tokenCollections w) <> Diverged.
Proof.
  unfold defaultFiles. rewrite bind_getConfiguration_at.
  now destruct (fileStructure (exportConfiguration w)).
Qed.

(** X16: The export can only fail to return through the ancestor loop of the
    component files, which it reaches in the by-collection structure alone,
    and there only without themes or with separate theme files: for every
    other configuration and every input whose brand and themes exist it
    returns its files. *)
Theorem export_returns_without_component_files (context : PulsarContext) (w : World) :
  ~ brandUnknown brands context -> ~ themeUnknown themes context ->
  fileStructure (exportConfiguration w) <> SeparateByCollection \/
  (themesRequested context = true /\
   exportThemesAs (exportConfiguration w) <> SeparateFiles) ->
  exists files,
    result (export allTokens allTokenGroups tokenCollections brands themes context w)
    = Returned files.
Proof.
  intros Hb Ht Hc.
  assert (Hd : result (export allTokens allTokenGroups tokenCollections brands themes
                         context w) <> Diverged).
  { apply (export_cases context w (fun o => o <> Diverged)).
    - discriminate.
    - intros tokens tokenGroups ts Er. unfold exportThemes.
      rewrite bind_getConfiguration_at.
      destruct (exportThemesAs (exportConfiguration w)) eqn:Ea.
      + unfold withoutThemeFiles. rewrite bind_getConfiguration_at, Er. cbn [negb].
        destruct (fileStructure (exportConfiguration w)); apply defaultFiles_returns.
      + destruct (fileStructure (exportConfiguration w)) eqn:Es.
        * unfold separateFilesByType. now rewrite bind_getConfiguration_at.
        * unfold separateFilesSingleFile. now rewrite bind_getConfiguration_at.
        * exfalso. destruct Hc as [Hc | [_ Hc]]; now apply Hc.
      + destruct (fileStructure (exportConfiguration w)).
        * unfold mergedThemeByType. now rewrite bind_getConfiguration_at.
        * unfold mergedThemeSingleFile. now rewrite bind_getConfiguration_at.
        * unfold mergedThemeByCollection. now rewrite bind_getConfiguration_at.
      + destruct (nested_themes_partitions tokens tokenGroups tokenCollections ts w)
          as [[f1 [H1 _]] [[f2 [H2 _]] [f3 [H3 _]]]].
        destruct (fileStructure (exportConfiguration w)); congruence.
    - intros tokens tokenGroups Er. unfold withoutThemeFiles.
      rewrite bind_getConfiguration_at, Er. cbn [negb].
      destruct (fileStructure (exportConfiguration w)) eqn:Es;
        try apply defaultFiles_returns.
      exfalso. destruct Hc as [Hc | [Hc _]]; [now apply Hc | congruence]. }
  destruct (export_outcome allTokens allTokenGroups tokenCollections brands themes context
              (exportConfiguration w)) as [o [Ho Hiff]].
  destruct (Ho w eq_refl) as [Hr _]. rewrite Hr in Hd |- *.
  destruct o as [files | e |].
  - now exists files.
  - exfalso. assert (H : exists e', Thrown (A := list OutputFile) e = Thrown e')
      by now exists e.
    apply Hiff in H. destruct H; contradiction.
  - contradiction.
Qed.

End ExportEdges.

(** ** The files of a components collection *)

Section Grouping.

Context {I : Imports}.

Variable tokenGroups : list TokenGroup.

Lemma Map_has_In {V} (m : JsMap V) (k : string) :
  Map_has m k = true <-> exists v, In (k, v) m.
Proof.
  unfold Map_has. rewrite existsb_exists. split.
  - intros [[k' v] [Hin E]]. cbn in E. apply String.eqb_eq in E. subst k'. now exists v.
  - intros [v Hin]. exists (k, v). split; [exact Hin|]. cbn. apply String.eqb_refl.
Qed.

Lemma Map_has_absent {V} (m : JsMap V) (k k' : string) (v : V) :
  Map_has m k = false -> In (k', v) m -> (k' =? k) = false.
Proof.
  intros Hh Hin. destruct (k' =? k) eqn:E; [|reflexivity].
  apply String.eqb_eq in E. subst k'.
  assert (H : Map_has m k = true) by (apply Map_has_In; now exists v). congruence.
Qed.

Lemma Map_push_absent {V} (m : JsMap (list V)) (k : string) (x : V) :
  Map_has m k = false -> Map_push m k x = m.
Proof.
  intro Hh. unfold Map_push. rewrite <- (map_id m) at 2. apply map_ext_in.
  intros [k' v] Hin. cbn [fst snd]. now rewrite (@Map_has_absent _ _ _ _ _ Hh Hin).
Qed.

Lemma Map_push_In {V} (m : JsMap (list V)) (k k' : string) (x : V) (vs : list V) :
  In (k', vs) (Map_push m k x) <->
  exists vs0, In (k', vs0) m /\ vs = if k' =? k then (vs0 ++ [x])%list else vs0.
Proof.
  unfold Map_push. rewrite in_map_iff. split.
  - intros [[k0 vs0] [E Hin]]. cbn [fst snd] in E. exists vs0.
    destruct (k0 =? k) eqn:Ek; inversion E; subst; rewrite ?Ek; now split.
  - intros [vs0 [Hin ->]]. exists (k', vs0). split; [|exact Hin].
    cbn [fst snd]. now destruct (k' =? k).
Qed.

Lemma filter_snoc {A} (f : A -> bool) (l : list A) (x : A) :
  filter f (l ++ [x])%list = (filter f l ++ if f x then [x] else [])%list.
Proof. rewrite filter_app. cbn. now destruct (f x). Qed.

Lemma groupedBy_skip done m token :
  (forall key, filedUnder tokenGroups key token = false) ->
  groupedBy tokenGroups done m -> groupedBy tokenGroups (done ++ [token])%list m.
Proof.
  intros Hf [Hnd Hm]. split; [exact Hnd|]. intros key ts.
  rewrite filter_snoc, Hf, app_nil_r. apply Hm.
Qed.

Lemma groupedBy_push done m token componentGroupId :
  (forall key, filedUnder tokenGroups key token = (componentGroupId =? key)) ->
  groupedBy tokenGroups done m ->
  groupedBy tokenGroups (done ++ [token])%list
    (Map_push (if negb (Map_has m componentGroupId)
               then Map_set m componentGroupId []
               else m)
              componentGroupId token).
Proof.
  intros Hf [Hnd Hm]. destruct (Map_has m componentGroupId) eqn:Hh; cbn [negb].
  - split; [now rewrite Map_push_keys|]. intros key ts.
    rewrite Map_push_In, filter_snoc, Hf. split.
    + intros [ts0 [Hin ->]]. apply Hm in Hin. destruct Hin as [Hne Hts].
      destruct (key =? componentGroupId) eqn:Ek.
      * apply String.eqb_eq in Ek. subst key. rewrite String.eqb_refl.
        split; [now destruct ts0 | now rewrite <- Hts].
      * rewrite String.eqb_sym, Ek, app_nil_r. now split.
    + intros [Hne ->]. destruct (componentGroupId =? key) eqn:Ek.
      * apply String.eqb_eq in Ek. subst key.
        apply Map_has_In in Hh. destruct Hh as [v Hv].
        exists v. split; [exact Hv|]. rewrite String.eqb_refl.
        apply Hm in Hv. destruct Hv as [_ Hv]. now rewrite <- Hv.
      * rewrite app_nil_r in Hne |- *.
        exists (filter (filedUnder tokenGroups key) done). split.
        -- apply Hm. now split.
        -- now rewrite String.eqb_sym, Ek.
  - assert (Hnone : filter (filedUnder tokenGroups componentGroupId) done = []).
    { destruct (filter (filedUnder tokenGroups componentGroupId) done) as [|x l] eqn:E;
        [reflexivity|].
      assert (Hin : In (componentGroupId, x :: l) m).
      { apply Hm. split; [discriminate | now rewrite E]. }
      assert (H : Map_has m componentGroupId = true)
        by (apply Map_has_In; now exists (x :: l)).
      congruence. }
    unfold Map_set. rewrite Hh. unfold Map_push at 1. rewrite map_app.
    fold (Map_push m componentGroupId token). rewrite Map_push_absent by exact Hh.
    cbn [map fst snd app]. rewrite String.eqb_refl. split.
    + rewrite map_app. cbn [map fst]. apply NoDup_app; [exact Hnd | | ].
      * constructor; [intros [] | constructor].
      * intros key Hin [<- | []]. apply in_map_iff in Hin.
        destruct Hin as [[k' v] [E Hin]]. cbn in E. subst k'.
        pose proof (@Map_has_absent _ _ _ _ _ Hh Hin) as Hk.
        rewrite String.eqb_refl in Hk. discriminate.
    + intros key ts. rewrite in_app_iff, filter_snoc, Hf. split.
      * intros [Hin | [E | []]].
        -- pose proof (@Map_has_absent _ _ _ _ _ Hh Hin) as Hk.
           rewrite String.eqb_sym, Hk, app_nil_r. now apply Hm.
        -- inversion E; subst. rewrite String.eqb_refl, Hnone. split; [discriminate|].
           reflexivity.
      * intros [Hne ->]. destruct (componentGroupId =? key) eqn:Ek.
        -- apply String.eqb_eq in Ek. subst key. rewrite Hnone. right. now left.
        -- rewrite app_nil_r in Hne |- *. left. apply Hm. now split.
Qed.

Lemma groupByComponent_groupedBy rest : forall done m0 m,
  groupedBy tokenGroups done m0 ->
  groupByComponent tokenGroups rest m0 = Some m ->
  groupedBy tokenGroups (done ++ rest)%list m.
Proof.
  induction rest as [|token rest IH]; intros done m0 m Hg E; cbn [groupByComponent] in E.
  - inversion E; subst. now rewrite app_nil_r.
  - replace (done ++ token :: rest)%list with ((done ++ [token]) ++ rest)%list
      by now rewrite <- app_assoc.
    destruct (token_parentGroupId token) as [parent|] eqn:Ep.
    + destruct (parent =? "") eqn:Ee.
      * apply (IH _ m0); [|exact E]. apply groupedBy_skip; [|exact Hg].
        intro key. unfold filedUnder. now rewrite Ep, Ee.
      * destruct (findComponentGroup tokenGroups parent) as [componentGroupId|] eqn:Ef;
          [|discriminate].
        eapply IH; [|exact E]. apply groupedBy_push; [|exact Hg].
        intro key. unfold filedUnder. now rewrite Ep, Ee, Ef.
    + apply (IH _ m0); [|exact E]. apply groupedBy_skip; [|exact Hg].
      intro key. unfold filedUnder. now rewrite Ep.
Qed.

Lemma groupByComponent_grouped tokens m :
  groupByComponent tokenGroups tokens [] = Some m -> groupedBy tokenGroups tokens m.
Proof.
  intro E. apply (groupByComponent_groupedBy tokens (done := []) (m0 := [])); [|exact E].
  split; [constructor|]. intros key ts. cbn. split; [intros [] | intros [Hne ->]].
  now apply Hne.
Qed.

(** X17: When every ancestor loop exits, the [Map] of component groups splits
    the tokens that have a parent group: its keys are distinct, and a key
    holds exactly the tokens whose ancestor loop ends with it, in token
    order, so no entry is empty and no token is filed twice. *)
Theorem tokens_are_split_by_component_group
    (tokens : list Token) (tokensByComponentGroup : JsMap (list Token)) :
  groupByComponent tokenGroups tokens [] = Some tokensByComponentGroup ->
  NoDup (map fst tokensByComponentGroup) /\
  forall key groupTokens,
    In (key, groupTokens) tokensByComponentGroup <->
    groupTokens <> [] /\ groupTokens = filter (filedUnder tokenGroups key) tokens.
Proof. apply groupByComponent_grouped. Qed.

Lemma In_processOutputFiles_iff {A} (x : A) (l : list (option A)) :
  In x (processOutputFiles l) <-> In (Some x) l.
Proof.
  induction l as [|[y|] l IH]; cbn [processOutputFiles In].
  - reflexivity.
  - rewrite IH. split; (intros [H | H]; [left; congruence | now right]).
  - rewrite IH. split; [now right | intros [H | H]; [discriminate | exact H]].
Qed.

(** X18: The files of a components collection, when every ancestor loop exits:
    one in [./components] for each group that exists, that some token of
    the collection is filed under, and whose tokens give a tree; it is named
    after the group and holds the tree of the tokens filed under the group. *)
Theorem component_files_are_the_files_of_the_groups
    (config : ExporterConfiguration) (collection : DesignSystemCollection)
    (tokens : list Token) (themePath : string)
    (collections : list DesignSystemCollection) (files : list OutputFile) :
  componentGroupFiles config collection tokens tokenGroups themePath None collections
    = Some files ->
  forall file,
    In file files <->
    exists groupId parentGroup tokenObject,
      let groupTokens :=
        filter (filedUnder tokenGroups groupId) (filter (inCollection collection) tokens) in
      groupTokens <> [] /\
      findGroup tokenGroups groupId = Some parentGroup /\
      processTokensToObject config groupTokens tokenGroups None collections tokens
        = Some tokenObject /\
      file = createTextFile "./components"
               (if negb (themePath =? "")
                then codeSafeVariableName (group_name parentGroup) kebabCase
                       ++ "." ++ themePath ++ ".json"
                else codeSafeVariableName (group_name parentGroup) kebabCase ++ ".json")
               (JSON_stringify tokenObject (indent config)).
Proof.
  unfold componentGroupFiles.
  destruct (groupByComponent tokenGroups (filter (inCollection collection) tokens) [])
    as [m|] eqn:E; [|discriminate].
  intro H. inversion H as [Hfiles]. clear H Hfiles.
  destruct (groupByComponent_grouped _ E) as [_ Hm].
  intro file. rewrite In_processOutputFiles_iff, in_map_iff. cbv zeta. split.
  - intros [[k ts] [Hfile Hin]]. apply Hm in Hin. destruct Hin as [Hne Hts].
    unfold componentGroupFile in Hfile. cbn [fst snd] in Hfile.
    destruct (findGroup tokenGroups k) as [group|] eqn:Eg; [|discriminate].
    destruct (processTokensToObject config ts tokenGroups None collections tokens)
      as [tree|] eqn:Et; [|discriminate].
    exists k, group, tree. rewrite <- Hts. inversion Hfile. now repeat split.
  - intros [k [group [tree [Hne [Eg [Et ->]]]]]].
    exists (k, filter (filedUnder tokenGroups k) (filter (inCollection collection) tokens)).
    split.
    + unfold componentGroupFile. cbn [fst snd]. now rewrite Eg, Et.
    + apply Hm. now split.
Qed.

End Grouping.

(** ** The kinds of collections *)

Section Kinds.

Context {I : Imports}.

(** X19: The four filters of the separate-files branch split the collections:
    every collection passes exactly one of global-or-alias, components,
    brand and other; the filter of the other base files lets the brand and
    the other collections pass, and no more. *)
Theorem collection_kinds_are_disjoint (collection : DesignSystemCollection) :
  (isGlobalOrAlias collection && isComponents collection = false) /\
  (isGlobalOrAlias collection && isBrand collection = false) /\
  (isComponents collection && isBrand collection = false) /\
  isOther collection
    = negb (isGlobalOrAlias collection || isComponents collection || isBrand collection) /\
  isNotGlobalAliasComponents collection = isBrand collection || isOther collection.
Proof.
  unfold isGlobalOrAlias, isComponents, isBrand, isOther, isNotGlobalAliasComponents.
  cbv zeta. generalize (kebabName collection). intro n.
  destruct (n =? "global") eqn:E1;
    [apply String.eqb_eq in E1; subst n; repeat split; reflexivity|].
  destruct (n =? "alias") eqn:E2;
    [apply String.eqb_eq in E2; subst n; repeat split; reflexivity|].
  destruct (n =? "components") eqn:E3;
    [apply String.eqb_eq in E3; subst n; repeat split; reflexivity|].
  destruct (n =? "component") eqn:E4;
    [apply String.eqb_eq in E4; subst n; repeat split; reflexivity|].
  cbn [negb orb andb].
  destruct (String.prefix "brand-" n); destruct (includes brandNames n);
    repeat split; reflexivity.
Qed.

End Kinds.

(** ** The name of a themed component file *)

Section ThemedNames.

Context {I : Imports}.

Lemma replace_json_suffix (n : string) :
  dotFree n = true -> replace ".json" "" (n ++ ".json") = n.
Proof.
  induction n as [|c n IH]; intro H; [reflexivity|].
  cbn [dotFree] in H. apply andb_true_iff in H. destruct H as [Hc Hn].
  apply negb_true_iff in Hc.
  change (String c n ++ ".json") with (String c (n ++ ".json")).
  cbn [replace String.prefix]. 
  destruct (ascii_dec "." c) as [<- | Hneq]; [now rewrite Ascii.eqb_refl in Hc|].
  cbn. f_equal. now apply IH.
Qed.

(** X20: A themed component file goes to the directory of its theme under the
    name of the base file it is made for, when that name is a name without
    dots followed by [.json]. *)
Theorem themed_component_file_keeps_name
    (tokens : list Token) (tokenGroups : list TokenGroup)
    (tokenCollections : list DesignSystemCollection) (config : ExporterConfiguration)
    (theme : TokenTheme) (themedTokens : list Token) (themeName : string)
    (collection : DesignSystemCollection) (baseFile themedFile : OutputFile)
    (componentName : string) :
  name baseFile = Some (componentName ++ ".json") ->
  dotFree componentName = true -> componentName <> "" ->
  themedComponentFile tokens tokenGroups tokenCollections config theme themedTokens
    themeName collection baseFile = Some themedFile ->
  path themedFile = "./brand/" ++ themeName /\ name themedFile = name baseFile.
Proof.
  intros Hn Hd Hne. unfold themedComponentFile, componentNameOf.
  rewrite Hn, replace_json_suffix by exact Hd.
  apply String.eqb_neq in Hne. rewrite Hne.
  destruct (processTokensToObject _ _ _ _ _ _); [|discriminate].
  intro H. inversion H. now split.
Qed.

End ThemedNames.

(** ** The further properties on the sample design systems *)

Lemma uniqueFiles_first_wins_witness :
  exists earlier later,
    [firstFile; secondFile; thirdFile] = (earlier ++ secondFile :: later)%list /\
    forall other, In other earlier -> fileIdentifier other <> fileIdentifier secondFile.
Proof.
  apply (@uniqueFiles_first_wins [firstFile; secondFile; thirdFile] secondFile).
  vm_compute. right. left. reflexivity.
Defined.

Lemma uniqueFiles_keeps_every_identifier_witness :
  exists first,
    In first (uniqueFiles [firstFile; secondFile; thirdFile]) /\
    fileIdentifier first = fileIdentifier thirdFile.
Proof.
  apply (@uniqueFiles_keeps_every_identifier [firstFile; secondFile; thirdFile] thirdFile).
  simpl. right. right. left. reflexivity.
Defined.

Lemma uniqueFiles_without_collision_witness :
  uniqueFiles [firstFile; secondFile] = [firstFile; secondFile].
Proof.
  apply (@uniqueFiles_without_collision [firstFile; secondFile]).
  vm_compute. constructor; [|constructor; [|constructor]].
  - intros [H | []]. discriminate.
  - intros [].
Defined.

Lemma merge_named_after_last_file_witness :
  exists merged,
    result (mergeAll (I := sampleImports)
              ([Some whiteDocument] ++ Some buttonDocument :: [None])%list
              (sampleWorld (sampleConfiguration NestedThemes SingleFile true false)))
      = Returned (Some merged) /\
    path merged = path buttonDocument /\ name merged = name buttonDocument /\
    ((forall file, In file [Some whiteDocument] -> file = None) -> merged = buttonDocument).
Proof.
  apply (@merge_named_after_last_file sampleImports [Some whiteDocument] [None]
           buttonDocument
           (sampleWorld (sampleConfiguration NestedThemes SingleFile true false))).
  - simpl. intros file [H | [H | []]]; inversion H; subst file.
    + exists (Sample.treeOf [whiteToken]), (IndentWidth 2). reflexivity.
    + exists (Sample.treeOf [buttonToken]), (IndentWidth 2). reflexivity.
  - simpl. intros file [<- | []]. reflexivity.
Defined.

Lemma unknown_brand_is_reported_witness :
  export (I := sampleImports) [whiteToken] [colorGroup] [globalCollection] [sampleBrand]
    [zestTheme] (forBrand "b2")
    (sampleWorld (sampleConfiguration SeparateFiles SeparateByType true false))
  = Thrown ("Unable to find brand " ++ "b2" ++ ".").
Proof.
  apply (@unknown_brand_is_reported sampleImports [whiteToken] [colorGroup]
           [globalCollection] [sampleBrand] [zestTheme] (forBrand "b2") "b2").
  - reflexivity.
  - vm_compute. discriminate.
  - reflexivity.
Defined.

Lemma first_unknown_theme_is_reported_witness :
  export (I := sampleImports) [whiteToken] [colorGroup] [globalCollection] [sampleBrand]
    [zestTheme] (withThemes ["th-zest"; "th-moon"; "th-sun"])
    (sampleWorld (sampleConfiguration SeparateFiles SeparateByType true false))
  = Thrown ("Unable to find theme " ++ "th-moon").
Proof.
  apply (@first_unknown_theme_is_reported sampleImports [whiteToken] [colorGroup]
           [globalCollection] [sampleBrand] [zestTheme]
           (withThemes ["th-zest"; "th-moon"; "th-sun"]) ["th-zest"] ["th-sun"] "th-moon").
  - vm_compute. intros [id [H _]]. discriminate.
  - reflexivity.
  - simpl. intros k [<- | []]. vm_compute. discriminate.
  - reflexivity.
Defined.

Lemma empty_theme_list_is_no_theme_witness :
  export (I := sampleImports) [buttonToken] [buttonGroup] [componentsCollection] []
    [zestTheme] (withThemes [])
    (sampleWorld (sampleConfiguration SeparateFiles SeparateByCollection true false)) =
  export (I := sampleImports) [buttonToken] [buttonGroup] [componentsCollection] []
    [zestTheme] noThemes
    (sampleWorld (sampleConfiguration SeparateFiles SeparateByCollection true false)).
Proof.
  apply (@empty_theme_list_is_no_theme sampleImports [buttonToken] [buttonGroup]
           [componentsCollection] [] [zestTheme] (withThemes []) noThemes);
    reflexivity.
Defined.

Lemma export_of_brand_is_export_of_its_tokens_witness :
  export (I := sampleImports) [whiteToken; buttonToken] [colorGroup; buttonGroup]
    [globalCollection; componentsCollection] [sampleBrand] [] (forBrand "v-b1")
    (sampleWorld (sampleConfiguration SeparateFiles SeparateByCollection true false)) =
  export (I := sampleImports)
    (filter (fun token => token_brandId token =? brand_id sampleBrand)
            [whiteToken; buttonToken])
    (filter (fun tokenGroup => group_brandId tokenGroup =? brand_id sampleBrand)
            [colorGroup; buttonGroup])
    [globalCollection; componentsCollection] [sampleBrand] []
    (withoutBrand (forBrand "v-b1"))
    (sampleWorld (sampleConfiguration SeparateFiles SeparateByCollection true false)).
Proof.
  apply (@export_of_brand_is_export_of_its_tokens sampleImports [whiteToken; buttonToken]
           [colorGroup; buttonGroup] [globalCollection; componentsCollection] [sampleBrand]
           [] (forBrand "v-b1") "v-b1" sampleBrand).
  - reflexivity.
  - vm_compute. discriminate.
  - reflexivity.
Defined.

Lemma nothing_exported_without_base_values_witness :
  result (export (I := sampleImports) [whiteToken] [colorGroup] [globalCollection] []
            [factorTheme] (withThemes ["th-factor"])
            (sampleWorld (sampleConfiguration ApplyDirectly SeparateByCollection false false)))
  = Returned [].
Proof.
  apply (@nothing_exported_without_base_values sampleImports [whiteToken] [colorGroup]
           [globalCollection] [] [factorTheme] (withThemes ["th-factor"])).
  - vm_compute. intros [id [H _]]. discriminate.
  - intros [ids [id [H1 [H2 H3]]]]. inversion H1; subst ids.
    destruct H2 as [<- | []].
    destruct (H3 factorTheme (or_introl eq_refl)) as [H _]. now apply H.
  - reflexivity.
  - right. split; reflexivity.
Defined.

Lemma apply_directly_exports_by_type_witness :
  exists tokens tokenGroups themesToApply,
    filterByBrand [whiteToken] [colorGroup] [] (withThemes ["th-factor"])
      (sampleWorld (sampleConfiguration ApplyDirectly SeparateByCollection true false))
      = Returned ((tokens, tokenGroups),
                  sampleWorld
                    (sampleConfiguration ApplyDirectly SeparateByCollection true false)) /\
    mapM (resolveTheme [factorTheme]) ["th-factor"]
      (sampleWorld (sampleConfiguration ApplyDirectly SeparateByCollection true false))
      = Returned (themesToApply,
                  sampleWorld
                    (sampleConfiguration ApplyDirectly SeparateByCollection true false)) /\
    export (I := sampleImports) [whiteToken] [colorGroup] [globalCollection] []
      [factorTheme] (withThemes ["th-factor"])
      (sampleWorld (sampleConfiguration ApplyDirectly SeparateByCollection true false)) =
    defaultFiles (I := sampleImports)
      (computeTokensByApplyingThemes (Imports := sampleImports) tokens tokens themesToApply)
      tokenGroups [globalCollection]
      (sampleWorld (sampleConfiguration ApplyDirectly SeparateByCollection true false)).
Proof.
  apply (@apply_directly_exports_by_type sampleImports [whiteToken] [colorGroup]
           [globalCollection] [] [factorTheme] (withThemes ["th-factor"]) ["th-factor"]).
  - vm_compute. intros [id [H _]]. discriminate.
  - intros [ids [id [H1 [H2 H3]]]]. inversion H1; subst ids.
    destruct H2 as [<- | []].
    destruct (H3 factorTheme (or_introl eq_refl)) as [H _]. now apply H.
  - reflexivity.
  - discriminate.
  - reflexivity.
Defined.

Lemma separate_collection_files_have_distinct_destinations_witness :
  NoDup
    (map fileIdentifier
       (match
          result (export (I := sampleImports) [lightButtonToken; darkButtonToken]
                    twoButtonGroups [componentsCollection] [] [zestTheme]
                    (withThemes ["th-zest"])
                    (sampleWorld
                       (sampleConfiguration SeparateFiles SeparateByCollection true false)))
        with
        | Returned files => files
        | _ => []
        end)).
Proof.
  apply (@separate_collection_files_have_distinct_destinations sampleImports
           [lightButtonToken; darkButtonToken] twoButtonGroups [componentsCollection] []
           [zestTheme] (withThemes ["th-zest"])
           (sampleWorld (sampleConfiguration SeparateFiles SeparateByCollection true false)));
    reflexivity.
Defined.

Lemma export_returns_without_component_files_witness :
  exists files,
    result (export (I := sampleImports) [cyclicToken] cyclicGroups [componentsCollection] []
              [zestTheme] (withThemes ["th-zest"])
              (sampleWorld (sampleConfiguration MergedTheme SeparateByCollection true false)))
    = Returned files.
Proof.
  apply (@export_returns_without_component_files sampleImports [cyclicToken] cyclicGroups
           [componentsCollection] [] [zestTheme] (withThemes ["th-zest"])).
  - vm_compute. intros [id [H _]]. discriminate.
  - intros [ids [id [H1 [H2 H3]]]]. inversion H1; subst ids.
    destruct H2 as [<- | []].
    destruct (H3 zestTheme (or_introl eq_refl)) as [H _]. now apply H.
  - right. split; [reflexivity | discriminate].
Defined.

Lemma tokens_are_split_by_component_group_witness :
  NoDup (map fst [("g-light-button", [lightButtonToken; lightButtonToken]);
                  ("g-dark-button", [darkButtonToken]);
                  ("g-color", [whiteToken])]) /\
  forall key groupTokens,
    In (key, groupTokens)
       [("g-light-button", [lightButtonToken; lightButtonToken]);
        ("g-dark-button", [darkButtonToken]);
        ("g-color", [whiteToken])] <->
    groupTokens <> [] /\
    groupTokens = filter (filedUnder (I := sampleImports) twoButtonGroups key)
                    [lightButtonToken; darkButtonToken; whiteToken; lightButtonToken].
Proof.
  apply (@tokens_are_split_by_component_group sampleImports twoButtonGroups
           [lightButtonToken; darkButtonToken; whiteToken; lightButtonToken]).
  reflexivity.
Defined.

Lemma component_files_are_the_files_of_the_groups_witness :
  In (createTextFile "./components" "button.json"
        (Sample.stringify (Sample.treeOf [darkButtonToken])))
     (match componentGroupFiles (I := sampleImports)
              (sampleConfiguration SeparateFiles SeparateByCollection true false)
              componentsCollection [lightButtonToken; darkButtonToken; whiteToken]
              twoButtonGroups "" None [componentsCollection]
      with Some files => files | None => [] end) <->
  exists groupId parentGroup tokenObject,
    let groupTokens :=
      filter (filedUnder (I := sampleImports) twoButtonGroups groupId)
             (filter (inCollection componentsCollection)
                     [lightButtonToken; darkButtonToken; whiteToken]) in
    groupTokens <> [] /\
    findGroup twoButtonGroups groupId = Some parentGroup /\
    processTokensToObject (Imports := sampleImports)
      (sampleConfiguration SeparateFiles SeparateByCollection true false)
      groupTokens twoButtonGroups None [componentsCollection]
      [lightButtonToken; darkButtonToken; whiteToken] = Some tokenObject /\
    createTextFile "./components" "button.json"
      (Sample.stringify (Sample.treeOf [darkButtonToken]))
    = createTextFile "./components"
        (if negb ("" =? "")
         then codeSafeVariableName (Imports := sampleImports)
                (group_name parentGroup) kebabCase ++ "." ++ "" ++ ".json"
         else codeSafeVariableName (Imports := sampleImports)
                (group_name parentGroup) kebabCase ++ ".json")
        (JSON_stringify (Imports := sampleImports) tokenObject
           (indent (sampleConfiguration SeparateFiles SeparateByCollection true false))).
Proof.
  apply (@component_files_are_the_files_of_the_groups sampleImports twoButtonGroups
           (sampleConfiguration SeparateFiles SeparateByCollection true false)
           componentsCollection [lightButtonToken; darkButtonToken; whiteToken] ""
           [componentsCollection]
           (match componentGroupFiles (I := sampleImports)
                    (sampleConfiguration SeparateFiles SeparateByCollection true false)
                    componentsCollection [lightButtonToken; darkButtonToken; whiteToken]
                    twoButtonGroups "" None [componentsCollection]
            with Some files => files | None => [] end)).
  reflexivity.
Defined.

Lemma themed_component_file_keeps_name_witness :
  path (match themedComponentFile (I := sampleImports) [buttonToken] [buttonGroup]
                [componentsCollection]
                (sampleConfiguration SeparateFiles SeparateByCollection true false)
                zestTheme [buttonToken] "zest" componentsCollection firstFile
        with Some file => file | None => firstFile end)
    = "./brand/" ++ "zest" /\
  name (match themedComponentFile (I := sampleImports) [buttonToken] [buttonGroup]
                [componentsCollection]
                (sampleConfiguration SeparateFiles SeparateByCollection true false)
                zestTheme [buttonToken] "zest" componentsCollection firstFile
        with Some file => file | None => firstFile end)
    = name firstFile.
Proof.
  apply (@themed_component_file_keeps_name sampleImports [buttonToken] [buttonGroup]
           [componentsCollection]
           (sampleConfiguration SeparateFiles SeparateByCollection true false)
           zestTheme [buttonToken] "zest" componentsCollection firstFile _ "button").
  - reflexivity.
  - reflexivity.
  - discriminate.
  - reflexivity.
Defined.

(** * What the branches return *)

Section Forms.

Context {I : Imports}.

Lemma runs_result {A} (m : M A) c c' a w :
  runs m c c' (Returned a) -> exportConfiguration w = c -> result (m w) = Returned a.
Proof. intros Hr Hw. now destruct (Hr w Hw). Qed.

Lemma runs_mapM_map {A B} (f : A -> M B) (g : A -> B) (l : list A) c :
  (forall x, In x l -> runs (f x) c c (Returned (g x))) ->
  runs (mapM f l) c c (Returned (map g l)).
Proof.
  induction l as [|x l IH]; intro Hf; cbn [mapM map].
  - apply runs_ret.
  - eapply runs_bind; [apply Hf; now left|].
    eapply runs_bind; [apply IH; intros y Hy; apply Hf; now right|].
    apply runs_ret.
Qed.

Lemma runs_flatMapM_flat_map {A B} (f : A -> M (list B)) (g : A -> list B) (l : list A) c :
  (forall x, In x l -> runs (f x) c c (Returned (g x))) ->
  runs (flatMapM f l) c c (Returned (flat_map g l)).
Proof.
  intro Hf. unfold flatMapM. eapply runs_bind; [now apply runs_mapM_map with (g := g)|].
  rewrite flat_map_concat_map. apply runs_ret.
Qed.

Lemma runs_base_call {A} (f : ExporterConfiguration -> option A) c :
  runs (if exportBaseValues c then calling f else ret None) c c
    (Returned (if exportBaseValues c then f c else None)).
Proof. destruct (exportBaseValues c); [apply runs_calling | apply runs_ret]. Qed.

Lemma runs_mergeAll files c :
  runs (mergeAll files) c c (Returned (fold_left (mergeInto (indent c)) files None)).
Proof.
  unfold mergeAll. eapply runs_bind; [apply runs_getConfiguration | apply runs_ret].
Qed.

(** *** The ancestor loops exit on the chains of the data model *)

Lemma findComponentGroup_returns tokenGroups parent chain :
  ancestors tokenGroups (Some parent) chain ->
  exists componentGroupId, findComponentGroup tokenGroups parent = Some componentGroupId.
Proof.
  intro Ha. destruct (ancestors_climbs Ha parent) as [passed [Hc _]].
  eexists. unfold findComponentGroup. eapply climbs_traverse; [exact Hc|].
  pose proof (climbs_short Hc). lia.
Qed.

Lemma groupByComponent_returns tokenGroups (l : list Token) :
  (forall token parent,
     In token l -> token_parentGroupId token = Some parent ->
     exists chain, ancestors tokenGroups (Some parent) chain) ->
  forall m, exists m', groupByComponent tokenGroups l m = Some m'.
Proof.
  induction l as [|token l IH]; intros Hc m; cbn [groupByComponent].
  - now exists m.
  - assert (Hl : forall token' parent,
               In token' l -> token_parentGroupId token' = Some parent ->
               exists chain, ancestors tokenGroups (Some parent) chain).
    { intros token' parent Hin. apply Hc. now right. }
    destruct (token_parentGroupId token) as [parent|] eqn:Ep; [|now apply IH].
    destruct (parent =? ""); [now apply IH|].
    destruct (Hc token parent (or_introl eq_refl) Ep) as [chain Ha].
    destruct (findComponentGroup_returns Ha) as [k ->]. now apply IH.
Qed.

Lemma componentGroupFiles_returns config collection tokens tokenGroups themePath collections :
  finiteChains tokenGroups tokens ->
  exists files,
    componentGroupFiles config collection tokens tokenGroups themePath None collections
    = Some files.
Proof.
  intro Hc. unfold componentGroupFiles. cbv zeta.
  destruct (@groupByComponent_returns tokenGroups (filter (inCollection collection) tokens))
    with (m := @nil (string * list Token)) as [m ->].
  - intros token parent Hin. apply Hc. apply filter_In in Hin. now destruct Hin.
  - eexists. reflexivity.
Qed.

Lemma runs_componentFiles collection tokens tokenGroups collections c :
  finiteChains tokenGroups tokens ->
  runs (componentGroupStyleOutputFiles collection tokens tokenGroups "" None collections) c c
    (Returned (componentFilesOf c collection tokens tokenGroups collections)).
Proof.
  intro Hc.
  pose proof (@runs_componentGroupStyleOutputFiles I collection tokens tokenGroups "" None
                collections c) as H.
  unfold componentFilesOf.
  destruct (@componentGroupFiles_returns c collection tokens tokenGroups "" collections Hc)
    as [files E].
  now rewrite E in H |- *.
Qed.

Section BranchForms.

Variables (tokens : list Token) (tokenGroups : list TokenGroup)
          (tokenCollections : list DesignSystemCollection)
          (themesToApply : list TokenTheme) (c : ExporterConfiguration).

Lemma nestedThemesSingleFile_form :
  runs (nestedThemesSingleFile tokens tokenGroups tokenCollections themesToApply) c c
    (Returned
       (processOutputFiles
          [nestedDocument c themesToApply
             (fun config theme =>
                combinedStyleOutputFile config (tokensUnder tokens theme) tokenGroups ""
                  theme tokenCollections)])).
Proof.
  unfold nestedThemesSingleFile, nestedDocument.
  eapply runs_bind; [apply runs_getConfiguration|]. cbv beta.
  eapply runs_bind; [apply runs_base_call|].
  eapply runs_bind.
  { apply runs_mapM_map
      with (g := fun theme =>
                   combinedStyleOutputFile (suppressBaseValues c)
                     (tokensUnder tokens (Some theme)) tokenGroups "" (Some theme)
                     tokenCollections).
    intros theme _. apply runs_withoutBaseValues. }
  eapply runs_bind; [apply runs_mergeAll | apply runs_ret].
Qed.

Lemma nestedCollectionFile_form collection :
  runs (nestedCollectionFile tokens tokenGroups tokenCollections themesToApply collection) c c
    (Returned
       (if isGlobalOrAlias collection
        then (if exportBaseValues c
              then combinedCollectionStyleOutputFile c collection tokens tokenGroups ""
                     None tokenCollections
              else None)
        else nestedDocument c themesToApply
               (fun config theme =>
                  combinedCollectionStyleOutputFile config collection
                    (tokensUnder tokens theme) tokenGroups "" theme tokenCollections))).
Proof.
  unfold nestedCollectionFile, nestedDocument.
  eapply runs_bind; [apply runs_getConfiguration|]. cbv beta.
  destruct (isGlobalOrAlias collection).
  { apply (runs_base_call
             (fun config =>
                combinedCollectionStyleOutputFile config collection tokens tokenGroups ""
                  None tokenCollections)). }
  eapply runs_bind; [apply runs_base_call|].
  eapply runs_bind.
  { apply runs_mapM_map
      with (g := fun theme =>
                   combinedCollectionStyleOutputFile (suppressBaseValues c) collection
                     (tokensUnder tokens (Some theme)) tokenGroups "" (Some theme)
                     tokenCollections).
    intros theme _. apply runs_withoutBaseValues. }
  apply runs_mergeAll.
Qed.

Lemma nestedTypeFile_form type :
  runs (nestedTypeFile tokens tokenGroups tokenCollections themesToApply type) c c
    (Returned
       (nestedDocument c themesToApply
          (fun config theme =>
             styleOutputFile config type (tokensUnder tokens theme) tokenGroups "" theme
               tokenCollections))).
Proof.
  unfold nestedTypeFile, nestedDocument.
  eapply runs_bind; [apply runs_getConfiguration|]. cbv beta.
  eapply runs_bind; [apply runs_base_call|].
  eapply runs_bind.
  { apply runs_mapM_map
      with (g := fun theme =>
                   styleOutputFile (suppressBaseValues c) type
                     (tokensUnder tokens (Some theme)) tokenGroups "" (Some theme)
                     tokenCollections).
    intros theme _. apply runs_withoutBaseValues. }
  apply runs_mergeAll.
Qed.

Lemma nestedThemesByCollection_form :
  runs (nestedThemesByCollection tokens tokenGroups tokenCollections themesToApply) c c
    (Returned
       (processOutputFiles
          (map (fun collection =>
                  if isGlobalOrAlias collection
                  then (if exportBaseValues c
                        then combinedCollectionStyleOutputFile c collection tokens
                               tokenGroups "" None tokenCollections
                        else None)
                  else nestedDocument c themesToApply
                         (fun config theme =>
                            combinedCollectionStyleOutputFile config collection
                              (tokensUnder tokens theme) tokenGroups "" theme
                              tokenCollections))
               (collectionsWithTokens tokens tokenCollections)))).
Proof.
  unfold nestedThemesByCollection. cbv zeta.
  eapply runs_bind; [|apply runs_ret].
  apply runs_mapM_map
    with (g := fun collection =>
                 if isGlobalOrAlias collection
                 then (if exportBaseValues c
                       then combinedCollectionStyleOutputFile c collection tokens
                              tokenGroups "" None tokenCollections
                       else None)
                 else nestedDocument c themesToApply
                        (fun config theme =>
                           combinedCollectionStyleOutputFile config collection
                             (tokensUnder tokens theme) tokenGroups "" theme
                             tokenCollections)).
  intros collection _. apply nestedCollectionFile_form.
Qed.

Lemma nestedThemesByType_form :
  runs (nestedThemesByType tokens tokenGroups tokenCollections themesToApply) c c
    (Returned
       (processOutputFiles
          (map (fun type =>
                  nestedDocument c themesToApply
                    (fun config theme =>
                       styleOutputFile config type (tokensUnder tokens theme) tokenGroups
                         "" theme tokenCollections))
               allTokenTypes))).
Proof.
  unfold nestedThemesByType.
  eapply runs_bind; [|apply runs_ret].
  apply runs_mapM_map
    with (g := fun type =>
                 nestedDocument c themesToApply
                   (fun config theme =>
                      styleOutputFile config type (tokensUnder tokens theme) tokenGroups
                        "" theme tokenCollections)).
  intros type _. apply nestedTypeFile_form.
Qed.

Lemma mergedThemeByCollection_form :
  runs (mergedThemeByCollection tokens tokenGroups tokenCollections themesToApply) c c
    (Returned
       (processOutputFiles
          ((if exportBaseValues c
            then map (fun collection =>
                        combinedCollectionStyleOutputFile c collection tokens tokenGroups
                          "" None tokenCollections)
                   (collectionsWithTokens tokens tokenCollections)
            else [])
           ++ map (fun collection =>
                     combinedCollectionStyleOutputFile c collection
                       (computeTokensByApplyingThemes tokens tokens themesToApply)
                       tokenGroups "themed" (nth_error themesToApply 0) tokenCollections)
                (filter (fun collection => negb (isGlobalOrAlias collection))
                   (collectionsWithTokens tokens tokenCollections)))%list)).
Proof.
  unfold mergedThemeByCollection.
  eapply runs_bind; [apply runs_getConfiguration | apply runs_ret].
Qed.

Hypothesis chains : finiteChains tokenGroups tokens.

Lemma collectionFiles_form :
  runs (collectionFiles tokens tokenGroups tokenCollections) c c
    (Returned
       (processOutputFiles
          (map Some
             (flat_map (fun collection =>
                          componentFilesOf c collection tokens tokenGroups tokenCollections)
                (filter isComponents (collectionsWithTokens tokens tokenCollections)))
           ++ map (fun collection =>
                     combinedCollectionStyleOutputFile c collection tokens tokenGroups ""
                       None tokenCollections)
                (filter (fun collection => negb (isComponents collection))
                   (collectionsWithTokens tokens tokenCollections)))%list)).
Proof.
  unfold collectionFiles.
  eapply runs_bind; [apply runs_getConfiguration|]. cbv beta zeta.
  eapply runs_bind; [|apply runs_ret].
  apply runs_flatMapM_flat_map
    with (g := fun collection =>
                 componentFilesOf c collection tokens tokenGroups tokenCollections).
  intros collection _. now apply runs_componentFiles.
Qed.

Lemma collectionThemeFiles_form theme themedTokens themeName collection :
  runs (collectionThemeFiles tokens tokenGroups tokenCollections c theme themedTokens
          themeName collection) c c
    (Returned
       (processOutputFiles
          (map (themedComponentFile tokens tokenGroups tokenCollections c theme themedTokens
                  themeName collection)
               (componentFilesOf c collection tokens tokenGroups tokenCollections)))).
Proof.
  unfold collectionThemeFiles.
  eapply runs_bind; [now apply runs_componentFiles | apply runs_ret].
Qed.

Lemma separateFilesByCollection_form :
  runs (separateFilesByCollection tokens tokenGroups tokenCollections themesToApply) c c
    (Returned
       (uniqueFiles
          (processOutputFiles
             ((map (fun collection =>
                      combinedCollectionStyleOutputFile c collection tokens tokenGroups ""
                        None tokenCollections)
                 (filter isGlobalOrAlias (collectionsWithTokens tokens tokenCollections))
               ++ map Some
                    (if exportBaseValues c
                     then flat_map
                            (fun collection =>
                               componentFilesOf c collection tokens tokenGroups
                                 tokenCollections)
                            (filter isComponents
                               (collectionsWithTokens tokens tokenCollections))
                     else [])
               ++ (if exportBaseValues c
                   then map (fun collection =>
                               combinedCollectionStyleOutputFile c collection tokens
                                 tokenGroups "" None tokenCollections)
                          (filter isNotGlobalAliasComponents
                             (collectionsWithTokens tokens tokenCollections))
                   else []))
              ++ flat_map
                   (fun theme =>
                      map Some
                        (flat_map
                           (fun collection =>
                              processOutputFiles
                                (map (themedComponentFile tokens tokenGroups
                                        tokenCollections c theme
                                        (computeTokensByApplyingThemes tokens tokens [theme])
                                        (getThemeIdentifier theme kebabCase) collection)
                                     (componentFilesOf c collection tokens tokenGroups
                                        tokenCollections)))
                           (filter isComponents
                              (collectionsWithTokens tokens tokenCollections)))
                      ++ map (fun collection =>
                                combinedCollectionStyleOutputFile c collection
                                  (computeTokensByApplyingThemes tokens tokens [theme])
                                  tokenGroups (getThemeIdentifier theme kebabCase)
                                  (Some theme) tokenCollections)
                           (filter isOther
                              (collectionsWithTokens tokens tokenCollections)))
                   themesToApply
              ++ map Some
                   (processOutputFiles
                      (map (brandFile tokens tokenGroups tokenCollections c)
                         themesToApply)))%list))).
Proof.
  unfold separateFilesByCollection, componentThemeFiles.
  eapply runs_bind; [apply runs_getConfiguration|]. cbv beta zeta.
  eapply runs_bind.
  { apply runs_flatMapM_flat_map
      with (g := fun theme =>
                   (map Some
                      (flat_map
                         (fun collection =>
                            processOutputFiles
                              (map (themedComponentFile tokens tokenGroups
                                      tokenCollections c theme
                                      (computeTokensByApplyingThemes tokens tokens [theme])
                                      (getThemeIdentifier theme kebabCase) collection)
                                   (componentFilesOf c collection tokens tokenGroups
                                      tokenCollections)))
                         (filter isComponents
                            (collectionsWithTokens tokens tokenCollections)))
                    ++ map (fun collection =>
                              combinedCollectionStyleOutputFile c collection
                                (computeTokensByApplyingThemes tokens tokens [theme])
                                tokenGroups (getThemeIdentifier theme kebabCase)
                                (Some theme) tokenCollections)
                         (filter isOther
                            (collectionsWithTokens tokens tokenCollections)))%list).
    intros theme _. eapply runs_bind; [|apply runs_ret].
    apply runs_flatMapM_flat_map
      with (g := fun collection =>
                   processOutputFiles
                     (map (themedComponentFile tokens tokenGroups tokenCollections c theme
                             (computeTokensByApplyingThemes tokens tokens [theme])
                             (getThemeIdentifier theme kebabCase) collection)
                          (componentFilesOf c collection tokens tokenGroups
                             tokenCollections))).
    intros collection _. apply collectionThemeFiles_form. }
  eapply runs_bind.
  { instantiate (1 := if exportBaseValues c
                      then flat_map
                             (fun collection =>
                                componentFilesOf c collection tokens tokenGroups
                                  tokenCollections)
                             (filter isComponents
                                (collectionsWithTokens tokens tokenCollections))
                      else []).
    destruct (exportBaseValues c); [|apply runs_ret].
    apply runs_flatMapM_flat_map
      with (g := fun collection =>
                   componentFilesOf c collection tokens tokenGroups tokenCollections).
    intros collection _. now apply runs_componentFiles. }
  rewrite processOutputFiles_Some. apply runs_ret.
Qed.

End BranchForms.

End Forms.

(** * The export, branch by branch *)

Section ExportForms.

Context {I : Imports}.

Variables (allTokens : list Token) (allTokenGroups : list TokenGroup)
  (tokenCollections : list DesignSystemCollection) (brands : list Brand)
  (themes : list TokenTheme) (context : PulsarContext) (w : World).

Lemma filterByBrand_world p w' :
  filterByBrand allTokens allTokenGroups brands context w = Returned (p, w') -> w' = w.
Proof.
  unfold filterByBrand, ret, throw.
  destruct (truthy (brandId context)); [|intro H; now inversion H].
  destruct (findBrand brands _); intro H; now inversion H.
Qed.

Lemma resolveThemes_world ids : forall themesToApply w',
  mapM (resolveTheme themes) ids w = Returned (themesToApply, w') -> w' = w.
Proof.
  induction ids as [|id ids IH]; intros ts w' H; cbn [mapM] in H.
  - unfold ret in H. now inversion H.
  - unfold bind at 1, resolveTheme at 1 in H.
    destruct (findTheme themes id); [|discriminate]. unfold ret at 1 in H.
    unfold bind at 1 in H.
    destruct (mapM (resolveTheme themes) ids w) as [[ts1 w1]| |] eqn:E; try discriminate.
    unfold ret in H. inversion H; subst. now apply (IH ts1).
Qed.

Lemma export_without_themes tokens tokenGroups :
  result (filterByBrand allTokens allTokenGroups brands context w)
    = Returned (tokens, tokenGroups) ->
  themesRequested context = false ->
  export allTokens allTokenGroups tokenCollections brands themes context w =
  withoutThemeFiles context tokens tokenGroups tokenCollections w.
Proof.
  intros Hf Hr. apply result_Returned in Hf. destruct Hf as [w' Hf].
  pose proof (filterByBrand_world Hf) as ->.
  unfold export, bind. now rewrite Hf, Hr.
Qed.

Lemma export_with_themes tokens tokenGroups ids themesToApply :
  result (filterByBrand allTokens allTokenGroups brands context w)
    = Returned (tokens, tokenGroups) ->
  themeIds context = Some ids -> ids <> [] ->
  result (mapM (resolveTheme themes) ids w) = Returned themesToApply ->
  export allTokens allTokenGroups tokenCollections brands themes context w =
  exportThemes context tokens tokenGroups tokenCollections themesToApply w.
Proof.
  intros Hf Hi Hne Hm. apply result_Returned in Hf. destruct Hf as [w' Hf].
  pose proof (filterByBrand_world Hf) as ->.
  apply result_Returned in Hm. destruct Hm as [w' Hm].
  pose proof (resolveThemes_world _ Hm) as ->.
  assert (Hr : themesRequested context = true).
  { unfold themesRequested. rewrite Hi. destruct ids; [contradiction | reflexivity]. }
  unfold export, bind. now rewrite Hf, Hr, Hi, Hm.
Qed.

Lemma exportThemes_nested tokens tokenGroups themesToApply :
  exportThemesAs (exportConfiguration w) = NestedThemes ->
  result (exportThemes context tokens tokenGroups tokenCollections themesToApply w) =
  Returned
    (match fileStructure (exportConfiguration w) with
     | SingleFile =>
         processOutputFiles
           [nestedDocument (exportConfiguration w) themesToApply
              (fun config theme =>
                 combinedStyleOutputFile config (tokensUnder tokens theme) tokenGroups ""
                   theme tokenCollections)]
     | SeparateByType =>
         processOutputFiles
           (map (fun type =>
                   nestedDocument (exportConfiguration w) themesToApply
                     (fun config theme =>
                        styleOutputFile config type (tokensUnder tokens theme) tokenGroups
                          "" theme tokenCollections))
                allTokenTypes)
     | SeparateByCollection =>
         processOutputFiles
           (map (fun collection =>
                   if isGlobalOrAlias collection
                   then (if exportBaseValues (exportConfiguration w)
                         then combinedCollectionStyleOutputFile (exportConfiguration w)
                                collection tokens tokenGroups "" None tokenCollections
                         else None)
                   else nestedDocument (exportConfiguration w) themesToApply
                          (fun config theme =>
                             combinedCollectionStyleOutputFile config collection
                               (tokensUnder tokens theme) tokenGroups "" theme
                               tokenCollections))
                (collectionsWithTokens tokens tokenCollections))
     end).
Proof.
  intro Hn. unfold exportThemes. rewrite bind_getConfiguration_at, Hn.
  destruct (fileStructure (exportConfiguration w)).
  - apply runs_result with (c := exportConfiguration w) (c' := exportConfiguration w);
      [apply nestedThemesByType_form | reflexivity].
  - apply runs_result with (c := exportConfiguration w) (c' := exportConfiguration w);
      [apply nestedThemesSingleFile_form | reflexivity].
  - apply runs_result with (c := exportConfiguration w) (c' := exportConfiguration w);
      [apply nestedThemesByCollection_form | reflexivity].
Qed.

End ExportForms.

(** C9, as the code has it: the composer does toggle shared state.  A
    themed call is made with [exportBaseValues] switched off on the shared
    configuration, and the saved value is written back after the call.  In
    the nested-theme branches the export therefore returns the documents of
    the design in which every themed generation call is handed the
    configuration of the run with [exportBaseValues] off, and every
    un-themed call that configuration as it is.  In every branch the
    functions of [style-file.ts] read nothing else: the export is the same
    when they read the configuration through a view that shows these
    configurations to these calls as they are, whatever it shows otherwise;
    in the nested-theme branches, whatever it shows a themed call of the
    configuration given for the run.  An export that returns leaves the
    shared configuration as it found it. *)
Theorem shared_configuration_toggled_and_restored
    (I : Imports)
    (allTokens : list Token) (allTokenGroups : list TokenGroup)
    (tokenCollections : list DesignSystemCollection) (brands : list Brand)
    (themes : list TokenTheme) (context : PulsarContext) (w : World) :
  let c := exportConfiguration w in
  (forall (A : Type) (f : ExporterConfiguration -> A),
     result (withoutBaseValues f w) = Returned (f (suppressBaseValues c)) /\
     finalConfiguration (withoutBaseValues f w) = Some c) /\
  (forall tokens tokenGroups ids themesToApply,
     exportThemesAs c = NestedThemes ->
     result (filterByBrand allTokens allTokenGroups brands context w)
       = Returned (tokens, tokenGroups) ->
     themeIds context = Some ids -> ids <> [] ->
     result (mapM (resolveTheme themes) ids w) = Returned themesToApply ->
     result (export (I := I) allTokens allTokenGroups tokenCollections brands themes
               context w) =
     Returned
       (match fileStructure c with
        | SingleFile =>
            processOutputFiles
              [nestedDocument c themesToApply
                 (fun config theme =>
                    combinedStyleOutputFile config (tokensUnder tokens theme) tokenGroups
                      "" theme tokenCollections)]
        | SeparateByType =>
            processOutputFiles
              (map (fun type =>
                      nestedDocument c themesToApply
                        (fun config theme =>
                           styleOutputFile config type (tokensUnder tokens theme)
                             tokenGroups "" theme tokenCollections))
                   allTokenTypes)
        | SeparateByCollection =>
            processOutputFiles
              (map (fun collection =>
                      if isGlobalOrAlias collection
                      then (if exportBaseValues c
                            then combinedCollectionStyleOutputFile c collection tokens
                                   tokenGroups "" None tokenCollections
                            else None)
                      else nestedDocument c themesToApply
                             (fun config theme =>
                                combinedCollectionStyleOutputFile config collection
                                  (tokensUnder tokens theme) tokenGroups "" theme
                                  tokenCollections))
                   (collectionsWithTokens tokens tokenCollections))
        end)) /\
  (forall view,
     view None c = c ->
     (exportThemesAs c <> NestedThemes -> forall theme, view (Some theme) c = c) ->
     (exportThemesAs c = NestedThemes ->
      forall theme, view (Some theme) (suppressBaseValues c) = suppressBaseValues c) ->
     export (I := withView I view) allTokens allTokenGroups tokenCollections brands themes
       context w =
     export (I := I) allTokens allTokenGroups tokenCollections brands themes context w) /\
  match export (I := I) allTokens allTokenGroups tokenCollections brands themes context w with
  | Returned (_, w') => exportConfiguration w' = c
  | _ => True
  end.
Proof.
  intro c. split; [|split; [|split]].
  - intros A f.
    destruct (runs_withoutBaseValues f (c := c) w eq_refl) as [Hr Hf].
    split; [exact Hr | now apply (Hf _ eq_refl)].
  - intros tokens tokenGroups ids themesToApply Hn Hf Hi Hne Hm.
    rewrite (@export_with_themes I allTokens allTokenGroups tokenCollections brands themes
               context w tokens tokenGroups ids themesToApply Hf Hi Hne Hm).
    now apply exportThemes_nested.
  - intros view Hb Ht Hn. now apply export_sees_given_configuration.
  - apply export_restores_configuration.
Qed.

Lemma shared_configuration_toggled_and_restored_witness :
  result (export (I := sampleImports)
            [whiteToken; buttonToken] [colorGroup; buttonGroup]
            [globalCollection; componentsCollection] [] [factorTheme]
            (withThemes ["th-factor"])
            (sampleWorld (sampleConfiguration NestedThemes SingleFile true false))) =
  Returned
    (processOutputFiles
       [nestedDocument (I := sampleImports)
          (sampleConfiguration NestedThemes SingleFile true false) [factorTheme]
          (fun config theme =>
             combinedStyleOutputFile (Imports := sampleImports) config
               (tokensUnder (I := sampleImports) [whiteToken; buttonToken] theme)
               [colorGroup; buttonGroup] "" theme
               [globalCollection; componentsCollection])]) /\
  export (I := withView sampleImports sampleView)
    [whiteToken; buttonToken] [colorGroup; buttonGroup]
    [globalCollection; componentsCollection] [] [factorTheme] (withThemes ["th-factor"])
    (sampleWorld (sampleConfiguration NestedThemes SeparateByType true false)) =
  export (I := sampleImports)
    [whiteToken; buttonToken] [colorGroup; buttonGroup]
    [globalCollection; componentsCollection] [] [factorTheme] (withThemes ["th-factor"])
    (sampleWorld (sampleConfiguration NestedThemes SeparateByType true false)).
Proof.
  split.
  - apply (proj1 (proj2 (@shared_configuration_toggled_and_restored sampleImports
                           [whiteToken; buttonToken] [colorGroup; buttonGroup]
                           [globalCollection; componentsCollection] [] [factorTheme]
                           (withThemes ["th-factor"])
                           (sampleWorld
                              (sampleConfiguration NestedThemes SingleFile true false))))
             [whiteToken; buttonToken] [colorGroup; buttonGroup] ["th-factor"]
             [factorTheme]).
    + reflexivity.
    + reflexivity.
    + reflexivity.
    + discriminate.
    + reflexivity.
  - apply (proj1 (proj2 (proj2 (@shared_configuration_toggled_and_restored sampleImports
                           [whiteToken; buttonToken] [colorGroup; buttonGroup]
                           [globalCollection; componentsCollection] [] [factorTheme]
                           (withThemes ["th-factor"])
                           (sampleWorld
                              (sampleConfiguration NestedThemes SeparateByType true
                                 false)))))).
    + reflexivity.
    + intro H. exfalso. now apply H.
    + intros _ theme. reflexivity.
Defined.

(** * Themed component documents *)

Lemma uniqueFiles_In (allFiles : list OutputFile) (file : OutputFile) :
  In file (uniqueFiles allFiles) -> In file allFiles.
Proof.
  intro H. destruct (uniqueFiles_first _ _ H) as [seen [later [-> _]]].
  apply in_or_app. right. now left.
Qed.

Lemma exportThemes_separate_by_collection {I : Imports}
    (context : PulsarContext) (tokens : list Token) (tokenGroups : list TokenGroup)
    (tokenCollections : list DesignSystemCollection) (themesToApply : list TokenTheme)
    (w : World) :
  exportThemesAs (exportConfiguration w) = SeparateFiles ->
  fileStructure (exportConfiguration w) = SeparateByCollection ->
  finiteChains tokenGroups tokens ->
  exists allFiles,
    result (exportThemes context tokens tokenGroups tokenCollections themesToApply w)
      = Returned (uniqueFiles (processOutputFiles allFiles)) /\
    allFiles =
      ((map (fun collection =>
               combinedCollectionStyleOutputFile (exportConfiguration w) collection tokens
                 tokenGroups "" None tokenCollections)
          (filter isGlobalOrAlias (collectionsWithTokens tokens tokenCollections))
        ++ map Some
             (if exportBaseValues (exportConfiguration w)
              then flat_map
                     (fun collection =>
                        componentFilesOf (exportConfiguration w) collection tokens
                          tokenGroups tokenCollections)
                     (filter isComponents (collectionsWithTokens tokens tokenCollections))
              else [])
        ++ (if exportBaseValues (exportConfiguration w)
            then map (fun collection =>
                        combinedCollectionStyleOutputFile (exportConfiguration w)
                          collection tokens tokenGroups "" None tokenCollections)
                   (filter isNotGlobalAliasComponents
                      (collectionsWithTokens tokens tokenCollections))
            else []))
       ++ flat_map
            (fun theme =>
               map Some
                 (flat_map
                    (fun collection =>
                       processOutputFiles
                         (map (themedComponentFile tokens tokenGroups tokenCollections
                                 (exportConfiguration w) theme
                                 (computeTokensByApplyingThemes tokens tokens [theme])
                                 (getThemeIdentifier theme kebabCase) collection)
                              (componentFilesOf (exportConfiguration w) collection tokens
                                 tokenGroups tokenCollections)))
                    (filter isComponents (collectionsWithTokens tokens tokenCollections)))
               ++ map (fun collection =>
                         combinedCollectionStyleOutputFile (exportConfiguration w)
                           collection
                           (computeTokensByApplyingThemes tokens tokens [theme])
                           tokenGroups (getThemeIdentifier theme kebabCase) (Some theme)
                           tokenCollections)
                    (filter isOther (collectionsWithTokens tokens tokenCollections)))
            themesToApply
       ++ map Some
            (processOutputFiles
               (map (brandFile tokens tokenGroups tokenCollections (exportConfiguration w))
                  themesToApply)))%list.
Proof.
  intros Hs Hf Hc. eexists. split; [|reflexivity].
  unfold exportThemes. rewrite bind_getConfiguration_at, Hs, Hf.
  apply runs_result with (c := exportConfiguration w) (c' := exportConfiguration w);
    [now apply separateFilesByCollection_form | reflexivity].
Qed.

(** C10: under separate theme files in the by-collection structure, with
    the parent chains of the data model, the export returns its files, and
    among them the themed component documents are these: for every
    requested theme, every components collection with tokens and every base
    component file of that collection, the file in [./brand/{theme}] named
    after the base file, whose content is the printed tree of all the tokens
    of the collection overlaid with the theme.  The content depends on the
    theme and the collection and not on the base file, so the themed
    documents of one collection and one theme all hold the same content.
    Each of them is written, the first file of a destination being the one
    kept; and every file returned is such a document, or a root document of
    a collection, a base component file, a themed document of another
    collection, or the document of a theme. *)
Theorem themed_component_files_share_content
    (I : Imports)
    (allTokens : list Token) (allTokenGroups : list TokenGroup)
    (tokenCollections : list DesignSystemCollection) (brands : list Brand)
    (themes : list TokenTheme) (context : PulsarContext) (w : World)
    (tokens : list Token) (tokenGroups : list TokenGroup) (ids : list string)
    (themesToApply : list TokenTheme) :
  let c := exportConfiguration w in
  let themedDocument theme collection baseFile :=
    option_map
      (fun themedTokenObject =>
         createTextFile ("./brand/" ++ getThemeIdentifier theme kebabCase)
           (componentNameOf baseFile ++ ".json")
           (JSON_stringify themedTokenObject (indent c)))
      (processTokensToObject c
         (filter (inCollection collection)
            (computeTokensByApplyingThemes tokens tokens [theme]))
         tokenGroups (Some theme) tokenCollections tokens) in
  exportThemesAs c = SeparateFiles ->
  fileStructure c = SeparateByCollection ->
  result (filterByBrand allTokens allTokenGroups brands context w)
    = Returned (tokens, tokenGroups) ->
  themeIds context = Some ids -> ids <> [] ->
  result (mapM (resolveTheme themes) ids w) = Returned themesToApply ->
  finiteChains tokenGroups tokens ->
  exists files,
    result (export (I := I) allTokens allTokenGroups tokenCollections brands themes
              context w) = Returned files /\
    (forall theme collection baseFile document,
       In theme themesToApply ->
       In collection (collectionsWithTokens tokens tokenCollections) ->
       isComponents collection = true ->
       In baseFile (componentFilesOf c collection tokens tokenGroups tokenCollections) ->
       themedDocument theme collection baseFile = Some document ->
       exists first,
         In first files /\ fileIdentifier first = fileIdentifier document) /\
    (forall file,
       In file files ->
       (exists theme collection baseFile,
          In theme themesToApply /\
          In collection (collectionsWithTokens tokens tokenCollections) /\
          isComponents collection = true /\
          In baseFile (componentFilesOf c collection tokens tokenGroups tokenCollections) /\
          themedDocument theme collection baseFile = Some file) \/
       (exists collection,
          In collection (collectionsWithTokens tokens tokenCollections) /\
          combinedCollectionStyleOutputFile c collection tokens tokenGroups "" None
            tokenCollections = Some file) \/
       (exists collection,
          In collection (collectionsWithTokens tokens tokenCollections) /\
          isComponents collection = true /\
          In file (componentFilesOf c collection tokens tokenGroups tokenCollections)) \/
       (exists theme collection,
          In theme themesToApply /\
          In collection (collectionsWithTokens tokens tokenCollections) /\
          isOther collection = true /\
          combinedCollectionStyleOutputFile c collection
            (computeTokensByApplyingThemes tokens tokens [theme]) tokenGroups
            (getThemeIdentifier theme kebabCase) (Some theme) tokenCollections
          = Some file) \/
       (exists theme,
          In theme themesToApply /\
          brandFile tokens tokenGroups tokenCollections c theme = Some file)).
Proof.
  intros c themedDocument Hs Hfs Hf Hi Hne Hm Hc.
  destruct (exportThemes_separate_by_collection context tokenCollections themesToApply w
              Hs Hfs Hc) as [allFiles [Hr Hall]].
  fold c in Hall.
  exists (uniqueFiles (processOutputFiles allFiles)). split; [|split].
  - rewrite (@export_with_themes I allTokens allTokenGroups tokenCollections brands themes
               context w tokens tokenGroups ids themesToApply Hf Hi Hne Hm).
    exact Hr.
  - intros theme collection baseFile document Ht Hcol Hcomp Hb Hd.
    apply uniqueFiles_covers. apply In_processOutputFiles. rewrite Hall.
    apply in_or_app. right. apply in_or_app. left.
    apply in_flat_map. exists theme. split; [exact Ht|].
    apply in_or_app. left. apply in_map. apply in_flat_map.
    exists collection. split; [apply filter_In; now split|].
    apply In_processOutputFiles. apply in_map_iff. exists baseFile. split; [|exact Hb].
    unfold themedComponentFile. unfold themedDocument in Hd. cbv zeta.
    destruct (processTokensToObject c _ tokenGroups (Some theme) tokenCollections tokens);
      [exact Hd | discriminate].
  - intros file Hin. apply uniqueFiles_In in Hin.
    apply In_processOutputFiles_iff in Hin. rewrite Hall in Hin.
    repeat (apply in_app_or in Hin; destruct Hin as [Hin | Hin]).
    + right. left. apply in_map_iff in Hin. destruct Hin as [collection [E Hin]].
      apply filter_In in Hin. exists collection. now split.
    + right. right. left. apply in_map_iff in Hin. destruct Hin as [x [E Hin]].
      inversion E; subst x.
      destruct (exportBaseValues c); [|contradiction].
      apply in_flat_map in Hin. destruct Hin as [collection [Hcol Hin]].
      apply filter_In in Hcol. exists collection. now repeat split.
    + right. left. destruct (exportBaseValues c); [|contradiction].
      apply in_map_iff in Hin. destruct Hin as [collection [E Hin]].
      apply filter_In in Hin. exists collection. now split.
    + apply in_flat_map in Hin. destruct Hin as [theme [Ht Hin]].
      apply in_app_or in Hin. destruct Hin as [Hin | Hin].
      * left. apply in_map_iff in Hin. destruct Hin as [x [E Hin]].
        inversion E; subst x.
        apply in_flat_map in Hin. destruct Hin as [collection [Hcol Hin]].
        apply filter_In in Hcol. destruct Hcol as [Hcol Hcomp].
        apply In_processOutputFiles_iff in Hin. apply in_map_iff in Hin.
        destruct Hin as [baseFile [E' Hb]].
        exists theme, collection, baseFile. repeat split; assumption.
      * right. right. right. left. apply in_map_iff in Hin.
        destruct Hin as [collection [E Hin]]. apply filter_In in Hin.
        exists theme, collection. now repeat split.
    + right. right. right. right. apply in_map_iff in Hin. destruct Hin as [x [E Hin]].
      inversion E; subst x. apply In_processOutputFiles_iff in Hin.
      apply in_map_iff in Hin. destruct Hin as [theme [E' Ht]].
      exists theme. now split.
Qed.

(** * The document of a global or alias collection *)

Lemma runs_eq {A} (m : M A) c c' (a b : A) :
  runs m c c' (Returned a) -> a = b -> runs m c c' (Returned b).
Proof. now intros H <-. Qed.

Lemma map_around {A B} (g g' : A -> B) (l1 : list A) (x : A) (l2 : list A) :
  (forall y, In y l1 -> g y = g' y) -> (forall y, In y l2 -> g y = g' y) ->
  map g (l1 ++ x :: l2) = (map g' l1 ++ g x :: map g' l2)%list.
Proof.
  intros H1 H2. rewrite map_app. cbn [map].
  now rewrite (map_ext_in _ _ _ H1), (map_ext_in _ _ _ H2).
Qed.

Lemma filter_around {A} (q : A -> bool) (l1 : list A) (x : A) (l2 : list A) :
  q x = true -> filter q (l1 ++ x :: l2) = (filter q l1 ++ x :: filter q l2)%list.
Proof. intro H. rewrite filter_app. cbn [filter]. now rewrite H. Qed.

Lemma processOutputFiles_app {A} (l l' : list (option A)) :
  processOutputFiles (l ++ l') = (processOutputFiles l ++ processOutputFiles l')%list.
Proof.
  induction l as [|[x|] l IH]; cbn [app processOutputFiles]; [reflexivity | | exact IH].
  now rewrite IH.
Qed.

Lemma nestedDocument_ext {I : Imports} c themesToApply
    (g1 g2 : ExporterConfiguration -> option TokenTheme -> option OutputFile) :
  (forall config theme, g1 config theme = g2 config theme) ->
  nestedDocument c themesToApply g1 = nestedDocument c themesToApply g2.
Proof.
  intro H. unfold nestedDocument. rewrite (H c None).
  now rewrite (map_ext _ _ (fun theme => H (suppressBaseValues c) (Some theme))).
Qed.

Section OneDocument.

Variable I : Imports.
Variable f :
  ExporterConfiguration -> DesignSystemCollection -> list Token -> list TokenGroup ->
  string -> option TokenTheme -> list DesignSystemCollection -> option OutputFile.
Variable collection : DesignSystemCollection.

Let I' : Imports := withCollectionFile I f.

(** [f] is [combinedCollectionStyleOutputFile] on every call but the
    un-themed call at the root path for [collection]. *)
Hypothesis f_elsewhere :
  forall config collection' tokens tokenGroups themePath theme collections,
    collection' <> collection \/ themePath <> "" \/ theme <> None ->
    f config collection' tokens tokenGroups themePath theme collections =
    combinedCollectionStyleOutputFile (Imports := I) config collection' tokens tokenGroups
      themePath theme collections.

Hypothesis global_or_alias : isGlobalOrAlias (I := I) collection = true.

Variables (tokens : list Token) (tokenGroups : list TokenGroup)
          (tokenCollections : list DesignSystemCollection)
          (themesToApply : list TokenTheme) (c : ExporterConfiguration).

Variables l1 l2 : list DesignSystemCollection.

Hypothesis split_at :
  collectionsWithTokens tokens tokenCollections = (l1 ++ collection :: l2)%list.
Hypothesis not_before : ~ In collection l1.
Hypothesis not_after : ~ In collection l2.

Lemma other_before collection' : In collection' l1 -> collection' <> collection.
Proof. intros H ->. contradiction. Qed.

Lemma other_after collection' : In collection' l2 -> collection' <> collection.
Proof. intros H ->. contradiction. Qed.

Lemma other_filtered (q : DesignSystemCollection -> bool) (l : list DesignSystemCollection)
    collection' :
  (forall y, In y l -> y <> collection) -> In collection' (filter q l) ->
  collection' <> collection.
Proof. intros H Hin. apply H. apply filter_In in Hin. now destruct Hin. Qed.

(** The imports that do not read [combinedCollectionStyleOutputFile] are
    those of [I]. *)
Ltac own_imports :=
  change (@combinedCollectionStyleOutputFile I') with f;
  change (@componentFilesOf I') with (@componentFilesOf I);
  change (@isComponents I') with (@isComponents I);
  change (@isGlobalOrAlias I') with (@isGlobalOrAlias I);
  change (@isOther I') with (@isOther I);
  change (@isNotGlobalAliasComponents I') with (@isNotGlobalAliasComponents I);
  change (@themedComponentFile I') with (@themedComponentFile I);
  change (@brandFile I') with (@brandFile I);
  change (@computeTokensByApplyingThemes I') with (@computeTokensByApplyingThemes I);
  change (@getThemeIdentifier I') with (@getThemeIdentifier I);
  change (@tokensUnder I') with (@tokensUnder I).

Lemma collectionFiles_one :
  finiteChains tokenGroups tokens ->
  runs (collectionFiles (I := I') tokens tokenGroups tokenCollections) c c
    (Returned
       ((flat_map (fun collection' =>
                     componentFilesOf (I := I) c collection' tokens tokenGroups
                       tokenCollections)
           (filter (isComponents (I := I)) (collectionsWithTokens tokens tokenCollections))
         ++ processOutputFiles
              (map (fun collection' =>
                      combinedCollectionStyleOutputFile (Imports := I) c collection' tokens
                        tokenGroups "" None tokenCollections)
                 (filter (fun collection' => negb (isComponents (I := I) collection')) l1)))
        ++ processOutputFiles [f c collection tokens tokenGroups "" None tokenCollections]
        ++ processOutputFiles
             (map (fun collection' =>
                     combinedCollectionStyleOutputFile (Imports := I) c collection' tokens
                       tokenGroups "" None tokenCollections)
                (filter (fun collection' => negb (isComponents (I := I) collection')) l2)))%list).
Proof.
  intro chains.
  eapply runs_eq; [apply (collectionFiles_form (I := I')); exact chains|].
  own_imports.
  rewrite processOutputFiles_app, processOutputFiles_Some.
  rewrite split_at at 2.
  rewrite filter_around
    by (rewrite (globalAlias_not_components _ global_or_alias); reflexivity).
  rewrite (map_around
             (fun collection' => f c collection' tokens tokenGroups "" None tokenCollections)
             (fun collection' =>
                combinedCollectionStyleOutputFile (Imports := I) c collection' tokens
                  tokenGroups "" None tokenCollections)).
  - rewrite processOutputFiles_app.
    change (?x :: ?l) with ([x] ++ l)%list at 1.
    rewrite processOutputFiles_app. now rewrite <- !app_assoc.
  - intros y Hy. apply f_elsewhere. left. eapply other_filtered; [exact other_before | exact Hy].
  - intros y Hy. apply f_elsewhere. left. eapply other_filtered; [exact other_after | exact Hy].
Qed.

Lemma processOutputFiles_cons {A} (x : option A) (l : list (option A)) :
  processOutputFiles (x :: l) = (processOutputFiles [x] ++ processOutputFiles l)%list.
Proof. now destruct x. Qed.

Lemma mergedThemeByCollection_one :
  runs (mergedThemeByCollection (I := I') tokens tokenGroups tokenCollections themesToApply)
    c c
    (Returned
       ((if exportBaseValues c
         then processOutputFiles
                (map (fun collection' =>
                        combinedCollectionStyleOutputFile (Imports := I) c collection'
                          tokens tokenGroups "" None tokenCollections) l1)
         else [])
        ++ (if exportBaseValues c
            then processOutputFiles
                   [f c collection tokens tokenGroups "" None tokenCollections]
            else [])
        ++ ((if exportBaseValues c
             then processOutputFiles
                    (map (fun collection' =>
                            combinedCollectionStyleOutputFile (Imports := I) c collection'
                              tokens tokenGroups "" None tokenCollections) l2)
             else [])
            ++ processOutputFiles
                 (map (fun collection' =>
                         combinedCollectionStyleOutputFile (Imports := I) c collection'
                           (computeTokensByApplyingThemes (Imports := I) tokens tokens
                              themesToApply)
                           tokenGroups "themed" (nth_error themesToApply 0)
                           tokenCollections)
                    (filter (fun collection' => negb (isGlobalOrAlias (I := I) collection'))
                       (collectionsWithTokens tokens tokenCollections)))))%list).
Proof.
  eapply runs_eq; [apply (mergedThemeByCollection_form (I := I'))|].
  own_imports.
  rewrite processOutputFiles_app.
  rewrite (map_ext
             (fun collection' =>
                f c collection' (computeTokensByApplyingThemes tokens tokens themesToApply)
                  tokenGroups "themed" (nth_error themesToApply 0) tokenCollections)
             (fun collection' =>
                combinedCollectionStyleOutputFile (Imports := I) c collection'
                  (computeTokensByApplyingThemes tokens tokens themesToApply)
                  tokenGroups "themed" (nth_error themesToApply 0) tokenCollections))
    by (intro y; apply f_elsewhere; right; left; discriminate).
  destruct (exportBaseValues c); [|reflexivity].
  rewrite split_at at 1.
  rewrite (map_around
             (fun collection' => f c collection' tokens tokenGroups "" None tokenCollections)
             (fun collection' =>
                combinedCollectionStyleOutputFile (Imports := I) c collection' tokens
                  tokenGroups "" None tokenCollections)).
  - rewrite processOutputFiles_app, processOutputFiles_cons. now rewrite <- !app_assoc.
  - intros y Hy. apply f_elsewhere. left. now apply other_before.
  - intros y Hy. apply f_elsewhere. left. now apply other_after.
Qed.

Lemma nestedThemesByCollection_one :
  let nested collection' :=
    if isGlobalOrAlias (I := I) collection'
    then (if exportBaseValues c
          then combinedCollectionStyleOutputFile (Imports := I) c collection' tokens
                 tokenGroups "" None tokenCollections
          else None)
    else nestedDocument (I := I) c themesToApply
           (fun config theme =>
              combinedCollectionStyleOutputFile (Imports := I) config collection'
                (tokensUnder (I := I) tokens theme) tokenGroups "" theme
                tokenCollections) in
  runs (nestedThemesByCollection (I := I') tokens tokenGroups tokenCollections themesToApply)
    c c
    (Returned
       (processOutputFiles (map nested l1)
        ++ (if exportBaseValues c
            then processOutputFiles
                   [f c collection tokens tokenGroups "" None tokenCollections]
            else [])
        ++ processOutputFiles (map nested l2))%list).
Proof.
  intro nested.
  eapply runs_eq; [apply (nestedThemesByCollection_form (I := I'))|].
  own_imports. change (@nestedDocument I') with (@nestedDocument I).
  rewrite split_at.
  assert (Hother : forall y, y <> collection ->
             (if isGlobalOrAlias (I := I) y
              then (if exportBaseValues c
                    then f c y tokens tokenGroups "" None tokenCollections
                    else None)
              else nestedDocument (I := I) c themesToApply
                     (fun config theme =>
                        f config y (tokensUnder (I := I) tokens theme) tokenGroups ""
                          theme tokenCollections)) = nested y).
  { intros y Hy. unfold nested. destruct (isGlobalOrAlias (I := I) y).
    - destruct (exportBaseValues c); [|reflexivity]. apply f_elsewhere. now left.
    - apply nestedDocument_ext. intros config theme. apply f_elsewhere. now left. }
  rewrite (map_around _ nested).
  - rewrite global_or_alias.
    rewrite processOutputFiles_app, processOutputFiles_cons.
    now destruct (exportBaseValues c).
  - intros y Hy. apply Hother. now apply other_before.
  - intros y Hy. apply Hother. now apply other_after.
Qed.

Lemma separateFilesByCollection_one :
  finiteChains tokenGroups tokens ->
  runs (separateFilesByCollection (I := I') tokens tokenGroups tokenCollections themesToApply)
    c c
    (Returned
       (uniqueFiles
          (processOutputFiles
             (map (fun collection' =>
                     combinedCollectionStyleOutputFile (Imports := I) c collection' tokens
                       tokenGroups "" None tokenCollections)
                (filter (isGlobalOrAlias (I := I)) l1))
           ++ processOutputFiles [f c collection tokens tokenGroups "" None tokenCollections]
           ++ processOutputFiles
                ((map (fun collection' =>
                         combinedCollectionStyleOutputFile (Imports := I) c collection'
                           tokens tokenGroups "" None tokenCollections)
                    (filter (isGlobalOrAlias (I := I)) l2)
                  ++ map Some
                       (if exportBaseValues c
                        then flat_map
                               (fun collection' =>
                                  componentFilesOf (I := I) c collection' tokens
                                    tokenGroups tokenCollections)
                               (filter (isComponents (I := I))
                                  (collectionsWithTokens tokens tokenCollections))
                        else [])
                  ++ (if exportBaseValues c
                      then map (fun collection' =>
                                  combinedCollectionStyleOutputFile (Imports := I) c
                                    collection' tokens tokenGroups "" None
                                    tokenCollections)
                             (filter (isNotGlobalAliasComponents (I := I))
                                (collectionsWithTokens tokens tokenCollections))
                      else []))
                 ++ flat_map
                      (fun theme =>
                         map Some
                           (flat_map
                              (fun collection' =>
                                 processOutputFiles
                                   (map (themedComponentFile (I := I) tokens tokenGroups
                                           tokenCollections c theme
                                           (computeTokensByApplyingThemes (Imports := I)
                                              tokens tokens [theme])
                                           (getThemeIdentifier (Imports := I) theme
                                              kebabCase)
                                           collection')
                                        (componentFilesOf (I := I) c collection' tokens
                                           tokenGroups tokenCollections)))
                              (filter (isComponents (I := I))
                                 (collectionsWithTokens tokens tokenCollections)))
                         ++ map (fun collection' =>
                                   combinedCollectionStyleOutputFile (Imports := I) c
                                     collection'
                                     (computeTokensByApplyingThemes (Imports := I) tokens
                                        tokens [theme])
                                     tokenGroups
                                     (getThemeIdentifier (Imports := I) theme kebabCase)
                                     (Some theme) tokenCollections)
                              (filter (isOther (I := I))
                                 (collectionsWithTokens tokens tokenCollections)))
                      themesToApply
                 ++ map Some
                      (processOutputFiles
                         (map (brandFile (I := I) tokens tokenGroups tokenCollections c)
                            themesToApply))))%list)).
Proof.
  intro chains.
  eapply runs_eq; [apply (separateFilesByCollection_form (I := I')); exact chains|].
  own_imports. f_equal.
  match goal with
  | |- context [flat_map ?F themesToApply] =>
      let P := eval pattern f in F in
      match P with
      | ?Q _ =>
          let G := eval cbv beta in (Q (@combinedCollectionStyleOutputFile I)) in
          rewrite (@flat_map_ext _ _ F G)
            by (intro theme; cbv beta; f_equal; apply map_ext; intro y;
                apply f_elsewhere; right; right; discriminate)
      end
  end.
  assert (Hbase : (if exportBaseValues c
                   then map (fun collection' =>
                               f c collection' tokens tokenGroups "" None tokenCollections)
                          (filter (isNotGlobalAliasComponents (I := I))
                             (collectionsWithTokens tokens tokenCollections))
                   else []) =
                  (if exportBaseValues c
                   then map (fun collection' =>
                               combinedCollectionStyleOutputFile (Imports := I) c
                                 collection' tokens tokenGroups "" None tokenCollections)
                          (filter (isNotGlobalAliasComponents (I := I))
                             (collectionsWithTokens tokens tokenCollections))
                   else [])).
  { destruct (exportBaseValues c); [|reflexivity].
    apply map_ext_in. intros y Hy. apply f_elsewhere. left. intros ->.
    apply filter_In in Hy. destruct Hy as [_ Hy].
    apply isNotGlobalAliasComponents_not_globalAlias in Hy. congruence. }
  rewrite Hbase. clear Hbase.
  rewrite split_at at 1.
  rewrite filter_around by exact global_or_alias.
  rewrite (map_around
             (fun collection' => f c collection' tokens tokenGroups "" None tokenCollections)
             (fun collection' =>
                combinedCollectionStyleOutputFile (Imports := I) c collection' tokens
                  tokenGroups "" None tokenCollections)).
  - rewrite <- !app_assoc. rewrite processOutputFiles_app. cbn [app].
    rewrite processOutputFiles_cons. reflexivity.
  - intros y Hy. apply f_elsewhere. left.
    eapply other_filtered; [exact other_before | exact Hy].
  - intros y Hy. apply f_elsewhere. left.
    eapply other_filtered; [exact other_after | exact Hy].
Qed.

End OneDocument.

Lemma firstPerIdentifier_keeps_first (pre : list OutputFile) (x : OutputFile)
    (post : list OutputFile) : forall seen,
  includes seen (fileIdentifier x) = false ->
  (forall earlier, In earlier pre -> fileIdentifier earlier <> fileIdentifier x) ->
  In x (firstPerIdentifier seen (pre ++ x :: post)).
Proof.
  induction pre as [|e pre IH]; intros seen Hs Hpre; cbn [app firstPerIdentifier].
  - rewrite Hs. now left.
  - assert (Hrest : forall earlier, In earlier pre ->
                      fileIdentifier earlier <> fileIdentifier x)
      by (intros earlier Hin; apply Hpre; now right).
    destruct (includes seen (fileIdentifier e)); [now apply IH|].
    right. apply IH; [|exact Hrest].
    unfold includes in *. cbn [existsb]. rewrite Hs, orb_false_r.
    apply String.eqb_neq. apply Hpre. now left.
Qed.

(** Of the files of one destination [uniqueFiles] returns exactly one; it
    is the file [x] of the list when no file before [x] has its destination. *)
Lemma uniqueFiles_one_per_destination (pre : list OutputFile) (x : OutputFile)
    (post : list OutputFile) :
  exists l1 kept l2,
    uniqueFiles (pre ++ x :: post) = (l1 ++ kept :: l2)%list /\
    fileIdentifier kept = fileIdentifier x /\
    (forall other, In other (l1 ++ l2) -> fileIdentifier other <> fileIdentifier x) /\
    ((forall earlier, In earlier pre -> fileIdentifier earlier <> fileIdentifier x) ->
     kept = x).
Proof.
  destruct (uniqueFiles_covers (pre ++ x :: post) x) as [kept [Hk Hid]];
    [apply in_or_app; right; now left|].
  destruct (in_split _ _ Hk) as [l1 [l2 Hsplit]].
  pose proof (uniqueFiles_NoDup (pre ++ x :: post)) as Hnd.
  rewrite Hsplit, map_app in Hnd. cbn [map] in Hnd. apply NoDup_remove_2 in Hnd.
  assert (Hothers : forall other, In other (l1 ++ l2) ->
                      fileIdentifier other <> fileIdentifier x).
  { intros other Hin E. apply Hnd. rewrite <- map_app, Hid, <- E. now apply in_map. }
  exists l1, kept, l2. split; [exact Hsplit|]. split; [exact Hid|].
  split; [exact Hothers|].
  intro Hpre.
  assert (Hx : In x (uniqueFiles (pre ++ x :: post))).
  { rewrite uniqueFiles_scan. now apply firstPerIdentifier_keeps_first. }
  rewrite Hsplit in Hx. apply in_app_or in Hx.
  destruct Hx as [Hx | [Hx | Hx]]; [|exact Hx|].
  - exfalso. apply (Hothers x); [apply in_or_app; now left | reflexivity].
  - exfalso. apply (Hothers x); [apply in_or_app; now right | reflexivity].
Qed.

(** C1, as the code has it.  First, the export does not depend on what
    [combinedCollectionStyleOutputFile] would answer for a global or alias
    collection, except on its un-themed call at the root path, and on that
    call only when base values are exported, the theme files are separate
    files, or no theme is requested: such a collection never gets a themed
    document.  Second, in the by-collection structure, with distinct
    collections and the parent chains of the data model, the export returns,
    and the un-themed call for a global or alias collection with tokens
    accounts for exactly one place of the list it returns: the list is
    [before], then the document of that call, then [after], where [before]
    and [after] are the same whatever that call answers.  This is so when no
    theme is requested, and with [exportBaseValues] under nested and merged
    themes; without [exportBaseValues] these two styles return [before] and
    [after] alone, and applying the themes directly returns the by-type
    files, without the document.  Under separate files the list so built
    goes through [uniqueFiles], which keeps the first file of each
    destination: exactly one file is returned at the destination of the
    document, [before] holds nothing but the un-themed documents of other
    global and alias collections, and the file returned is the document
    itself unless one of these has its destination. *)
Theorem global_alias_documents
    (I : Imports)
    (allTokens : list Token) (allTokenGroups : list TokenGroup)
    (tokenCollections : list DesignSystemCollection) (brands : list Brand)
    (themes : list TokenTheme) (context : PulsarContext) (w : World) :
  let c := exportConfiguration w in
  (forall f,
     (forall config collection tokens tokenGroups themePath theme collections,
        isGlobalOrAlias (I := I) collection = false \/
        (themePath = "" /\ theme = None /\
         (exportBaseValues c = true \/ exportThemesAs c = SeparateFiles \/
          themesRequested context = false)) ->
        f config collection tokens tokenGroups themePath theme collections =
        combinedCollectionStyleOutputFile (Imports := I) config collection tokens
          tokenGroups themePath theme collections) ->
     export (I := withCollectionFile I f) allTokens allTokenGroups tokenCollections brands
       themes context w =
     export (I := I) allTokens allTokenGroups tokenCollections brands themes context w) /\
  (forall tokens tokenGroups collection,
     result (filterByBrand allTokens allTokenGroups brands context w)
       = Returned (tokens, tokenGroups) ->
     ~ themeUnknown themes context ->
     fileStructure c = SeparateByCollection ->
     finiteChains tokenGroups tokens ->
     NoDup tokenCollections ->
     In collection (collectionsWithTokens tokens tokenCollections) ->
     isGlobalOrAlias (I := I) collection = true ->
     exists before after,
       let files (document : list OutputFile) :=
         if themesRequested context
         then match exportThemesAs c with
              | SeparateFiles => uniqueFiles (before ++ document ++ after)
              | NestedThemes | MergedTheme =>
                  (before ++ (if exportBaseValues c then document else []) ++ after)%list
              | ApplyDirectly => (before ++ after)%list
              end
         else (before ++ document ++ after)%list in
       result (export (I := I) allTokens allTokenGroups tokenCollections brands themes
                 context w) =
       Returned
         (files
            (processOutputFiles
               [combinedCollectionStyleOutputFile (Imports := I) c collection tokens
                  tokenGroups "" None tokenCollections])) /\
       (forall f,
          (forall config collection' tokens' tokenGroups' themePath theme collections,
             collection' <> collection \/ themePath <> "" \/ theme <> None ->
             f config collection' tokens' tokenGroups' themePath theme collections =
             combinedCollectionStyleOutputFile (Imports := I) config collection' tokens'
               tokenGroups' themePath theme collections) ->
          result (export (I := withCollectionFile I f) allTokens allTokenGroups
                    tokenCollections brands themes context w) =
          Returned
            (files
               (processOutputFiles
                  [f c collection tokens tokenGroups "" None tokenCollections]))) /\
       (themesRequested context = true -> exportThemesAs c = SeparateFiles ->
        (forall file,
           In file before ->
           exists collection',
             In collection' (collectionsWithTokens tokens tokenCollections) /\
             collection' <> collection /\
             isGlobalOrAlias (I := I) collection' = true /\
             combinedCollectionStyleOutputFile (Imports := I) c collection' tokens
               tokenGroups "" None tokenCollections = Some file) /\
        (forall document,
           exists l1 kept l2,
             uniqueFiles (before ++ [document] ++ after) = (l1 ++ kept :: l2)%list /\
             fileIdentifier kept = fileIdentifier document /\
             (forall other,
                In other (l1 ++ l2) -> fileIdentifier other <> fileIdentifier document) /\
             ((forall earlier,
                 In earlier before -> fileIdentifier earlier <> fileIdentifier document) ->
              kept = document)))).
Proof.
  intro c. split.
  { intros f Hf. now apply export_ignores_other_collection_calls. }
  intros tokens tokenGroups collection Hfb Hth Hfs Hchains Hnd Hin Hga.
  assert (Hcwt : NoDup (collectionsWithTokens tokens tokenCollections))
    by (apply NoDup_filter; exact Hnd).
  destruct (in_split _ _ Hin) as [l1 [l2 Hsplit]].
  rewrite Hsplit in Hcwt. apply NoDup_remove_2 in Hcwt.
  assert (Hl1 : ~ In collection l1) by (intro H; apply Hcwt; apply in_or_app; now left).
  assert (Hl2 : ~ In collection l2) by (intro H; apply Hcwt; apply in_or_app; now right).
  clear Hcwt.
  (* It is enough to show what the export returns for every [f]. *)
  assert (Hown : forall files : list OutputFile -> list OutputFile,
             (forall f,
                (forall config collection' tokens' tokenGroups' themePath theme collections,
                   collection' <> collection \/ themePath <> "" \/ theme <> None ->
                   f config collection' tokens' tokenGroups' themePath theme collections =
                   combinedCollectionStyleOutputFile (Imports := I) config collection'
                     tokens' tokenGroups' themePath theme collections) ->
                result (export (I := withCollectionFile I f) allTokens allTokenGroups
                          tokenCollections brands themes context w) =
                Returned
                  (files
                     (processOutputFiles
                        [f c collection tokens tokenGroups "" None tokenCollections]))) ->
             result (export (I := I) allTokens allTokenGroups tokenCollections brands
                       themes context w) =
             Returned
               (files
                  (processOutputFiles
                     [combinedCollectionStyleOutputFile (Imports := I) c collection tokens
                        tokenGroups "" None tokenCollections]))).
  { intros files Hall.
    rewrite <- (Hall (combinedCollectionStyleOutputFile (Imports := I)))
      by reflexivity.
    reflexivity. }
  destruct (themesRequested context) eqn:Er.
  - assert (Hids : exists ids, themeIds context = Some ids /\ ids <> []).
    { unfold themesRequested in Er. destruct (themeIds context) as [[|id ids]|];
        try discriminate. eexists. split; [reflexivity | discriminate]. }
    destruct Hids as [ids [Hi Hne]].
    destruct (resolveThemes_returns themes _ w (known_themes Hth Hi)) as [ts [Hts _]].
    assert (Hm : result (mapM (resolveTheme themes) ids w) = Returned ts)
      by now rewrite Hts.
    assert (Hexp : forall J : Imports,
               export (I := J) allTokens allTokenGroups tokenCollections brands themes
                 context w =
               exportThemes (I := J) context tokens tokenGroups tokenCollections ts w).
    { intro J. exact (@export_with_themes J allTokens allTokenGroups tokenCollections
                        brands themes context w tokens tokenGroups ids ts Hfb Hi Hne Hm). }
    destruct (exportThemesAs c) eqn:Es.
    + (* the themes applied directly *)
      exists (processOutputFiles
                (if exportBaseValues c
                 then map (fun type =>
                             styleOutputFile (Imports := I) c type
                               (computeTokensByApplyingThemes (Imports := I) tokens tokens ts)
                               tokenGroups "" None tokenCollections)
                        (allTokenTypes (Imports := I))
                 else [])), [].
      cbv zeta.
      assert (Hall : forall f,
                 result (export (I := withCollectionFile I f) allTokens allTokenGroups
                           tokenCollections brands themes context w) =
                 Returned
                   (processOutputFiles
                      (if exportBaseValues c
                       then map (fun type =>
                                   styleOutputFile (Imports := I) c type
                                     (computeTokensByApplyingThemes (Imports := I) tokens
                                        tokens ts)
                                     tokenGroups "" None tokenCollections)
                              (allTokenTypes (Imports := I))
                       else []) ++ [])%list).
      { intro f. rewrite Hexp. unfold exportThemes.
        rewrite bind_getConfiguration_at. fold c. rewrite Es.
        unfold withoutThemeFiles. rewrite bind_getConfiguration_at. fold c.
        rewrite Hfs, Er. cbn [negb]. unfold defaultFiles.
        rewrite bind_getConfiguration_at. fold c. rewrite Hfs.
        rewrite app_nil_r. reflexivity. }
      split; [|split].
      * apply (Hown (fun _ => _)). intros f _. apply Hall.
      * intros f _. apply Hall.
      * intros _ H. discriminate.
    + (* separate files *)
      pose proof (@separateFilesByCollection_one I
                    (combinedCollectionStyleOutputFile (Imports := I)) collection
                    (fun _ _ _ _ _ _ _ _ => eq_refl) Hga tokens tokenGroups
                    tokenCollections ts c l1 l2 Hsplit Hl1 Hl2 Hchains) as H0.
      match type of H0 with
      | runs _ _ _ (Returned (uniqueFiles (?B ++ _ ++ ?A)%list)) =>
          exists B, A; cbv zeta;
          assert (Hall : forall f,
                     (forall config collection' tokens' tokenGroups' themePath theme collections,
                        collection' <> collection \/ themePath <> "" \/ theme <> None ->
                        f config collection' tokens' tokenGroups' themePath theme
                          collections =
                        combinedCollectionStyleOutputFile (Imports := I) config collection'
                          tokens' tokenGroups' themePath theme collections) ->
                     result (export (I := withCollectionFile I f) allTokens allTokenGroups
                               tokenCollections brands themes context w) =
                     Returned
                       (uniqueFiles
                          (B ++ processOutputFiles
                                  [f c collection tokens tokenGroups "" None
                                     tokenCollections]
                             ++ A)%list))
      end.
      { intros f Hf. rewrite Hexp. unfold exportThemes.
        rewrite bind_getConfiguration_at. fold c. rewrite Es, Hfs.
        apply runs_result with (c := c) (c' := c); [|reflexivity].
        exact (@separateFilesByCollection_one I f collection Hf Hga tokens tokenGroups
                 tokenCollections ts c l1 l2 Hsplit Hl1 Hl2 Hchains). }
      clear H0. split; [|split].
      * apply (Hown (fun document => uniqueFiles (_ ++ document ++ _)%list)).
        exact Hall.
      * exact Hall.
      * intros _ _. split.
        -- intros file Hfile. apply In_processOutputFiles_iff in Hfile.
           apply in_map_iff in Hfile. destruct Hfile as [collection' [E Hc']].
           apply filter_In in Hc'. destruct Hc' as [Hc' Hg].
           exists collection'. split; [rewrite Hsplit; apply in_or_app; now left|].
           split; [intros ->; contradiction|]. now split.
        -- intro document. apply uniqueFiles_one_per_destination.
    + (* merged themes *)
      pose proof (@mergedThemeByCollection_one I
                    (combinedCollectionStyleOutputFile (Imports := I)) collection
                    (fun _ _ _ _ _ _ _ _ => eq_refl) tokens tokenGroups
                    tokenCollections ts c l1 l2 Hsplit Hl1 Hl2) as H0.
      match type of H0 with
      | runs _ _ _ (Returned (?B ++ _ ++ ?A)%list) =>
          exists B, A; cbv zeta;
          assert (Hall : forall f,
                     (forall config collection' tokens' tokenGroups' themePath theme collections,
                        collection' <> collection \/ themePath <> "" \/ theme <> None ->
                        f config collection' tokens' tokenGroups' themePath theme
                          collections =
                        combinedCollectionStyleOutputFile (Imports := I) config collection'
                          tokens' tokenGroups' themePath theme collections) ->
                     result (export (I := withCollectionFile I f) allTokens allTokenGroups
                               tokenCollections brands themes context w) =
                     Returned
                       (B ++ (if exportBaseValues c
                              then processOutputFiles
                                     [f c collection tokens tokenGroups "" None
                                        tokenCollections]
                              else [])
                          ++ A)%list)
      end.
      { intros f Hf. rewrite Hexp. unfold exportThemes.
        rewrite bind_getConfiguration_at. fold c. rewrite Es, Hfs.
        apply runs_result with (c := c) (c' := c); [|reflexivity].
        exact (@mergedThemeByCollection_one I f collection Hf tokens tokenGroups
                 tokenCollections ts c l1 l2 Hsplit Hl1 Hl2). }
      clear H0. split; [|split].
      * apply (Hown
                 (fun document =>
                    (_ ++ (if exportBaseValues c then document else []) ++ _)%list)).
        exact Hall.
      * exact Hall.
      * intros _ H. discriminate.
    + (* nested themes *)
      pose proof (@nestedThemesByCollection_one I
                    (combinedCollectionStyleOutputFile (Imports := I)) collection
                    (fun _ _ _ _ _ _ _ _ => eq_refl) Hga tokens tokenGroups
                    tokenCollections ts c l1 l2 Hsplit Hl1 Hl2) as H0.
      cbv zeta in H0.
      match type of H0 with
      | runs _ _ _ (Returned (?B ++ _ ++ ?A)%list) =>
          exists B, A; cbv zeta;
          assert (Hall : forall f,
                     (forall config collection' tokens' tokenGroups' themePath theme collections,
                        collection' <> collection \/ themePath <> "" \/ theme <> None ->
                        f config collection' tokens' tokenGroups' themePath theme
                          collections =
                        combinedCollectionStyleOutputFile (Imports := I) config collection'
                          tokens' tokenGroups' themePath theme collections) ->
                     result (export (I := withCollectionFile I f) allTokens allTokenGroups
                               tokenCollections brands themes context w) =
                     Returned
                       (B ++ (if exportBaseValues c
                              then processOutputFiles
                                     [f c collection tokens tokenGroups "" None
                                        tokenCollections]
                              else [])
                          ++ A)%list)
      end.
      { intros f Hf. rewrite Hexp. unfold exportThemes.
        rewrite bind_getConfiguration_at. fold c. rewrite Es, Hfs.
        apply runs_result with (c := c) (c' := c); [|reflexivity].
        exact (@nestedThemesByCollection_one I f collection Hf Hga tokens tokenGroups
                 tokenCollections ts c l1 l2 Hsplit Hl1 Hl2). }
      clear H0. split; [|split].
      * apply (Hown
                 (fun document =>
                    (_ ++ (if exportBaseValues c then document else []) ++ _)%list)).
        exact Hall.
      * exact Hall.
      * intros _ H. discriminate.
  - (* no theme *)
    pose proof (@collectionFiles_one I
                  (combinedCollectionStyleOutputFile (Imports := I)) collection
                  (fun _ _ _ _ _ _ _ _ => eq_refl) Hga tokens tokenGroups
                  tokenCollections c l1 l2 Hsplit Hl1 Hl2 Hchains) as H0.
    match type of H0 with
    | runs _ _ _ (Returned (?B ++ _ ++ ?A)%list) =>
        exists B, A; cbv zeta;
        assert (Hall : forall f,
                   (forall config collection' tokens' tokenGroups' themePath theme collections,
                        collection' <> collection \/ themePath <> "" \/ theme <> None ->
                        f config collection' tokens' tokenGroups' themePath theme
                          collections =
                        combinedCollectionStyleOutputFile (Imports := I) config collection'
                          tokens' tokenGroups' themePath theme collections) ->
                   result (export (I := withCollectionFile I f) allTokens allTokenGroups
                             tokenCollections brands themes context w) =
                   Returned
                     (B ++ processOutputFiles
                             [f c collection tokens tokenGroups "" None tokenCollections]
                        ++ A)%list)
    end.
    { intros f Hf.
      rewrite (@export_without_themes (withCollectionFile I f) allTokens allTokenGroups
                 tokenCollections brands themes context w tokens tokenGroups Hfb Er).
      unfold withoutThemeFiles. rewrite bind_getConfiguration_at. fold c.
      rewrite Hfs, Er. cbn [negb].
      apply runs_result with (c := c) (c' := c); [|reflexivity].
      exact (@collectionFiles_one I f collection Hf Hga tokens tokenGroups
               tokenCollections c l1 l2 Hsplit Hl1 Hl2 Hchains). }
    clear H0. split; [|split].
    + apply (Hown (fun document => (_ ++ document ++ _)%list)). exact Hall.
    + exact Hall.
    + intro H. discriminate.
Qed.

(** ** Global, alias and themed component documents on the sample design systems *)

(** The parent chain of a sample group, followed to its end. *)
Ltac sample_chain :=
  eexists;
  repeat first
    [ apply ancestors_root; reflexivity
    | eapply ancestors_parent; [reflexivity | reflexivity |] ].

Lemma global_alias_documents_witness :
  let c := sampleConfiguration SeparateFiles SeparateByCollection false false in
  let w := sampleWorld c in
  let tokens := [whiteToken; buttonToken] in
  let tokenGroups := [colorGroup; buttonGroup] in
  let tokenCollections := [globalCollection; componentsCollection] in
  let context := withThemes ["th-factor"] in
  exists before after,
    let files (document : list OutputFile) :=
      if themesRequested context
      then match exportThemesAs c with
           | SeparateFiles => uniqueFiles (before ++ document ++ after)
           | NestedThemes | MergedTheme =>
               (before ++ (if exportBaseValues c then document else []) ++ after)%list
           | ApplyDirectly => (before ++ after)%list
           end
      else (before ++ document ++ after)%list in
    result (export (I := sampleImports) tokens tokenGroups tokenCollections []
              [factorTheme] context w) =
    Returned
      (files
         (processOutputFiles
            [combinedCollectionStyleOutputFile (Imports := sampleImports) c
               globalCollection tokens tokenGroups "" None tokenCollections])) /\
    (forall f,
       (forall config collection' tokens' tokenGroups' themePath theme collections,
          collection' <> globalCollection \/ themePath <> "" \/ theme <> None ->
          f config collection' tokens' tokenGroups' themePath theme collections =
          combinedCollectionStyleOutputFile (Imports := sampleImports) config collection'
            tokens' tokenGroups' themePath theme collections) ->
       result (export (I := withCollectionFile sampleImports f) tokens tokenGroups
                 tokenCollections [] [factorTheme] context w) =
       Returned
         (files
            (processOutputFiles
               [f c globalCollection tokens tokenGroups "" None tokenCollections]))) /\
    (themesRequested context = true -> exportThemesAs c = SeparateFiles ->
     (forall file,
        In file before ->
        exists collection',
          In collection' (collectionsWithTokens tokens tokenCollections) /\
          collection' <> globalCollection /\
          isGlobalOrAlias (I := sampleImports) collection' = true /\
          combinedCollectionStyleOutputFile (Imports := sampleImports) c collection' tokens
            tokenGroups "" None tokenCollections = Some file) /\
     (forall document,
        exists l1 kept l2,
          uniqueFiles (before ++ [document] ++ after) = (l1 ++ kept :: l2)%list /\
          fileIdentifier kept = fileIdentifier document /\
          (forall other,
             In other (l1 ++ l2) -> fileIdentifier other <> fileIdentifier document) /\
          ((forall earlier,
              In earlier before -> fileIdentifier earlier <> fileIdentifier document) ->
           kept = document))).
Proof.
  cbv zeta.
  apply (proj2 (@global_alias_documents sampleImports
                  [whiteToken; buttonToken] [colorGroup; buttonGroup]
                  [globalCollection; componentsCollection] [] [factorTheme]
                  (withThemes ["th-factor"])
                  (sampleWorld
                     (sampleConfiguration SeparateFiles SeparateByCollection false false)))
               [whiteToken; buttonToken] [colorGroup; buttonGroup] globalCollection).
  - reflexivity.
  - intros [ids [id [H1 [H2 H3]]]]. inversion H1; subst ids.
    destruct H2 as [<- | []].
    destruct (H3 factorTheme (or_introl eq_refl)) as [H _]. now apply H.
  - reflexivity.
  - intros token parent [<- | [<- | []]] H; inversion H; subst parent; sample_chain.
  - constructor; [intros [H | []]; discriminate|]. constructor; [intros []|]. constructor.
  - simpl. left. reflexivity.
  - reflexivity.
Defined.

Lemma themed_component_files_share_content_witness :
  let c := sampleConfiguration SeparateFiles SeparateByCollection true false in
  let w := sampleWorld c in
  let tokens := [lightButtonToken; darkButtonToken] in
  let tokenCollections := [componentsCollection] in
  let themedDocument theme collection baseFile :=
    option_map
      (fun themedTokenObject =>
         createTextFile
           ("./brand/" ++ getThemeIdentifier (Imports := sampleImports) theme kebabCase)
           (componentNameOf baseFile ++ ".json")
           (JSON_stringify (Imports := sampleImports) themedTokenObject (indent c)))
      (processTokensToObject (Imports := sampleImports) c
         (filter (inCollection collection)
            (computeTokensByApplyingThemes (Imports := sampleImports) tokens tokens [theme]))
         twoButtonGroups (Some theme) tokenCollections tokens) in
  exists files,
    result (export (I := sampleImports) tokens twoButtonGroups tokenCollections []
              [zestTheme] (withThemes ["th-zest"]) w) = Returned files /\
    (forall theme collection baseFile document,
       In theme [zestTheme] ->
       In collection (collectionsWithTokens tokens tokenCollections) ->
       isComponents (I := sampleImports) collection = true ->
       In baseFile
          (componentFilesOf (I := sampleImports) c collection tokens twoButtonGroups
             tokenCollections) ->
       themedDocument theme collection baseFile = Some document ->
       exists first,
         In first files /\ fileIdentifier first = fileIdentifier document) /\
    (forall file,
       In file files ->
       (exists theme collection baseFile,
          In theme [zestTheme] /\
          In collection (collectionsWithTokens tokens tokenCollections) /\
          isComponents (I := sampleImports) collection = true /\
          In baseFile
             (componentFilesOf (I := sampleImports) c collection tokens twoButtonGroups
                tokenCollections) /\
          themedDocument theme collection baseFile = Some file) \/
       (exists collection,
          In collection (collectionsWithTokens tokens tokenCollections) /\
          combinedCollectionStyleOutputFile (Imports := sampleImports) c collection tokens
            twoButtonGroups "" None tokenCollections = Some file) \/
       (exists collection,
          In collection (collectionsWithTokens tokens tokenCollections) /\
          isComponents (I := sampleImports) collection = true /\
          In file
             (componentFilesOf (I := sampleImports) c collection tokens twoButtonGroups
                tokenCollections)) \/
       (exists theme collection,
          In theme [zestTheme] /\
          In collection (collectionsWithTokens tokens tokenCollections) /\
          isOther (I := sampleImports) collection = true /\
          combinedCollectionStyleOutputFile (Imports := sampleImports) c collection
            (computeTokensByApplyingThemes (Imports := sampleImports) tokens tokens [theme])
            twoButtonGroups (getThemeIdentifier (Imports := sampleImports) theme kebabCase)
            (Some theme) tokenCollections
          = Some file) \/
       (exists theme,
          In theme [zestTheme] /\
          brandFile (I := sampleImports) tokens twoButtonGroups tokenCollections c theme
          = Some file)).
Proof.
  cbv zeta.
  apply (@themed_component_files_share_content sampleImports
           [lightButtonToken; darkButtonToken] twoButtonGroups [componentsCollection] []
           [zestTheme] (withThemes ["th-zest"])
           (sampleWorld (sampleConfiguration SeparateFiles SeparateByCollection true false))
           [lightButtonToken; darkButtonToken] twoButtonGroups ["th-zest"] [zestTheme]).
  - reflexivity.
  - reflexivity.
  - reflexivity.
  - reflexivity.
  - discriminate.
  - reflexivity.
  - intros token parent [<- | [<- | []]] H; inversion H; subst parent; sample_chain.
Defined.
